(** * SCRAM: the fault-tree registry and the report writer

    A shallow embedding of [src/fault_tree.cc] and [src/reporter.cc].

    Both files are imperative C++: [FaultTree] mutates its own members and may
    throw, [Reporter] mutates one [xmlpp::Document] through element pointers.
    Each is embedded in a small state monad whose result records how the call
    ended: a value, a thrown [scram::Error], a failed [assert], or undefined
    behaviour (a dereferenced [end()] iterator or null pointer). *)

From Stdlib Require Import ZArith Lia.
From stdpp Require Import base tactics option list gmap strings pretty.

(** ** Outcomes of a call *)

(** The exception classes of [error.h] that the two files throw.  The payload
    is the message given to the constructor. *)
Inductive Exception :=
  | Error (msg : string)
  | ValueError (msg : string)
  | LogicError (msg : string).

(** The ways a call can end without a value. *)
Inductive Failure :=
  | Thrown (e : Exception)
  | AssertionFailed
  | UndefinedBehaviour.

Inductive Res (A : Type) :=
  | Val (a : A)
  | Fail (f : Failure).
Arguments Val {A} a.
Arguments Fail {A} f.

(** A computation over a mutable object of type [S].  The state is threaded
    through failures as well: a caller that catches an exception goes on with
    the object as the throwing call left it. *)
Definition M (S A : Type) : Type := S → Res A * S.

#[global] Instance M_ret {S} : MRet (M S) := λ A a s, (Val a, s).
#[global] Instance M_bind {S} : MBind (M S) := λ A B f m s,
  match m s with
  | (Val a, s') => f a s'
  | (Fail e, s') => (Fail e, s')
  end.

Definition gets {S A} (f : S → A) : M S A := λ s, (Val (f s), s).
Definition modify {S} (f : S → S) : M S unit := λ s, (Val tt, f s).
Definition fail {S A} (e : Failure) : M S A := λ s, (Fail e, s).
Definition throw {S A} (e : Exception) : M S A := fail (Thrown e).
(** [assert(c)] of <cassert>, with assertions enabled. *)
Definition assert {S} (c : bool) : M S unit :=
  if c then mret tt else fail AssertionFailed.

(** The loop [for (it = c.begin(); it != c.end(); ++it)] with its body run on
    each element of the container, in iteration order. *)
Fixpoint for_each {S A} (l : list A) (body : A → M S unit) : M S unit :=
  match l with
  | [] => mret tt
  | x :: l' => body x ;; for_each l' body
  end.

(** ** Event model (the part of [event.h] the two files rely on) *)

(** What [CcfEvent] adds to [BasicEvent]: [ccf_group_name()],
    [member_names()] (a [std::vector<std::string>]) and [ccf_group_size()]. *)
Record CcfData := mkCcfData {
  ccf_group_name : string;
  member_names : list string;
  ccf_group_size : Z
}.

(** A [BasicEvent] whose dynamic type may be the subclass [CcfEvent]. *)
Inductive BasicEvent :=
  | PlainBasicEvent (id orig_id : string)
  | CcfEvent (id orig_id : string) (ccf : CcfData).

(** [PrimaryEvent] is the base of [BasicEvent] and [HouseEvent]. *)
Inductive PrimaryEvent :=
  | Basic (b : BasicEvent)
  | HouseEvent (id orig_id : string).

(** What an [EventPtr] held by a gate points to.  A child that is itself a
    gate is kept by reference: neither file looks inside a child gate. *)
Inductive Event :=
  | GateRef (id : string)
  | Primary (p : PrimaryEvent).

Definition BasicEvent_orig_id (b : BasicEvent) : string :=
  match b with
  | PlainBasicEvent _ o => o
  | CcfEvent _ o _ => o
  end.

Definition PrimaryEvent_orig_id (p : PrimaryEvent) : string :=
  match p with
  | Basic b => BasicEvent_orig_id b
  | HouseEvent _ o => o
  end.

(** [boost::dynamic_pointer_cast<CcfEvent>(b)]; [None] is the null pointer. *)
Definition dynamic_pointer_cast_CcfEvent (b : BasicEvent) : option CcfData :=
  match b with
  | CcfEvent _ _ ccf => Some ccf
  | PlainBasicEvent _ _ => None
  end.

(** [boost::dynamic_pointer_cast<scram::PrimaryEvent>(e)]; [None] is the null
    pointer. *)
Definition dynamic_pointer_cast_PrimaryEvent (e : Event) : option PrimaryEvent :=
  match e with
  | Primary p => Some p
  | GateRef _ => None
  end.

(** A [GatePtr] is kept as the gate it points to, with [Gate::id()] and
    [Gate::children()], a [std::map<std::string, EventPtr>]: [fault_tree.cc]
    only reads gates. *)
Module Gate.
Record t := mk { id : string; children : gmap string Event }.
End Gate.

(** ** [FaultTree] *)

Record FaultTree := mkFaultTree {
  name_ : string;
  top_event_ : option Gate.t;          (* GatePtr, null until the first AddGate *)
  top_event_id_ : string;
  inter_events_ : gmap string Gate.t;  (* boost::unordered_map<std::string, GatePtr> *)
  primary_events_ : gmap string PrimaryEvent;
  lock_ : bool;
  warnings_ : string
}.

(** [FaultTree::FaultTree(std::string name)] *)
Definition FaultTree_new (name : string) : FaultTree :=
  {| name_ := name; top_event_ := None; top_event_id_ := EmptyString;
     inter_events_ := ∅; primary_events_ := ∅; lock_ := false;
     warnings_ := EmptyString |}.

Definition set_top_event_ (g : Gate.t) (t : FaultTree) : FaultTree :=
  mkFaultTree (name_ t) (Some g) (top_event_id_ t) (inter_events_ t)
              (primary_events_ t) (lock_ t) (warnings_ t).
Definition set_top_event_id_ (i : string) (t : FaultTree) : FaultTree :=
  mkFaultTree (name_ t) (top_event_ t) i (inter_events_ t)
              (primary_events_ t) (lock_ t) (warnings_ t).
Definition set_inter_events_ (m : gmap string Gate.t) (t : FaultTree) : FaultTree :=
  mkFaultTree (name_ t) (top_event_ t) (top_event_id_ t) m
              (primary_events_ t) (lock_ t) (warnings_ t).
Definition set_primary_events_ (m : gmap string PrimaryEvent) (t : FaultTree) : FaultTree :=
  mkFaultTree (name_ t) (top_event_ t) (top_event_id_ t) (inter_events_ t)
              m (lock_ t) (warnings_ t).
Definition set_lock_ (b : bool) (t : FaultTree) : FaultTree :=
  mkFaultTree (name_ t) (top_event_ t) (top_event_id_ t) (inter_events_ t)
              (primary_events_ t) b (warnings_ t).

(** [m.count(k)] as a truth value. *)
Definition count {V} (m : gmap string V) (k : string) : bool :=
  bool_decide (is_Some (m !! k)).

(** [m.insert(std::make_pair(k, v))]: an existing key keeps its value. *)
Definition map_insert {V} (k : string) (v : V) (m : gmap string V) : gmap string V :=
  match m !! k with
  | Some _ => m
  | None => <[k := v]> m
  end.

Definition AddGate (gate : Gate.t) : M FaultTree unit :=
  lock ← gets lock_;
  if lock : bool then throw (Error "The tree is locked. No change is allowed.")
  else
    top_id ← gets top_event_id_;
    if bool_decide (top_id = EmptyString) then
      modify (set_top_event_ gate) ;;
      modify (set_top_event_id_ (Gate.id gate))
    else
      inter ← gets inter_events_;
      if count inter (Gate.id gate) || bool_decide (Gate.id gate = top_id) then
        let msg := "Trying to doubly define a gate" in
        throw (ValueError msg)
      else
        modify (λ t, set_inter_events_ (map_insert (Gate.id gate) gate (inter_events_ t)) t).

Definition GetPrimaryEvents (gate : Gate.t) : M FaultTree unit :=
  let children := Gate.children gate in
  for_each (map_to_list children) (λ it,
    inter ← gets inter_events_;
    if negb (count inter it.1) then
      let primary_event := dynamic_pointer_cast_PrimaryEvent it.2 in
      match primary_event with
      | None => fail AssertionFailed   (* assert(primary_event != 0) *)
      | Some pe =>
          modify (λ t, set_primary_events_ (map_insert it.1 pe (primary_events_ t)) t)
      end
    else mret tt).

(** A sequence that the iterators of a [boost::unordered_map] can go
    through from [begin()] to [end()]: the entries of the mapping, each
    once.  Their order is unspecified; it comes from the hash values, the
    number of buckets and the insertions made so far, not from the entries
    alone. *)
Definition iteration (m : gmap string Gate.t) (order : list (string * Gate.t)) : Prop :=
  order ≡ₚ map_to_list m.

(** [order] is the sequence that the loop over [inter_events_] goes through
    in this call, an [iteration] of [inter_events_]. *)
Definition GatherPrimaryEvents (order : list (string * Gate.t)) : M FaultTree unit :=
  modify (set_lock_ true) ;;
  top ← gets top_event_;
  match top with
  | None => fail UndefinedBehaviour    (* gate->children() through a null GatePtr *)
  | Some g => GetPrimaryEvents g
  end ;;
  for_each order (λ git, GetPrimaryEvents git.2).

(** The tree after a series of [AddGate] calls by a caller that catches the
    exceptions and carries on. *)
Definition AddGates (gates : list Gate.t) (t : FaultTree) : FaultTree :=
  foldl (λ t g, (AddGate g t).2) t gates.

(** ** Machine integers and text *)

(** [a - b] on [size_t]. *)
Definition size_t_sub (a b : Z) : Z := (a - b) `mod` 2 ^ 64.

(** The conversion of an integer to [int] (32 bits, two's complement). *)
Definition to_int (z : Z) : Z := (z + 2 ^ 31) `mod` 2 ^ 32 - 2 ^ 31.

(** [c.size()] *)
Definition size {A} (c : list A) : Z := Z.of_nat (length c).

(** [boost::lexical_cast<std::string>] of an [int] or a [size_t]. *)
Definition lexical_cast (z : Z) : string := pretty z.

(** [v[i]] on a [std::vector]; out of range is undefined behaviour. *)
Definition subscript {S A} (v : list A) (i : Z) : M S A :=
  if bool_decide (0 ≤ i)%Z then
    match v !! Z.to_nat i with
    | Some x => mret x
    | None => fail UndefinedBehaviour
    end
  else fail UndefinedBehaviour.

(** [m.find(k)->second]; dereferencing [end()] is undefined behaviour. *)
Definition find_second {S K V} `{Countable K} (m : gmap K V) (k : K) : M S V :=
  match m !! k with
  | Some v => mret v
  | None => fail UndefinedBehaviour
  end.

(** [boost::is_any_of(set)] *)
Fixpoint is_any_of (set : string) (c : Ascii.ascii) : bool :=
  match set with
  | EmptyString => false
  | String a set' => bool_decide (c = a) || is_any_of set' c
  end.

(** The tokens of [boost::split(names, s, pred, boost::token_compress_on)]:
    the text between separators, a run of adjacent separators counting as
    one.  [tok] is the token read so far, [in_sep] tells that the last
    character was a separator. *)
Fixpoint split_compress (pred : Ascii.ascii → bool) (in_sep : bool) (tok s : string)
    : list string :=
  match s with
  | EmptyString => [tok]
  | String c s' =>
      if pred c then
        if in_sep then split_compress pred true tok s'
        else tok :: split_compress pred true EmptyString s'
      else split_compress pred false (tok +:+ String c EmptyString) s'
  end.

Definition boost_split (s : string) (pred : Ascii.ascii → bool) : list string :=
  split_compress pred false EmptyString s.

Fixpoint string_drop (n : nat) (s : string) : string :=
  match n, s with
  | S n', String _ s' => string_drop n' s'
  | _, _ => s
  end.

(** [boost::replace_first(s, pat, rep)]: the first occurrence of [pat] in
    [s] is replaced by [rep]; without an occurrence [s] stays as it is. *)
Fixpoint replace_first (s pat rep : string) : string :=
  if String.prefix pat s then rep +:+ string_drop (String.length pat) s
  else match s with
       | EmptyString => EmptyString
       | String c s' => String c (replace_first s' pat rep)
       end.

(** ** The [xmlpp] document *)

#[warnings="-register-all"]
Inductive Node :=
  | Element (name : string) (attributes : list (string * string)) (children : list Node)
  | TextNode (content : string).

(** [xmlpp::Document]: the root node, if one was created. *)
Definition Document : Type := option Node.

(** An [xmlpp::Node*] or [xmlpp::Element*]: null, or the position of the node
    under the root as the list of child indices leading to it.  The writers
    only ever append children, so a position keeps naming the same node. *)
Definition NodePtr : Type := option (list nat).

Fixpoint lookup_node (n : Node) (p : list nat) {struct p} : option Node :=
  match p with
  | [] => Some n
  | i :: p' =>
      match n with
      | Element _ _ cs => c ← cs !! i; lookup_node c p'
      | TextNode _ => None
      end
  end.

Fixpoint update_node (f : Node → Node) (n : Node) (p : list nat) {struct p} : Node :=
  match p with
  | [] => f n
  | i :: p' =>
      match n with
      | Element nm ats cs => Element nm ats (alter (λ c, update_node f c p') i cs)
      | TextNode s => TextNode s
      end
  end.

Fixpoint set_attr (k v : string) (ats : list (string * string)) : list (string * string) :=
  match ats with
  | [] => [(k, v)]
  | (k', v') :: ats' =>
      if bool_decide (k' = k) then (k, v) :: ats' else (k', v') :: set_attr k v ats'
  end.

Definition is_element_named (name : string) (n : Node) : bool :=
  match n with
  | Element nm _ _ => bool_decide (nm = name)
  | TextNode _ => false
  end.

(** The nodes selected from [n] (at position [p]) by a path of child steps,
    in document order. *)
Fixpoint select (steps : list string) (p : list nat) (n : Node) {struct steps}
    : list (list nat) :=
  match steps with
  | [] => [p]
  | s :: steps' =>
      match n with
      | Element _ _ cs =>
          mjoin (imap (λ i c, if is_element_named s c
                              then select steps' (p ++ [i]) c else []) cs)
      | TextNode _ => []
      end
  end.

(** The steps of the XPath expressions the reporter uses, [./a/b/c]: the
    context node, then children by element name. *)
Definition xpath_steps (xpath : string) : list string :=
  match boost_split xpath (is_any_of "/") with
  | "." :: steps => steps
  | steps => steps
  end.

Module xmlpp.
Definition deref (p : NodePtr) : M Document Node := λ d,
  match p, d with
  | Some q, Some r =>
      match lookup_node r q with
      | Some n => (Val n, d)
      | None => (Fail UndefinedBehaviour, d)
      end
  | _, _ => (Fail UndefinedBehaviour, d)
  end.

Definition store (q : list nat) (n : Node) : M Document unit :=
  modify (fmap (λ r, update_node (λ _, n) r q)).

(** [doc->get_root_node()] *)
Definition get_root_node : M Document NodePtr :=
  d ← gets (λ d : Document, d);
  match d with
  | Some _ => mret (Some [])
  | None => mret None
  end.

(** [doc->create_root_node(name)] *)
Definition create_root_node (name : string) : M Document NodePtr :=
  modify (λ _ : Document, Some (Element name [] [])) ;; mret (Some []).

(** [p->add_child(name)]: a new last child; its pointer is returned. *)
Definition add_child (p : NodePtr) (name : string) : M Document NodePtr :=
  n ← deref p;
  match p, n with
  | Some q, Element nm ats cs =>
      store q (Element nm ats (cs ++ [Element name [] []])) ;;
      mret (Some (q ++ [length cs]))
  | _, _ => fail UndefinedBehaviour
  end.

(** [p->add_child_text(content)] *)
Definition add_child_text (p : NodePtr) (content : string) : M Document unit :=
  n ← deref p;
  match p, n with
  | Some q, Element nm ats cs => store q (Element nm ats (cs ++ [TextNode content]))
  | _, _ => fail UndefinedBehaviour
  end.

(** [p->set_attribute(name, value)] *)
Definition set_attribute (p : NodePtr) (name value : string) : M Document unit :=
  n ← deref p;
  match p, n with
  | Some q, Element nm ats cs => store q (Element nm (set_attr name value ats) cs)
  | _, _ => fail UndefinedBehaviour
  end.

(** [p->find(xpath)], an [xmlpp::NodeSet] *)
Definition find (p : NodePtr) (xpath : string) : M Document (list NodePtr) :=
  n ← deref p;
  match p with
  | Some q => mret (Some <$> select (xpath_steps xpath) q n)
  | None => fail UndefinedBehaviour
  end.
End xmlpp.

(** [set[0]] and [set.back()] on an [xmlpp::NodeSet] that an [assert] has
    shown to be non-empty. *)
Definition front (set : list NodePtr) : NodePtr := default None (head set).
Definition back (set : list NodePtr) : NodePtr := default None (last set).

(** ** What the reporter takes from outside [reporter.cc] *)

(** The C++ [double] is kept abstract, with [boost::lexical_cast<std::string>]
    on it; [version::core()] of [version.h] is a constant of the build. *)
Class Env := {
  double : Type;
  lexical_cast_double : double → string;
  version_core : string
}.

(** The members of [Settings] that [SetupReport] reads. *)
Module Settings.
Record t `{Env} := mk {
  limit_order_ : Z;
  ccf_analysis_ : bool;
  probability_analysis_ : bool;
  approx_ : string;
  cut_off_ : double;
  num_sums_ : Z;
  importance_analysis_ : bool;
  uncertainty_analysis_ : bool;
  trials_ : Z
}.
Arguments mk {_}.
End Settings.

(** [RiskAnalysis]: [SetupReport] reads only the [size()] of its containers;
    each field is the number of entries of the container of that name. *)
Module RiskAnalysis.
Record t := mk {
  gates_ : nat;
  basic_events_ : nat;
  primary_events_ : nat;
  ccf_groups_ : nat;
  fault_trees_ : nat
}.
End RiskAnalysis.

(** [FaultTreeAnalysis]: [min_cut_sets_] is a
    [std::set< std::set<std::string> >], kept as the sequence its iterators
    go through. *)
Module FaultTreeAnalysis.
Record t `{Env} := mk {
  num_basic_events_ : Z;
  min_cut_sets_ : list (list string);
  warnings : string;
  basic_events_ : gmap string BasicEvent;
  analysis_time_ : double
}.
Arguments mk {_}.
End FaultTreeAnalysis.

(** [ProbabilityAnalysis]: [importance()] is a
    [std::map< std::string, std::vector<double> >], kept as the sequence its
    iterators go through. *)
Module ProbabilityAnalysis.
Record t `{Env} := mk {
  p_total : double;
  warnings : string;
  prob_of_min_sets : gmap (list string) double;
  basic_events_ : gmap string BasicEvent;
  importance : list (string * list double);
  p_time_ : double;
  imp_time_ : double
}.
Arguments mk {_}.
End ProbabilityAnalysis.

Module UncertaintyAnalysis.
Record t `{Env} := mk {
  warnings : string;
  mean : double;
  sigma : double;
  confidence_interval : double * double;
  distribution : list (double * double);
  p_time_ : double
}.
Arguments mk {_}.
End UncertaintyAnalysis.

(** ** [Reporter] *)

Module Reporter.
Section Reporter.
Context `{Env}.
Import xmlpp.

(** [now] is the text that [time << pt::second_clock::local_time()] puts
    into the stream at the call. *)
Definition SetupReport (risk_an : RiskAnalysis.t) (settings : Settings.t)
    (now : string) : M Document unit :=
  r ← get_root_node;
  if bool_decide (r ≠ None) then
    throw (LogicError "The passed document is not empty for reporting")
  else
  root ← create_root_node "report";
  information ← add_child root "information";
  software ← add_child information "software";
  set_attribute software "name" "SCRAM" ;;
  set_attribute software "version" version_core ;;
  time ← add_child information "time";
  add_child_text time now ;;
  add_child information "performance" ;;

  quant ← add_child information "calculated-quantity";
  set_attribute quant "name" "Minimal Cut Set Analysis" ;;
  set_attribute quant "definition"
    "Groups of events sufficient for a top event failure" ;;

  methods ← add_child information "calculation-method";
  set_attribute methods "name" "MOCUS" ;;
  limits ← add_child methods "limits";
  nbe ← add_child limits "number-of-basic-events";
  add_child_text nbe (lexical_cast (Settings.limit_order_ settings)) ;;

  (if Settings.ccf_analysis_ settings then
     ccf_an ← add_child information "calculated-quantity";
     set_attribute ccf_an "name" "CCF Analysis" ;;
     set_attribute ccf_an "definition"
       "Failure of multiple elements due to a common cause"
   else mret tt) ;;

  (if Settings.probability_analysis_ settings then
     quant ← add_child information "calculated-quantity";
     set_attribute quant "name" "Probability Analysis" ;;
     set_attribute quant "definition"
       "Quantitative analysis of failure probability" ;;
     set_attribute quant "approximation" (Settings.approx_ settings) ;;

     methods ← add_child information "calculation-method";
     set_attribute methods "name" "Numerical Probability" ;;
     limits ← add_child methods "limits";
     cut_off ← add_child limits "cut-off";
     add_child_text cut_off (lexical_cast_double (Settings.cut_off_ settings)) ;;
     num_sums ← add_child limits "number-of-sums";
     add_child_text num_sums (lexical_cast (Settings.num_sums_ settings))
   else mret tt) ;;

  (if Settings.importance_analysis_ settings then
     quant ← add_child information "calculated-quantity";
     set_attribute quant "name" "Importance Analysis" ;;
     set_attribute quant "definition"
       "Quantitative analysis of contributions and importance of events."
   else mret tt) ;;

  (if Settings.uncertainty_analysis_ settings then
     quant ← add_child information "calculated-quantity";
     set_attribute quant "name" "Uncertainty Analysis" ;;
     set_attribute quant "definition"
       "Calculation of uncertainties with the Monte Carlo method" ;;

     methods ← add_child information "calculation-method";
     set_attribute methods "name" "Monte Carlo" ;;
     limits ← add_child methods "limits";
     trials ← add_child limits "number-of-trials";
     add_child_text trials (lexical_cast (Settings.trials_ settings))
   else mret tt) ;;

  model ← add_child information "model-features";
  gates ← add_child model "gates";
  add_child_text gates
    (lexical_cast (Z.of_nat (RiskAnalysis.gates_ risk_an))) ;;
  basic_events ← add_child model "basic-events";
  add_child_text basic_events
    (lexical_cast (Z.of_nat (RiskAnalysis.basic_events_ risk_an))) ;;
  house_events ← add_child model "house-events";
  add_child_text house_events
    (lexical_cast (size_t_sub (Z.of_nat (RiskAnalysis.primary_events_ risk_an))
                              (Z.of_nat (RiskAnalysis.basic_events_ risk_an)))) ;;
  ccf_groups ← add_child model "ccf-groups";
  add_child_text ccf_groups
    (lexical_cast (Z.of_nat (RiskAnalysis.ccf_groups_ risk_an))) ;;
  fault_trees ← add_child model "fault-trees";
  add_child_text fault_trees
    (lexical_cast (Z.of_nat (RiskAnalysis.fault_trees_ risk_an))) ;;

  add_child root "results" ;;
  mret tt.

(** [orphan_primary_events] is a [std::set] of shared pointers, kept as the
    sequence its iterators go through. *)
Definition ReportOrphans (orphan_primary_events : list PrimaryEvent)
    : M Document unit :=
  assert (negb (bool_decide (orphan_primary_events = []))) ;;
  let out := EmptyString in
  let out := out +:+ "WARNING! Found unused primary events: " in
  let out := foldl (λ out it, out +:+ (PrimaryEvent_orig_id it +:+ " "))
                   out orphan_primary_events in
  root ← get_root_node;
  inf ← find root "./information";
  assert (bool_decide (size inf = 1%Z)) ;;
  let information := front inf in
  warning ← add_child information "warning";
  add_child_text warning out.

Definition ReportFta (ft_name : string) (fta : FaultTreeAnalysis.t)
    (prob_analysis : option ProbabilityAnalysis.t) : M Document unit :=
  root ← get_root_node;
  res ← find root "./results";
  assert (bool_decide (size res = 1%Z)) ;;
  let results := front res in
  sum_of_products ← add_child results "sum-of-products";
  set_attribute sum_of_products "name" ft_name ;;
  set_attribute sum_of_products "basic-events"
    (lexical_cast (FaultTreeAnalysis.num_basic_events_ fta)) ;;
  set_attribute sum_of_products "products"
    (lexical_cast (size (FaultTreeAnalysis.min_cut_sets_ fta))) ;;

  match prob_analysis with
  | Some pa =>
      set_attribute sum_of_products "probability"
        (lexical_cast_double (ProbabilityAnalysis.p_total pa))
  | None => mret tt
  end ;;

  let warning := EmptyString in
  let warning := warning +:+ FaultTreeAnalysis.warnings fta in
  let warning := match prob_analysis with
                 | Some pa => warning +:+ ProbabilityAnalysis.warnings pa
                 | None => warning
                 end in
  (if bool_decide (warning ≠ EmptyString) then
     w ← add_child sum_of_products "warning";
     add_child_text w warning
   else mret tt) ;;

  for_each (FaultTreeAnalysis.min_cut_sets_ fta) (λ it_min,
    product ← add_child sum_of_products "product";
    set_attribute product "order" (lexical_cast (size it_min)) ;;

    match prob_analysis with
    | Some pa =>
        p ← find_second (ProbabilityAnalysis.prob_of_min_sets pa) it_min;
        set_attribute product "probability" (lexical_cast_double p)
    | None => mret tt
    end ;;

    for_each it_min (λ it_set,
      let full_name := it_set in
      let names := boost_split full_name (is_any_of " ") in
      assert (bool_decide (1 ≤ size names)%Z) ;;
      names_0 ← subscript names 0;
      if bool_decide (names_0 = "not") then
        let comp_name := full_name in
        let comp_name := replace_first comp_name "not " EmptyString in
        basic_event ← find_second (FaultTreeAnalysis.basic_events_ fta) comp_name;
        let ccf_event := dynamic_pointer_cast_CcfEvent basic_event in
        match ccf_event with
        | None =>
            n ← add_child product "not";
            b ← add_child n "basic-event";
            set_attribute b "name" (BasicEvent_orig_id basic_event)
        | Some ccf_event =>
            n ← add_child product "not";
            ccf_element ← add_child n "ccf-event";
            set_attribute ccf_element "ccf-group" (ccf_group_name ccf_event) ;;
            set_attribute ccf_element "order"
              (lexical_cast (size (member_names ccf_event))) ;;
            set_attribute ccf_element "group-size"
              (lexical_cast (ccf_group_size ccf_event)) ;;
            for_each (member_names ccf_event) (λ it,
              b ← add_child ccf_element "basic-event";
              set_attribute b "name" it)
        end
      else
        basic_event ← find_second (FaultTreeAnalysis.basic_events_ fta) full_name;
        let ccf_event := dynamic_pointer_cast_CcfEvent basic_event in
        match ccf_event with
        | None =>
            b ← add_child product "basic-event";
            set_attribute b "name" (BasicEvent_orig_id basic_event)
        | Some ccf_event =>
            ccf_element ← add_child product "ccf-event";
            set_attribute ccf_element "ccf-group" (ccf_group_name ccf_event) ;;
            set_attribute ccf_element "order"
              (lexical_cast (size (member_names ccf_event))) ;;
            set_attribute ccf_element "group-size"
              (lexical_cast (ccf_group_size ccf_event)) ;;
            for_each (member_names ccf_event) (λ it,
              b ← add_child ccf_element "basic-event";
              set_attribute b "name" it)
        end)) ;;

  perf ← find root "./information/performance";
  assert (bool_decide (size perf = 1%Z)) ;;
  let performance := front perf in
  calc_time ← add_child performance "calculation-time";
  set_attribute calc_time "name" ft_name ;;
  mcs ← add_child calc_time "minimal-cut-set";
  add_child_text mcs (lexical_cast_double (FaultTreeAnalysis.analysis_time_ fta)) ;;
  match prob_analysis with
  | Some pa =>
      pr ← add_child calc_time "probability";
      add_child_text pr (lexical_cast_double (ProbabilityAnalysis.p_time_ pa))
  | None => mret tt
  end.

Definition ReportImportance (ft_name : string)
    (prob_analysis : ProbabilityAnalysis.t) : M Document unit :=
  root ← get_root_node;
  res ← find root "./results";
  assert (bool_decide (size res = 1%Z)) ;;
  let results := front res in
  importance ← add_child results "importance";
  set_attribute importance "name" ft_name ;;
  set_attribute importance "basic-events"
    (lexical_cast (size (ProbabilityAnalysis.importance prob_analysis))) ;;

  let warning := EmptyString in
  let warning := warning +:+ ProbabilityAnalysis.warnings prob_analysis in
  (if bool_decide (warning ≠ EmptyString) then
     w ← add_child importance "warning";
     add_child_text w warning
   else mret tt) ;;

  for_each (ProbabilityAnalysis.importance prob_analysis) (λ it,
    basic_event ← add_child importance "basic-event";
    be ← find_second (ProbabilityAnalysis.basic_events_ prob_analysis) it.1;
    set_attribute basic_event "name" (BasicEvent_orig_id be) ;;
    dif ← subscript it.2 0;
    set_attribute basic_event "DIF" (lexical_cast_double dif) ;;
    mif ← subscript it.2 1;
    set_attribute basic_event "MIF" (lexical_cast_double mif) ;;
    cif ← subscript it.2 2;
    set_attribute basic_event "CIF" (lexical_cast_double cif) ;;
    rrw ← subscript it.2 3;
    set_attribute basic_event "RRW" (lexical_cast_double rrw) ;;
    raw ← subscript it.2 4;
    set_attribute basic_event "RAW" (lexical_cast_double raw)) ;;
  calc_times ← find root "./information/performance/calculation-time";
  assert (negb (bool_decide (calc_times = []))) ;;
  let calc_time := back calc_times in
  imp ← add_child calc_time "importance";
  add_child_text imp
    (lexical_cast_double (ProbabilityAnalysis.imp_time_ prob_analysis)).

Definition ReportUncertainty (ft_name : string)
    (uncert_analysis : UncertaintyAnalysis.t) : M Document unit :=
  root ← get_root_node;
  res ← find root "./results";
  assert (bool_decide (size res = 1%Z)) ;;
  let results := front res in
  measure ← add_child results "measure";
  set_attribute measure "name" ft_name ;;

  let warning := EmptyString in
  let warning := warning +:+ UncertaintyAnalysis.warnings uncert_analysis in
  (if bool_decide (warning ≠ EmptyString) then
     w ← add_child measure "warning";
     add_child_text w warning
   else mret tt) ;;

  mean ← add_child measure "mean";
  set_attribute mean "value"
    (lexical_cast_double (UncertaintyAnalysis.mean uncert_analysis)) ;;
  sd ← add_child measure "standard-deviation";
  set_attribute sd "value"
    (lexical_cast_double (UncertaintyAnalysis.sigma uncert_analysis)) ;;
  confidence ← add_child measure "confidence-range";
  set_attribute confidence "percentage" "95" ;;
  set_attribute confidence "lower-bound"
    (lexical_cast_double (UncertaintyAnalysis.confidence_interval uncert_analysis).1) ;;
  set_attribute confidence "upper-bound"
    (lexical_cast_double (UncertaintyAnalysis.confidence_interval uncert_analysis).2) ;;
  quantiles ← add_child measure "quantiles";
  let num_bins :=
    to_int (size_t_sub (size (UncertaintyAnalysis.distribution uncert_analysis)) 1) in
  set_attribute quantiles "number" (lexical_cast num_bins) ;;
  for_each (seqZ 0 num_bins) (λ i,
    quant ← add_child quantiles "quantile";
    set_attribute quant "number" (lexical_cast (i + 1)) ;;
    lo ← subscript (UncertaintyAnalysis.distribution uncert_analysis) i;
    let lower := lo.1 in
    up ← subscript (UncertaintyAnalysis.distribution uncert_analysis) (i + 1);
    let upper := up.1 in
    va ← subscript (UncertaintyAnalysis.distribution uncert_analysis) (i + 1);
    let value := va.2 in
    set_attribute quant "mean" (lexical_cast_double value) ;;
    set_attribute quant "lower-bound" (lexical_cast_double lower) ;;
    set_attribute quant "upper-bound" (lexical_cast_double upper)) ;;
  calc_times ← find root "./information/performance/calculation-time";
  assert (negb (bool_decide (calc_times = []))) ;;
  let calc_time := back calc_times in
  unc ← add_child calc_time "uncertainty";
  add_child_text unc
    (lexical_cast_double (UncertaintyAnalysis.p_time_ uncert_analysis)).
End Reporter.
End Reporter.

(** * Reading the results

    The definitions below are not part of the program.  They say, as plain
    functions, what the theorems state about the program: what the scan of
    [GetPrimaryEvents] gathers, what a set-up document looks like, and what
    each writer puts into it. *)

(** ** The scan of [GetPrimaryEvents] *)

(** The gates of a tree: the top gate and the intermediate ones. *)
Definition gate_of (t : FaultTree) (gate : Gate.t) : Prop :=
  top_event_ t = Some gate ∨ ∃ k, inter_events_ t !! k = Some gate.

(** A child that the scan takes for a leaf and cannot cast. *)
Definition undefined_leaf (inter : gmap string Gate.t) (it : string * Event) : bool :=
  negb (count inter it.1) && bool_decide (dynamic_pointer_cast_PrimaryEvent it.2 = None).

Definition undefined_gate (inter : gmap string Gate.t) (gate : Gate.t) : bool :=
  existsb (undefined_leaf inter) (map_to_list (Gate.children gate)).

(** The tree has such a child, in its top gate or in an intermediate gate. *)
Definition undefined_tree (t : FaultTree) : bool :=
  from_option (undefined_gate (inter_events_ t)) false (top_event_ t)
  || existsb (λ git, undefined_gate (inter_events_ t) git.2)
             (map_to_list (inter_events_ t)).

(** What one child, and all the children of one gate, add to the
    primary-event mapping. *)
Definition gather_child (inter : gmap string Gate.t)
    (prim : gmap string PrimaryEvent) (it : string * Event) : gmap string PrimaryEvent :=
  if count inter it.1 then prim
  else match dynamic_pointer_cast_PrimaryEvent it.2 with
       | Some pe => map_insert it.1 pe prim
       | None => prim
       end.

Definition gather_gate (inter : gmap string Gate.t)
    (prim : gmap string PrimaryEvent) (gate : Gate.t) : gmap string PrimaryEvent :=
  foldl (gather_child inter) prim (map_to_list (Gate.children gate)).

(** ** Documents *)

(** [replace root q n]: the document with the node at [q] replaced by [n]. *)
Definition replace (root : Node) (q : list nat) (n : Node) : Node :=
  update_node (λ _, n) root q.

Fixpoint get_attribute (name : string) (ats : list (string * string)) : option string :=
  match ats with
  | [] => None
  | (k, v) :: ats' => if bool_decide (k = name) then Some v else get_attribute name ats'
  end.

Definition node_attribute (name : string) (n : Node) : option string :=
  match n with
  | Element _ ats _ => get_attribute name ats
  | TextNode _ => None
  end.

Definition node_children (n : Node) : list Node :=
  match n with
  | Element _ _ cs => cs
  | TextNode _ => []
  end.

Definition children_named (name : string) (cs : list Node) : list Node :=
  List.filter (is_element_named name) cs.

(** The document as [SetupReport] leaves it and the writers keep it: a root
    with the information section and the results section. *)
Definition report (information results : list Node) : Node :=
  Element "report" []
    [Element "information" [] information; Element "results" [] results].

(** A set-up document whose performance log ends with a calculation-time
    entry, the one with attributes [cats] and children [ccs]. *)
Definition report_with_time (pre : list Node) (pats : list (string * string))
    (pcs : list Node) (cats : list (string * string)) (ccs : list Node)
    (post results : list Node) : Node :=
  report (pre ++ Element "performance" pats
                   (pcs ++ [Element "calculation-time" cats ccs]) :: post)
         results.

(** ** Member names *)

(** The text before the first separator. *)
Fixpoint first_token (pred : Ascii.ascii → bool) (s : string) : string :=
  match s with
  | EmptyString => EmptyString
  | String c s' => if pred c then EmptyString else String c (first_token pred s')
  end.

(** ** What the writers add *)

(** The warning child of a section, present when there is warning text. *)
Definition warning_nodes (warning : string) : list Node :=
  if bool_decide (warning ≠ EmptyString) then [Element "warning" [] [TextNode warning]] else [].

(** The text of the warning of [ReportOrphans]: the heading, then each
    orphan's [orig_id()] followed by a blank. *)
Definition orphans_warning (orphans : list PrimaryEvent) : string :=
  "WARNING! Found unused primary events: "
  +:+ foldr (λ it rest, (PrimaryEvent_orig_id it +:+ " ") +:+ rest) EmptyString orphans.

Section sections.
Context `{Env}.

(** The quantile entry numbered [k + 1], between two successive pairs of
    the sample. *)
Definition quantile_entry (k : nat) (bounds : (double * double) * (double * double))
    : Node :=
  Element "quantile"
    [("number", lexical_cast (Z.of_nat k + 1));
     ("mean", lexical_cast_double bounds.2.2);
     ("lower-bound", lexical_cast_double bounds.1.1);
     ("upper-bound", lexical_cast_double bounds.2.1)] [].

(** One entry for each pair of successive pairs of the sample. *)
Definition quantile_entries (sample : list (double * double)) : list Node :=
  imap quantile_entry (zip sample (tail sample)).

(** The number of bins as the [int num_bins] of [ReportUncertainty] holds
    it. *)
Definition quantile_count (sample : list (double * double)) : Z :=
  to_int (size_t_sub (size sample) 1).

(** The node that one round of the quantile loop appends, if the round
    gets through its three [distribution()[...]] reads. *)
Definition quantile_round (sample : list (double * double)) (i : Z) : option Node :=
  lo ← sample !! Z.to_nat i;
  up ← sample !! Z.to_nat (i + 1);
  Some (quantile_entry (Z.to_nat i) (lo, up)).

Definition measure_section (ft_name : string) (ua : UncertaintyAnalysis.t) : Node :=
  Element "measure" [("name", ft_name)]
    (warning_nodes (UncertaintyAnalysis.warnings ua)
     ++ [Element "mean"
           [("value", lexical_cast_double (UncertaintyAnalysis.mean ua))] [];
         Element "standard-deviation"
           [("value", lexical_cast_double (UncertaintyAnalysis.sigma ua))] [];
         Element "confidence-range"
           [("percentage", "95");
            ("lower-bound",
             lexical_cast_double (UncertaintyAnalysis.confidence_interval ua).1);
            ("upper-bound",
             lexical_cast_double (UncertaintyAnalysis.confidence_interval ua).2)] [];
         Element "quantiles"
           [("number",
             lexical_cast (quantile_count (UncertaintyAnalysis.distribution ua)))]
           (take (Z.to_nat (quantile_count (UncertaintyAnalysis.distribution ua)))
                 (quantile_entries (UncertaintyAnalysis.distribution ua)))]).

(** The node that one round of the loop of [ReportImportance] appends, if
    the round gets through its reads. *)
Definition importance_round (pa : ProbabilityAnalysis.t)
    (it : string * list double) : option Node :=
  be ← ProbabilityAnalysis.basic_events_ pa !! it.1;
  dif ← it.2 !! 0%nat;
  mif ← it.2 !! 1%nat;
  cif ← it.2 !! 2%nat;
  rrw ← it.2 !! 3%nat;
  raw ← it.2 !! 4%nat;
  Some (Element "basic-event"
          [("name", BasicEvent_orig_id be);
           ("DIF", lexical_cast_double dif);
           ("MIF", lexical_cast_double mif);
           ("CIF", lexical_cast_double cif);
           ("RRW", lexical_cast_double rrw);
           ("RAW", lexical_cast_double raw)] []).

Definition importance_section (ft_name : string) (pa : ProbabilityAnalysis.t)
    (entries : list Node) : Node :=
  Element "importance"
    [("name", ft_name);
     ("basic-events", lexical_cast (size (ProbabilityAnalysis.importance pa)))]
    (warning_nodes (ProbabilityAnalysis.warnings pa) ++ entries).

(** The entry of a basic event in a product: a CCF event with its group,
    the number of members it stands for, the size of the group and one
    child for each member; any other basic event with its [orig_id()]. *)
Definition event_entry (be : BasicEvent) : Node :=
  match dynamic_pointer_cast_CcfEvent be with
  | Some ccf =>
      Element "ccf-event"
        [("ccf-group", ccf_group_name ccf);
         ("order", lexical_cast (size (member_names ccf)));
         ("group-size", lexical_cast (ccf_group_size ccf))]
        ((λ it, Element "basic-event" [("name", it)] []) <$> member_names ccf)
  | None => Element "basic-event" [("name", BasicEvent_orig_id be)] []
  end.

(** The node that one round of the member loop of [ReportFta] appends to
    the product, if the round finds its basic event. *)
Definition member_round (fta : FaultTreeAnalysis.t) (full_name : string)
    : option Node :=
  names_0 ← boost_split full_name (is_any_of " ") !! 0%nat;
  if bool_decide (names_0 = "not") then
    be ← FaultTreeAnalysis.basic_events_ fta !! replace_first full_name "not " EmptyString;
    Some (Element "not" [] [event_entry be])
  else
    be ← FaultTreeAnalysis.basic_events_ fta !! full_name;
    Some (event_entry be).

(** The attribute that a probability analysis adds. *)
Definition probability_attribute (p : option double) : list (string * string) :=
  match p with
  | Some p => [("probability", lexical_cast_double p)]
  | None => []
  end.

(** The product of one minimal cut set, if the probability of the cut set
    and the basic events of its members are found. *)
Definition product_round (fta : FaultTreeAnalysis.t)
    (prob_analysis : option ProbabilityAnalysis.t) (it_min : list string)
    : option Node :=
  p ← match prob_analysis with
      | Some pa => Some <$> ProbabilityAnalysis.prob_of_min_sets pa !! it_min
      | None => Some None
      end;
  members ← mapM (member_round fta) it_min;
  Some (Element "product"
          (("order", lexical_cast (size it_min)) :: probability_attribute p)
          members).

(** The warning text: that of the cut set analysis, then that of the
    probability analysis if there is one. *)
Definition fta_warning (fta : FaultTreeAnalysis.t)
    (prob_analysis : option ProbabilityAnalysis.t) : string :=
  match prob_analysis with
  | Some pa => FaultTreeAnalysis.warnings fta +:+ ProbabilityAnalysis.warnings pa
  | None => FaultTreeAnalysis.warnings fta
  end.

Definition sum_of_products_section (ft_name : string) (fta : FaultTreeAnalysis.t)
    (prob_analysis : option ProbabilityAnalysis.t) (products : list Node) : Node :=
  Element "sum-of-products"
    ([("name", ft_name);
      ("basic-events", lexical_cast (FaultTreeAnalysis.num_basic_events_ fta));
      ("products", lexical_cast (size (FaultTreeAnalysis.min_cut_sets_ fta)))]
     ++ probability_attribute (ProbabilityAnalysis.p_total <$> prob_analysis))
    (warning_nodes (fta_warning fta prob_analysis) ++ products).

(** The children of the calculation-time entry that [ReportFta] adds to
    the performance log. *)
Definition calculation_times (fta : FaultTreeAnalysis.t)
    (prob_analysis : option ProbabilityAnalysis.t) : list Node :=
  Element "minimal-cut-set" []
    [TextNode (lexical_cast_double (FaultTreeAnalysis.analysis_time_ fta))]
  :: match prob_analysis with
     | Some pa =>
         [Element "probability" []
            [TextNode (lexical_cast_double (ProbabilityAnalysis.p_time_ pa))]]
     | None => []
     end.
End sections.

(** ** The gates registered *)

(** The first gate of a list with a given identifier. *)
Definition first_gate (k : string) (gs : list Gate.t) : option Gate.t :=
  List.find (λ g, bool_decide (Gate.id g = k)) gs.

(** What every series of [AddGate] calls on a new tree keeps; [seen] are
    the gates of the calls so far. *)
Definition registry_ok (seen : list Gate.t) (t : FaultTree) : Prop :=
  lock_ t = false
  ∧ primary_events_ t = ∅
  ∧ (top_event_ t = None → seen = [] ∧ top_event_id_ t = EmptyString)
  ∧ (top_event_id_ t = EmptyString → inter_events_ t = ∅)
  ∧ (∀ g, top_event_ t = Some g → Gate.id g = top_event_id_ t ∧ g ∈ seen)
  ∧ inter_events_ t !! top_event_id_ t = None
  ∧ (∀ k g, inter_events_ t !! k = Some g → Gate.id g = k ∧ g ∈ seen).

(** ** The information section of [SetupReport] *)

(** An entry with one text child. *)
Definition text_entry (name content : string) : Node :=
  Element name [] [TextNode content].

Definition calculated_quantity (name definition : string)
    (more : list (string * string)) : Node :=
  Element "calculated-quantity" ([("name", name); ("definition", definition)] ++ more) [].

Definition calculation_method (name : string) (limits : list Node) : Node :=
  Element "calculation-method" [("name", name)] [Element "limits" [] limits].

Section setup_sections.
Context `{Env}.

(** The children before the performance log. *)
Definition setup_pre (now : string) : list Node :=
  [Element "software" [("name", "SCRAM"); ("version", version_core)] [];
   text_entry "time" now].

Definition calculation_methods (settings : Settings.t) : list Node :=
  [calculation_method "MOCUS"
     [text_entry "number-of-basic-events" (lexical_cast (Settings.limit_order_ settings))]]
  ++ (if Settings.probability_analysis_ settings then
        [calculation_method "Numerical Probability"
           [text_entry "cut-off" (lexical_cast_double (Settings.cut_off_ settings));
            text_entry "number-of-sums" (lexical_cast (Settings.num_sums_ settings))]]
      else [])
  ++ (if Settings.uncertainty_analysis_ settings then
        [calculation_method "Monte Carlo"
           [text_entry "number-of-trials" (lexical_cast (Settings.trials_ settings))]]
      else []).

Definition model_features (risk_an : RiskAnalysis.t) : Node :=
  Element "model-features" []
    [text_entry "gates" (lexical_cast (Z.of_nat (RiskAnalysis.gates_ risk_an)));
     text_entry "basic-events"
       (lexical_cast (Z.of_nat (RiskAnalysis.basic_events_ risk_an)));
     text_entry "house-events"
       (lexical_cast (size_t_sub (Z.of_nat (RiskAnalysis.primary_events_ risk_an))
                                 (Z.of_nat (RiskAnalysis.basic_events_ risk_an))));
     text_entry "ccf-groups"
       (lexical_cast (Z.of_nat (RiskAnalysis.ccf_groups_ risk_an)));
     text_entry "fault-trees"
       (lexical_cast (Z.of_nat (RiskAnalysis.fault_trees_ risk_an)))].

(** The children after the performance log. *)
Definition setup_post (risk_an : RiskAnalysis.t) (settings : Settings.t) : list Node :=
  [calculated_quantity "Minimal Cut Set Analysis"
     "Groups of events sufficient for a top event failure" [];
   calculation_method "MOCUS"
     [text_entry "number-of-basic-events" (lexical_cast (Settings.limit_order_ settings))]]
  ++ (if Settings.ccf_analysis_ settings then
        [calculated_quantity "CCF Analysis"
           "Failure of multiple elements due to a common cause" []]
      else [])
  ++ (if Settings.probability_analysis_ settings then
        [calculated_quantity "Probability Analysis"
           "Quantitative analysis of failure probability"
           [("approximation", Settings.approx_ settings)];
         calculation_method "Numerical Probability"
           [text_entry "cut-off" (lexical_cast_double (Settings.cut_off_ settings));
            text_entry "number-of-sums" (lexical_cast (Settings.num_sums_ settings))]]
      else [])
  ++ (if Settings.importance_analysis_ settings then
        [calculated_quantity "Importance Analysis"
           "Quantitative analysis of contributions and importance of events." []]
      else [])
  ++ (if Settings.uncertainty_analysis_ settings then
        [calculated_quantity "Uncertainty Analysis"
           "Calculation of uncertainties with the Monte Carlo method" [];
         calculation_method "Monte Carlo"
           [text_entry "number-of-trials" (lexical_cast (Settings.trials_ settings))]]
      else [])
  ++ [model_features risk_an].

Definition setup_information (risk_an : RiskAnalysis.t) (settings : Settings.t)
    (now : string) : list Node :=
  setup_pre now ++ Element "performance" [] [] :: setup_post risk_an settings.
End setup_sections.

(** * Examples *)

(** ** Trees *)

Definition ex_top : Gate.t :=
  Gate.mk "top" {[ "a" := Primary (Basic (PlainBasicEvent "a" "A"));
                   "g1" := GateRef "g1" ]}.
Definition ex_g1 : Gate.t :=
  Gate.mk "g1" {[ "b" := Primary (HouseEvent "b" "B");
                  "a" := Primary (Basic (PlainBasicEvent "a" "A")) ]}.
Definition ex_g2 : Gate.t :=
  Gate.mk "g2" {[ "c" := Primary (Basic (PlainBasicEvent "c" "C")) ]}.
(** A gate with a child that is a gate no [AddGate] call registers. *)
Definition ex_open : Gate.t := Gate.mk "top" {[ "x" := GateRef "x" ]}.
(** A gate with a primary event that carries the gate's own identifier. *)
Definition ex_self : Gate.t :=
  Gate.mk "top" {[ "top" := Primary (Basic (PlainBasicEvent "top" "top")) ]}.
(** A gate with the empty identifier. *)
Definition ex_anon : Gate.t := Gate.mk EmptyString ∅.

(** ** Reports *)

(** For the examples a [double] is an integer, written in decimal. *)
Definition example_env : Env :=
  {| double := Z; lexical_cast_double := pretty; version_core := "0.1.0" |}.

Definition example_settings : @Settings.t example_env :=
  @Settings.mk example_env 20 false false "no" 0%Z 7 false false 1000.

Definition example_risk_an : RiskAnalysis.t := RiskAnalysis.mk 1 2 3 1 1.

(** The document after [SetupReport]. *)
Definition example_document : Document := Eval vm_compute in
  (Reporter.SetupReport example_risk_an example_settings
     "2014-Oct-01 12:00:00" None).2.

(** The information section of [example_document] before and after its
    performance log. *)
Definition example_pre : list Node := Eval vm_compute in
  take 2 (from_option (λ r, from_option node_children []
                              (head (node_children r))) [] example_document).

Definition example_post : list Node := Eval vm_compute in
  drop 3 (from_option (λ r, from_option node_children []
                              (head (node_children r))) [] example_document).

Definition example_basic_events : gmap string BasicEvent :=
  {[ "A" := PlainBasicEvent "A" "A";
     "B" := CcfEvent "B" "[B1 B2]" (mkCcfData "G" ["B1"; "B2"] 3) ]}.

(** One cut set, of "A" and "not B". *)
Definition example_fta : @FaultTreeAnalysis.t example_env :=
  @FaultTreeAnalysis.mk example_env 3 [["A"; "not B"]] EmptyString example_basic_events 5%Z.

Definition example_product : Node :=
  Element "product" [("order", "2")]
    [Element "basic-event" [("name", "A")] [];
     Element "not" []
       [Element "ccf-event" [("ccf-group", "G"); ("order", "2"); ("group-size", "3")]
          [Element "basic-event" [("name", "B1")] [];
           Element "basic-event" [("name", "B2")] []]]].

(** A second tree, with one cut set of one member. *)
Definition example_fta_b : @FaultTreeAnalysis.t example_env :=
  @FaultTreeAnalysis.mk example_env 1 [["A"]] EmptyString example_basic_events 6%Z.

Definition example_pa : @ProbabilityAnalysis.t example_env :=
  @ProbabilityAnalysis.mk example_env 1%Z EmptyString ∅ example_basic_events
    [("A", [1; 2; 3; 4; 5]%Z)] 3%Z 4%Z.

(** A sample of length 5. *)
Definition example_ua : @UncertaintyAnalysis.t example_env :=
  @UncertaintyAnalysis.mk example_env EmptyString 1%Z 2%Z (3, 4)%Z
    [(0, 0); (1, 10); (2, 20); (3, 30); (4, 40)]%Z 9%Z.

Definition example_orphans : list PrimaryEvent :=
  [HouseEvent "h" "H"; Basic (PlainBasicEvent "c" "C")].

(** ** More examples *)

(** A second gate with the identifier of [ex_g1]. *)
Definition ex_g1_again : Gate.t := Gate.mk "g1" ∅.

(** A model with more basic events than primary events. *)
Definition example_risk_an_wrap : RiskAnalysis.t := RiskAnalysis.mk 1 2 1 0 1.

(** An importance entry with four factors instead of five. *)
Definition example_pa_short : @ProbabilityAnalysis.t example_env :=
  @ProbabilityAnalysis.mk example_env 1%Z EmptyString ∅ example_basic_events
    [("A", [1; 2; 3; 4]%Z)] 3%Z 4%Z.

(** A cut set with a member "C" that has no basic event. *)
Definition example_fta_missing : @FaultTreeAnalysis.t example_env :=
  @FaultTreeAnalysis.mk example_env 2 [["A"; "C"]] EmptyString example_basic_events 5%Z.

(** A cut set analysis with a warning. *)
Definition example_fta_warning : @FaultTreeAnalysis.t example_env :=
  @FaultTreeAnalysis.mk example_env 1 [["A"]] "No top event probability. "
    example_basic_events 6%Z.

(** An uncertainty analysis with an empty distribution. *)
Definition example_ua_empty : @UncertaintyAnalysis.t example_env :=
  @UncertaintyAnalysis.mk example_env EmptyString 1%Z 2%Z (3, 4)%Z [] 9%Z.

(** * Properties of [FaultTree] *)

Ltac run_monad :=
  repeat (unfold mbind, M_bind, mret, M_ret, gets, modify, throw, fail; simpl).

Lemma AddGate_unfold gate t :
  AddGate gate t =
    if lock_ t then
      (Fail (Thrown (Error "The tree is locked. No change is allowed.")), t)
    else if bool_decide (top_event_id_ t = EmptyString) then
      (Val tt, set_top_event_id_ (Gate.id gate) (set_top_event_ gate t))
    else if count (inter_events_ t) (Gate.id gate)
            || bool_decide (Gate.id gate = top_event_id_ t) then
      (Fail (Thrown (ValueError "Trying to doubly define a gate")), t)
    else
      (Val tt, set_inter_events_
                 (map_insert (Gate.id gate) gate (inter_events_ t)) t).
Proof.
  unfold AddGate, mbind, M_bind, gets, throw, fail, modify; simpl.
  destruct (lock_ t); [done|].
  destruct (bool_decide (top_event_id_ t = EmptyString)); [done|].
  by destruct (count _ _ || _).
Qed.

Lemma count_true {V} (m : gmap string V) k : count m k = true ↔ is_Some (m !! k).
Proof. unfold count. by rewrite bool_decide_eq_true. Qed.

Lemma count_false {V} (m : gmap string V) k : count m k = false ↔ m !! k = None.
Proof.
  unfold count. rewrite bool_decide_eq_false.
  symmetry. apply eq_None_not_Some.
Qed.

Lemma map_insert_fresh {V} k (v : V) m : m !! k = None → map_insert k v m = <[k:=v]> m.
Proof. unfold map_insert. by intros ->. Qed.

Lemma dom_map_insert {V} k (v : V) (m : gmap string V) :
  dom (map_insert k v m) = {[k]} ∪ dom m.
Proof.
  unfold map_insert. destruct (m !! k) eqn:E.
  - apply elem_of_dom_2 in E. apply set_eq. intros x.
    rewrite elem_of_union, elem_of_singleton. split; [by right|].
    by intros [->|?].
  - by rewrite dom_insert_L.
Qed.

Lemma set_primary_events_id t : set_primary_events_ (primary_events_ t) t = t.
Proof. by destruct t. Qed.

Lemma for_each_cons {S A} (x : A) l (body : A → M S unit) s :
  for_each (x :: l) body s =
    match body x s with
    | (Val _, s') => for_each l body s'
    | (Fail e, s') => (Fail e, s')
    end.
Proof. reflexivity. Qed.

Lemma scan_children (l : list (string * Event)) t :
  let body := λ it : string * Event,
    inter ← gets inter_events_;
    if negb (count inter it.1) then
      match dynamic_pointer_cast_PrimaryEvent it.2 with
      | None => fail AssertionFailed
      | Some pe =>
          modify (λ t, set_primary_events_ (map_insert it.1 pe (primary_events_ t)) t)
      end
    else mret tt in
  if existsb (undefined_leaf (inter_events_ t)) l
  then (for_each l body t).1 = Fail AssertionFailed
  else for_each l body t =
         (Val tt, set_primary_events_
                    (foldl (gather_child (inter_events_ t)) (primary_events_ t) l) t).
Proof.
  intros body. revert t. induction l as [|[k e] l IH]; intros t.
  - simpl. unfold mret, M_ret. by rewrite set_primary_events_id.
  - assert (body (k, e) t =
            if count (inter_events_ t) k then (Val tt, t)
            else match dynamic_pointer_cast_PrimaryEvent e with
                 | Some pe => (Val tt, set_primary_events_
                                         (map_insert k pe (primary_events_ t)) t)
                 | None => (Fail AssertionFailed, t)
                 end) as Hb.
    { unfold body. run_monad. destruct (count _ _); simpl; [done|].
      by destruct (dynamic_pointer_cast_PrimaryEvent e). }
    rewrite for_each_cons, Hb. simpl.
    unfold undefined_leaf at 1, gather_child at 2; simpl.
    destruct (count (inter_events_ t) k) eqn:Hc; simpl.
    + apply IH.
    + destruct (dynamic_pointer_cast_PrimaryEvent e) as [pe|]; simpl; [|done].
      specialize (IH (set_primary_events_ (map_insert k pe (primary_events_ t)) t)).
      simpl in IH. destruct (existsb _ l); [done|].
      rewrite IH. by destruct t.
Qed.

Lemma GetPrimaryEvents_spec gate t :
  if undefined_gate (inter_events_ t) gate
  then (GetPrimaryEvents gate t).1 = Fail AssertionFailed
  else GetPrimaryEvents gate t =
         (Val tt, set_primary_events_
                    (gather_gate (inter_events_ t) (primary_events_ t) gate) t).
Proof. apply scan_children. Qed.

Lemma scan_gates (l : list (string * Gate.t)) t :
  if existsb (λ git, undefined_gate (inter_events_ t) git.2) l
  then (for_each l (λ git, GetPrimaryEvents git.2) t).1 = Fail AssertionFailed
  else for_each l (λ git, GetPrimaryEvents git.2) t =
         (Val tt, set_primary_events_
                    (foldl (λ prim git, gather_gate (inter_events_ t) prim git.2)
                           (primary_events_ t) l) t).
Proof.
  revert t. induction l as [|[k g] l IH]; intros t; simpl.
  - unfold mret, M_ret. by rewrite set_primary_events_id.
  - unfold mbind, M_bind.
    pose proof (GetPrimaryEvents_spec g t) as Hg.
    destruct (undefined_gate (inter_events_ t) g); simpl.
    + destruct (GetPrimaryEvents g t) as [[]?]; simpl in *; congruence.
    + rewrite Hg.
      specialize (IH (set_primary_events_
                        (gather_gate (inter_events_ t) (primary_events_ t) g) t)).
      simpl in IH. destruct (existsb _ l); [done|].
      rewrite IH. by destruct t.
Qed.

(** Whether some entry has a property does not depend on the order. *)
Lemma existsb_Permutation {A} (f : A → bool) (l l' : list A) :
  l ≡ₚ l' → existsb f l = existsb f l'.
Proof.
  induction 1 as [|x l l' _ IH|x y l|l l' l'' _ IH1 _ IH2]; simpl.
  - done.
  - by rewrite IH.
  - by destruct (f x), (f y).
  - by rewrite IH1.
Qed.

Lemma iteration_elem_of m order k g :
  iteration m order → (k, g) ∈ order ↔ m !! k = Some g.
Proof.
  unfold iteration. intros ->. apply elem_of_map_to_list.
Qed.

Lemma GatherPrimaryEvents_spec t top order :
  top_event_ t = Some top →
  iteration (inter_events_ t) order →
  if undefined_gate (inter_events_ t) top
     || existsb (λ git, undefined_gate (inter_events_ t) git.2)
                (map_to_list (inter_events_ t))
  then (GatherPrimaryEvents order t).1 = Fail AssertionFailed
  else GatherPrimaryEvents order t =
         (Val tt,
          set_primary_events_
            (foldl (λ prim git, gather_gate (inter_events_ t) prim git.2)
                   (gather_gate (inter_events_ t) (primary_events_ t) top)
                   order)
            (set_lock_ true t)).
Proof.
  intros Htop Horder.
  rewrite <-(existsb_Permutation _ _ _ Horder).
  unfold GatherPrimaryEvents, mbind, M_bind, modify, gets; simpl.
  rewrite Htop.
  pose proof (GetPrimaryEvents_spec top (set_lock_ true t)) as Hg. simpl in Hg.
  destruct (undefined_gate (inter_events_ t) top); simpl.
  - destruct (GetPrimaryEvents top (set_lock_ true t)) as [[]?]; simpl in *; congruence.
  - rewrite Hg; simpl.
    pose proof (scan_gates order
      (set_primary_events_
         (gather_gate (inter_events_ t) (primary_events_ t) top) (set_lock_ true t)))
      as Hs.
    simpl in Hs. destruct (existsb _ _); [done|]. by rewrite Hs.
Qed.

Lemma gather_children_lookup inter (l : list (string * Event)) prim id :
  existsb (undefined_leaf inter) l = false →
  is_Some (foldl (gather_child inter) prim l !! id) ↔
    is_Some (prim !! id) ∨ (inter !! id = None ∧ ∃ e, (id, e) ∈ l).
Proof.
  revert prim. induction l as [|[k e] l IH]; intros prim Hok; simpl.
  - split; [by left|]. intros [?|(_ & e & He)]; [done|]. by apply elem_of_nil in He.
  - simpl in Hok. apply orb_false_iff in Hok as [Hke Hok].
    rewrite (IH _ Hok). unfold gather_child, undefined_leaf in *; simpl in *.
    destruct (count inter k) eqn:Hc; simpl in *.
    + apply count_true in Hc. split.
      * intros [?|(Hn & e' & He')]; [by left|]. right. split; [done|].
        exists e'. by right.
      * intros [?|(Hn & e' & He')]; [by left|]. right. split; [done|].
        exists e'. apply elem_of_cons in He' as [[= -> ->]|?]; [|done].
        rewrite Hn in Hc. by destruct Hc.
    + apply count_false in Hc.
      destruct (dynamic_pointer_cast_PrimaryEvent e) as [pe|]; [|done].
      rewrite <-!elem_of_dom, dom_map_insert, elem_of_union, elem_of_singleton.
      split.
      * intros [[->|?]|(Hn & e' & He')].
        -- right. split; [done|]. exists e. by left.
        -- by left.
        -- right. split; [done|]. exists e'. by right.
      * intros [?|(Hn & e' & He')]; [left; by right|].
        apply elem_of_cons in He' as [[= -> ->]|?]; [left; by left|].
        right. split; [done|]. by exists e'.
Qed.

Lemma gather_gate_lookup inter prim gate id :
  undefined_gate inter gate = false →
  is_Some (gather_gate inter prim gate !! id) ↔
    is_Some (prim !! id) ∨ (inter !! id = None ∧ is_Some (Gate.children gate !! id)).
Proof.
  intros Hok. unfold gather_gate. rewrite gather_children_lookup by done.
  apply or_iff_compat_l, and_iff_compat_l. split.
  - intros [e He]. exists e. by apply elem_of_map_to_list in He.
  - intros [e He]. exists e. by apply elem_of_map_to_list.
Qed.

Lemma gather_gates_lookup inter (l : list (string * Gate.t)) prim id :
  existsb (λ git, undefined_gate inter git.2) l = false →
  is_Some (foldl (λ prim git, gather_gate inter prim git.2) prim l !! id) ↔
    is_Some (prim !! id)
    ∨ (inter !! id = None ∧ ∃ git, git ∈ l ∧ is_Some (Gate.children git.2 !! id)).
Proof.
  revert prim. induction l as [|[k g] l IH]; intros prim Hok; simpl.
  - split; [by left|]. intros [?|(_ & git & He & _)]; [done|]. by apply elem_of_nil in He.
  - simpl in Hok. apply orb_false_iff in Hok as [Hg Hok].
    rewrite (IH _ Hok), gather_gate_lookup by done. split.
    + intros [[?|[Hn Hc]]|(Hn & git & Hin & Hc)]; [by left|right..]; (split; [done|]).
      * exists (k, g). split; [by left|done].
      * exists git. split; [by right|done].
    + intros [?|(Hn & git & Hin & Hc)]; [left; by left|].
      apply elem_of_cons in Hin as [->|Hin]; [left; right; by split|].
      right. split; [done|]. by exists git.
Qed.

Lemma AddGate_primary_events_ gate t :
  primary_events_ (AddGate gate t).2 = primary_events_ t.
Proof. rewrite AddGate_unfold. by repeat case_match. Qed.

Lemma AddGates_primary_events_ gates t :
  primary_events_ (AddGates gates t) = primary_events_ t.
Proof.
  revert t. induction gates as [|g gs IH]; intros t; [done|].
  unfold AddGates in *; simpl. by rewrite IH, AddGate_primary_events_.
Qed.

Lemma GatherPrimaryEvents_None order t :
  top_event_ t = None → (GatherPrimaryEvents order t).1 = Fail UndefinedBehaviour.
Proof. intros Htop. unfold GatherPrimaryEvents. run_monad. by rewrite Htop. Qed.

(** ** C2 *)

Lemma undefined_gate_true inter gate id e :
  Gate.children gate !! id = Some e → inter !! id = None →
  dynamic_pointer_cast_PrimaryEvent e = None →
  undefined_gate inter gate = true.
Proof.
  intros Hc Hn He. unfold undefined_gate. apply existsb_exists.
  exists (id, e). split.
  - apply list_elem_of_In. by apply elem_of_map_to_list.
  - unfold undefined_leaf; simpl. apply count_false in Hn. rewrite Hn, He. done.
Qed.

Lemma undefined_tree_false t :
  undefined_tree t = false →
  ∀ gate id e,
    gate_of t gate → Gate.children gate !! id = Some e →
    inter_events_ t !! id = None →
    is_Some (dynamic_pointer_cast_PrimaryEvent e).
Proof.
  unfold undefined_tree. intros [Htop Hinter]%orb_false_iff gate id e Hgate Hc Hn.
  destruct (dynamic_pointer_cast_PrimaryEvent e) as [pe|] eqn:He; [by eexists|].
  pose proof (undefined_gate_true _ _ _ _ Hc Hn He) as Hbad.
  destruct Hgate as [Hg|[k Hk]].
  - rewrite Hg in Htop. simpl in Htop. congruence.
  - assert (existsb (λ git, undefined_gate (inter_events_ t) git.2)
                    (map_to_list (inter_events_ t)) = true) as Hex; [|congruence].
    apply existsb_exists. exists (k, gate). split; [|done].
    apply list_elem_of_In. by apply elem_of_map_to_list.
Qed.

Lemma undefined_gate_inv inter gate :
  undefined_gate inter gate = true →
  ∃ id e, Gate.children gate !! id = Some e ∧ inter !! id = None
          ∧ dynamic_pointer_cast_PrimaryEvent e = None.
Proof.
  unfold undefined_gate. intros ([id e] & Hin & Hbad)%existsb_exists.
  apply list_elem_of_In, elem_of_map_to_list in Hin.
  unfold undefined_leaf in Hbad; simpl in Hbad.
  apply andb_true_iff in Hbad as [Hc He].
  apply negb_true_iff, count_false in Hc. apply bool_decide_eq_true in He.
  by exists id, e.
Qed.

Lemma AddGate_top_event_ gate t :
  is_Some (top_event_ t) ∨ (lock_ t = false ∧ top_event_id_ t = EmptyString) →
  is_Some (top_event_ (AddGate gate t).2).
Proof.
  rewrite AddGate_unfold. intros [Htop|[-> ->]]; [|by eexists].
  by repeat case_match.
Qed.

Lemma AddGates_cons g gs t : AddGates (g :: gs) t = AddGates gs (AddGate g t).2.
Proof. reflexivity. Qed.

Lemma AddGates_top_event_ gates t :
  is_Some (top_event_ t) → is_Some (top_event_ (AddGates gates t)).
Proof.
  revert t. induction gates as [|g gs IH]; intros t Htop; [done|].
  rewrite AddGates_cons. apply IH, AddGate_top_event_. by left.
Qed.

(** C2 (as the code has it).  A tree is built by one or more [AddGate]
    calls on a new tree, and every child of its top gate and of its
    intermediate gates whose identifier is not a key of the
    intermediate-gate mapping is a primary event.  Then
    [GatherPrimaryEvents] returns, in whatever order its loop goes through
    the intermediate gates, and the primary-event mapping holds
    exactly the child identifiers of the top gate and of the intermediate
    gates that are not keys of the intermediate-gate mapping; the top gate's
    own identifier is not excluded.  The gates, the top gate and its
    identifier are as before, and the tree is locked. *)
Theorem GatherPrimaryEvents_exact name gates order :
  let t := AddGates gates (FaultTree_new name) in
  gates ≠ [] →
  iteration (inter_events_ t) order →
  (∀ gate id e,
     gate_of t gate → Gate.children gate !! id = Some e →
     inter_events_ t !! id = None →
     is_Some (dynamic_pointer_cast_PrimaryEvent e)) →
  ∃ t',
    GatherPrimaryEvents order t = (Val tt, t')
    ∧ (∀ id, is_Some (primary_events_ t' !! id) ↔
               inter_events_ t !! id = None
               ∧ ∃ gate, gate_of t gate ∧ is_Some (Gate.children gate !! id))
    ∧ inter_events_ t' = inter_events_ t
    ∧ top_event_ t' = top_event_ t
    ∧ top_event_id_ t' = top_event_id_ t
    ∧ lock_ t' = true.
Proof.
  intros t Hgates Horder Hdefined.
  assert (is_Some (top_event_ t)) as [top Htop].
  { unfold t. destruct gates as [|g gs]; [done|].
    rewrite AddGates_cons. apply AddGates_top_event_, AddGate_top_event_. by right. }
  pose proof (GatherPrimaryEvents_spec t top order Htop Horder) as Hspec.
  destruct (_ || _) eqn:Hbad.
  { exfalso. apply orb_true_iff in Hbad as [Hbad|Hbad].
    - apply undefined_gate_inv in Hbad as (id & e & Hc & Hn & He).
      destruct (Hdefined top id e) as [pe Hpe]; [by left|done..|congruence].
    - apply existsb_exists in Hbad as ([k g] & Hin & Hbad).
      apply list_elem_of_In, elem_of_map_to_list in Hin.
      apply undefined_gate_inv in Hbad as (id & e & Hc & Hn & He).
      destruct (Hdefined g id e) as [pe Hpe]; [right; by exists k|done..|congruence]. }
  apply orb_false_iff in Hbad as [Htopok Hinterok].
  rewrite <-(existsb_Permutation _ _ _ Horder) in Hinterok.
  eexists. split; [exact Hspec|]. simpl.
  split; [|by rewrite Htop].
  intros id. rewrite gather_gates_lookup, gather_gate_lookup by done.
  assert (primary_events_ t = ∅) as ->.
  { unfold t. by rewrite AddGates_primary_events_. }
  rewrite lookup_empty. unfold gate_of. rewrite Htop. split.
  - intros [[[]%is_Some_None|[Hn Hc]]|(Hn & [k g] & Hin & Hc)]; (split; [done|]).
    + exists top. split; [by left|done].
    + exists g. split; [|done]. right. exists k.
      by apply (iteration_elem_of _ _ _ _ Horder) in Hin.
  - intros (Hn & g & [[= <-]|[k Hk]] & Hc); [left; right; by split|].
    right. split; [done|]. exists (k, g). split; [|done].
    by apply (iteration_elem_of _ _ _ _ Horder).
Qed.

(** ** A child that is neither a gate of the tree nor a primary event *)

(** X21.  In [GatherPrimaryEvents] on a tree with a top gate, in whatever
    order the loop goes through the intermediate gates, a child of the top
    gate or of an intermediate gate whose identifier is not a key of the
    intermediate-gate mapping and that is not a primary event makes the
    call end in the failed [assert(primary_event != 0)]: it does not
    return, and it throws none of the [scram::Error]s, so that no error
    object reaches the caller. *)
Theorem GatherPrimaryEvents_undefined_leaf t top order gate id e :
  top_event_ t = Some top →
  iteration (inter_events_ t) order →
  gate_of t gate →
  Gate.children gate !! id = Some e →
  inter_events_ t !! id = None →
  dynamic_pointer_cast_PrimaryEvent e = None →
  (GatherPrimaryEvents order t).1 = Fail AssertionFailed.
Proof.
  intros Htop Horder Hgate Hc Hn He.
  pose proof (GatherPrimaryEvents_spec t top order Htop Horder) as Hspec.
  assert (undefined_gate (inter_events_ t) gate = true) as Hbad
    by eauto using undefined_gate_true.
  destruct Hgate as [Hg|[k Hk]].
  - assert (gate = top) as -> by congruence. by rewrite Hbad in Hspec.
  - assert (existsb (λ git, undefined_gate (inter_events_ t) git.2)
                    (map_to_list (inter_events_ t)) = true) as Hex.
    { apply existsb_exists. exists (k, gate). split; [|done].
      apply list_elem_of_In. by apply elem_of_map_to_list. }
    by rewrite Hex, orb_true_r in Hspec.
Qed.

(** ** C8 *)

Lemma for_each_preserves {S A B} (f : S → B) (l : list A) (body : A → M S unit) :
  (∀ x s, f (body x s).2 = f s) → ∀ s, f (for_each l body s).2 = f s.
Proof.
  intros Hbody. induction l as [|x l IH]; intros s; [done|].
  rewrite for_each_cons. specialize (Hbody x s).
  destruct (body x s) as [[[]|?] s']; simpl in *; [|done].
  by rewrite IH.
Qed.

Lemma GetPrimaryEvents_lock_ gate t : lock_ (GetPrimaryEvents gate t).2 = lock_ t.
Proof.
  unfold GetPrimaryEvents. apply for_each_preserves. intros [k e] s.
  run_monad. by repeat case_match.
Qed.

Lemma GatherPrimaryEvents_lock_ order t : lock_ (GatherPrimaryEvents order t).2 = true.
Proof.
  unfold GatherPrimaryEvents. run_monad.
  destruct (top_event_ t) as [top|]; [|done].
  pose proof (GetPrimaryEvents_lock_ top (set_lock_ true t)) as Hl.
  destruct (GetPrimaryEvents top (set_lock_ true t)) as [[[]|?] t1]; simpl in *; [|done].
  rewrite <-Hl. apply (for_each_preserves lock_). intros. apply GetPrimaryEvents_lock_.
Qed.

(** C8.  After [GatherPrimaryEvents], however that call ended and in
    whatever order its loop went, [AddGate] throws the locked-tree [Error]
    for every gate, be its identifier new or already in use, and leaves the
    tree as it is. *)
Theorem AddGate_after_GatherPrimaryEvents order t gate :
  let t' := (GatherPrimaryEvents order t).2 in
  AddGate gate t' =
    (Fail (Thrown (Error "The tree is locked. No change is allowed.")), t').
Proof. intros t'. rewrite AddGate_unfold. unfold t'. by rewrite GatherPrimaryEvents_lock_. Qed.

(** ** C10 *)

(** C10.  When [AddGate] ends in a failure, the failure is the locked-tree
    [Error] or the duplicate-definition [ValueError], and the tree (top gate,
    top-gate identifier, both mappings, the lock and the rest) is the one
    before the call. *)
Theorem AddGate_failure_keeps_tree gate t f :
  (AddGate gate t).1 = Fail f →
  (AddGate gate t).2 = t
  ∧ (f = Thrown (Error "The tree is locked. No change is allowed.")
     ∨ f = Thrown (ValueError "Trying to doubly define a gate")).
Proof.
  rewrite AddGate_unfold. repeat case_match; simpl; intros [= <-]; auto.
Qed.

(** ** A series of [AddGate] calls *)

Lemma AddGates_with_top gs t :
  lock_ t = false → top_event_id_ t ≠ EmptyString →
  let t' := AddGates gs t in
  lock_ t' = false ∧ top_event_ t' = top_event_ t
  ∧ top_event_id_ t' = top_event_id_ t
  ∧ ∀ k g, inter_events_ t' !! k = Some g →
           inter_events_ t !! k = Some g
           ∨ (g ∈ gs ∧ Gate.id g = k ∧ k ≠ top_event_id_ t).
Proof.
  revert t. induction gs as [|g0 gs IH]; intros t Hl Hid; cbv zeta.
  { unfold AddGates; simpl. auto. }
  rewrite AddGates_cons.
  assert (lock_ (AddGate g0 t).2 = false
          ∧ top_event_ (AddGate g0 t).2 = top_event_ t
          ∧ top_event_id_ (AddGate g0 t).2 = top_event_id_ t
          ∧ ∀ k g, inter_events_ (AddGate g0 t).2 !! k = Some g →
                   inter_events_ t !! k = Some g
                   ∨ (g = g0 ∧ Gate.id g = k ∧ k ≠ top_event_id_ t))
    as (Hl1 & Htop1 & Hid1 & Hin1).
  { rewrite AddGate_unfold, Hl. rewrite bool_decide_eq_false_2 by done.
    destruct (count _ _ || _) eqn:Hdup; simpl; [auto|].
    apply orb_false_iff in Hdup as [Hc Hne].
    apply count_false in Hc. apply bool_decide_eq_false in Hne.
    repeat split; try done. intros k g. rewrite map_insert_fresh by done.
    rewrite lookup_insert. case_decide as Hk; [|auto].
    intros [= <-]. subst k. auto. }
  destruct (IH (AddGate g0 t).2) as (Hl2 & Htop2 & Hid2 & Hin2); [done|congruence|].
  rewrite Hl2, Htop2, Hid2, Htop1, Hid1. repeat split; try done.
  intros k g Hk. apply Hin2 in Hk as [Hk|(Hg & Hgk & Hne)].
  - apply Hin1 in Hk as [Hk|(-> & Hgk & Hne)]; [by left|].
    right. repeat split; [by left|done..].
  - right. repeat split; [by right|done|congruence].
Qed.

(** X20.  On a new tree the first [AddGate] makes its
    gate the top gate whatever the identifier.  When that identifier is not
    the empty string, which the tree reads as "no top gate yet", then after
    any further calls the top gate is still the first gate, the intermediate
    mapping holds only gates of those calls under their own identifiers, a
    gate whose identifier is neither the top gate's nor a key of the
    intermediate mapping is inserted under its identifier, and a gate whose
    identifier is the top gate's or such a key gets the duplicate-definition
    [ValueError] with the tree left as it is. *)
Theorem AddGate_sequence name g0 gs :
  let t0 := FaultTree_new name in
  AddGate g0 t0 =
    (Val tt, set_top_event_id_ (Gate.id g0) (set_top_event_ g0 t0))
  ∧ (Gate.id g0 ≠ EmptyString →
     let t := AddGates (g0 :: gs) t0 in
     top_event_ t = Some g0 ∧ top_event_id_ t = Gate.id g0
     ∧ (∀ k g, inter_events_ t !! k = Some g →
               g ∈ gs ∧ Gate.id g = k ∧ k ≠ Gate.id g0)
     ∧ ∀ g,
         (Gate.id g ≠ Gate.id g0 → inter_events_ t !! Gate.id g = None →
          AddGate g t =
            (Val tt, set_inter_events_ (<[Gate.id g := g]> (inter_events_ t)) t))
         ∧ (Gate.id g = Gate.id g0 ∨ is_Some (inter_events_ t !! Gate.id g) →
            AddGate g t =
              (Fail (Thrown (ValueError "Trying to doubly define a gate")), t))).
Proof.
  intros t0. split; [reflexivity|]. intros Hid t.
  pose proof (AddGates_with_top gs (AddGate g0 t0).2) as Hinv.
  rewrite <-AddGates_cons in Hinv. fold t in Hinv. simpl in Hinv.
  destruct (Hinv eq_refl Hid) as (Hl & Htop & Htid & Hin). clear Hinv.
  split; [done|]. split; [done|]. split; [|intros g; split].
  - intros k g Hk. apply Hin in Hk as [Hk|?]; [|done].
    by rewrite lookup_empty in Hk.
  - intros Hne Hn. rewrite AddGate_unfold, Hl, Htid.
    rewrite (bool_decide_eq_false_2 (Gate.id g0 = EmptyString)) by done.
    apply count_false in Hn as Hc. rewrite Hc.
    rewrite (bool_decide_eq_false_2 (Gate.id g = Gate.id g0)) by done.
    simpl. by rewrite map_insert_fresh.
  - intros Hdup. rewrite AddGate_unfold, Hl, Htid.
    rewrite (bool_decide_eq_false_2 (Gate.id g0 = EmptyString)) by done.
    destruct Hdup as [Heq|Hs].
    + rewrite (bool_decide_eq_true_2 _ Heq). by rewrite orb_true_r.
    + apply count_true in Hs. by rewrite Hs.
Qed.

(** ** What a series of [AddGate] calls keeps *)

Lemma AddGate_name_ gate t : name_ (AddGate gate t).2 = name_ t.
Proof. rewrite AddGate_unfold. by repeat case_match. Qed.

Lemma AddGate_warnings_ gate t : warnings_ (AddGate gate t).2 = warnings_ t.
Proof. rewrite AddGate_unfold. by repeat case_match. Qed.

Lemma AddGates_name_ gates t : name_ (AddGates gates t) = name_ t.
Proof.
  revert t. induction gates as [|g gs IH]; intros t; [done|].
  by rewrite AddGates_cons, IH, AddGate_name_.
Qed.

Lemma AddGates_warnings_ gates t : warnings_ (AddGates gates t) = warnings_ t.
Proof.
  revert t. induction gates as [|g gs IH]; intros t; [done|].
  by rewrite AddGates_cons, IH, AddGate_warnings_.
Qed.

Lemma AddGate_registry_ok seen g t :
  registry_ok seen t → registry_ok (seen ++ [g]) (AddGate g t).2.
Proof.
  intros (Hl & Hprim & Hnone & Hempty & Htop & Hid & Hin).
  rewrite AddGate_unfold, Hl. unfold registry_ok.
  case_bool_decide as Hfirst; simpl.
  { rewrite (Hempty Hfirst). split_and!; [done..| | |].
    - intros g' [= <-]. split; [done|]. apply elem_of_app. right. by left.
    - done.
    - intros k g'. by rewrite lookup_empty. }
  assert (∀ g', g' ∈ seen → g' ∈ seen ++ [g]) as Hseen
    by (intros; apply elem_of_app; by left).
  assert (top_event_ t ≠ None) as Hsome by (intros [_ ?]%Hnone; done).
  destruct (count _ _ || _) eqn:Hdup; simpl.
  { split_and!; [done..| | |].
    - intros g' Hg'. split; [|apply Hseen]; by apply Htop.
    - done.
    - intros k g' Hg'. split; [|apply Hseen]; by eapply Hin. }
  apply orb_false_iff in Hdup as [Hc Hne].
  apply count_false in Hc. apply bool_decide_eq_false in Hne.
  rewrite map_insert_fresh by done.
  split_and!; [done..| | |].
  - intros g' Hg'. split; [|apply Hseen]; by apply Htop.
  - by rewrite lookup_insert_ne.
  - intros k g' [[<- <-]|[_ Hg']]%lookup_insert_Some;
    [split; [done|]; apply elem_of_app; right; by left|].
    split; [|apply Hseen]; by eapply Hin.
Qed.

Lemma AddGates_registry_ok gs seen t :
  registry_ok seen t → registry_ok (seen ++ gs) (AddGates gs t).
Proof.
  revert seen t. induction gs as [|g gs IH]; intros seen t Hok.
  - by rewrite app_nil_r.
  - rewrite AddGates_cons, (assoc_L _ seen [g] gs : seen ++ g :: gs = (seen ++ [g]) ++ gs).
    by apply IH, AddGate_registry_ok.
Qed.

Lemma FaultTree_new_registry_ok name : registry_ok [] (FaultTree_new name).
Proof. by repeat split. Qed.

(** X1.  Whatever the gates and their identifiers, after a series of
    [AddGate] calls on a new tree, the caller going on after each exception,
    the tree is unlocked and has no primary events; it has a top gate just
    when there was a call; the top gate carries the top-gate identifier;
    that identifier is not a key of the intermediate mapping; every
    intermediate gate is kept under its own identifier; and the gates of
    the tree are gates of the calls. *)
Theorem AddGates_invariant name gates :
  let t := AddGates gates (FaultTree_new name) in
  lock_ t = false
  ∧ primary_events_ t = ∅
  ∧ (top_event_ t = None ↔ gates = [])
  ∧ (∀ g, top_event_ t = Some g → Gate.id g = top_event_id_ t ∧ g ∈ gates)
  ∧ inter_events_ t !! top_event_id_ t = None
  ∧ (∀ k g, inter_events_ t !! k = Some g → Gate.id g = k ∧ g ∈ gates).
Proof.
  intros t.
  destruct (AddGates_registry_ok gates [] _ (FaultTree_new_registry_ok name))
    as (Hl & Hprim & Hnone & _ & Htop & Hid & Hin).
  simpl in *. fold t in Hl, Hprim, Hnone, Htop, Hid, Hin.
  split_and!; [done..| |done|done|done].
  split; [by intros [? _]%Hnone|]. intros Hg. unfold t. by rewrite Hg.
Qed.

(** ** The first gate with an identifier is the one kept *)

Lemma AddGates_lookup gs t k :
  lock_ t = false → top_event_id_ t ≠ EmptyString →
  inter_events_ (AddGates gs t) !! k =
    match inter_events_ t !! k with
    | Some g => Some g
    | None => if decide (k = top_event_id_ t) then None else first_gate k gs
    end.
Proof.
  revert t. induction gs as [|g gs IH]; intros t Hl Hid.
  { unfold AddGates; simpl. destruct (inter_events_ t !! k); [done|]. by case_decide. }
  rewrite AddGates_cons.
  destruct (AddGates_with_top [g] t Hl Hid) as (Hl1 & _ & Hid1 & _).
  change (AddGates [g] t) with (AddGate g t).2 in Hl1, Hid1.
  rewrite IH by congruence. rewrite Hid1. clear IH Hl1 Hid1.
  rewrite AddGate_unfold, Hl. rewrite bool_decide_eq_false_2 by done.
  unfold first_gate; simpl.
  destruct (count _ _ || _) eqn:Hdup; simpl.
  - destruct (inter_events_ t !! k) as [g'|] eqn:Hk; [done|].
    destruct (decide (k = top_event_id_ t)) as [Hkt|Hkt]; [done|].
    destruct (bool_decide (Gate.id g = k)) eqn:Hgk; [|done]. apply bool_decide_eq_true in Hgk. subst k.
    apply orb_true_iff in Hdup as [Hc%count_true|Hc%bool_decide_eq_true]; [|done].
    rewrite Hk in Hc. by destruct Hc.
  - apply orb_false_iff in Hdup as [Hc%count_false Hne%bool_decide_eq_false].
    rewrite map_insert_fresh by done.
    destruct (decide (Gate.id g = k)) as [<-|Hgk].
    + rewrite lookup_insert_eq, Hc. rewrite decide_False by done.
      by rewrite bool_decide_eq_true_2.
    + rewrite lookup_insert_ne by done.
      by rewrite (bool_decide_eq_false_2 _ Hgk).
Qed.

(** X2.  When the first gate has a non-empty identifier, the intermediate
    mapping after a series of calls holds, under each identifier other
    than the top gate's, the first of the later gates with that
    identifier: a later gate with an identifier already in use never
    takes the place of the earlier one. *)
Theorem AddGates_first_wins name g0 gs k :
  Gate.id g0 ≠ EmptyString →
  inter_events_ (AddGates (g0 :: gs) (FaultTree_new name)) !! k =
    if decide (k = Gate.id g0) then None else first_gate k gs.
Proof.
  intros Hid. rewrite AddGates_cons, AddGates_lookup by done. done.
Qed.

(** ** The order of the calls *)

Lemma first_gate_Some k gs g :
  NoDup (Gate.id <$> gs) →
  first_gate k gs = Some g ↔ g ∈ gs ∧ Gate.id g = k.
Proof.
  unfold first_gate. induction gs as [|a gs IH]; simpl.
  { intros _. split; [done|]. by intros [?%elem_of_nil _]. }
  intros [Ha Hgs]%NoDup_cons. case_bool_decide as Hak.
  - split.
    + intros [= <-]. split; [by left|done].
    + intros [[->|Hin]%elem_of_cons Hg]; [done|].
      destruct Ha. rewrite Hak, <-Hg. by apply list_elem_of_fmap_2.
  - rewrite (IH Hgs). split.
    + intros [Hin Hg]. split; [by right|done].
    + intros [[->|Hin]%elem_of_cons Hg]; [done|]. done.
Qed.

Lemma first_gate_Permutation k gs gs' :
  NoDup (Gate.id <$> gs) → gs ≡ₚ gs' → first_gate k gs = first_gate k gs'.
Proof.
  intros Hnd Hp.
  assert (NoDup (Gate.id <$> gs')) as Hnd' by by rewrite <-Hp.
  apply option_eq. intros g. rewrite !first_gate_Some by done. by rewrite Hp.
Qed.

(** X3.  After the top gate, gates with pairwise distinct identifiers
    can be added in any order: the top gate and its identifier are the
    same, the intermediate mapping holds the same gate under every
    identifier, and name, primary events, lock and warnings are the same.
    This is about what the mapping holds, not about the order in which
    its iterators go through it, which the identifiers and gates in it do
    not settle. *)
Theorem AddGates_order_irrelevant name g0 gs gs' :
  Gate.id g0 ≠ EmptyString →
  NoDup (Gate.id <$> gs) → gs ≡ₚ gs' →
  let t := AddGates (g0 :: gs) (FaultTree_new name) in
  let t' := AddGates (g0 :: gs') (FaultTree_new name) in
  top_event_ t = top_event_ t'
  ∧ top_event_id_ t = top_event_id_ t'
  ∧ (∀ k, inter_events_ t !! k = inter_events_ t' !! k)
  ∧ name_ t = name_ t'
  ∧ primary_events_ t = primary_events_ t'
  ∧ lock_ t = lock_ t'
  ∧ warnings_ t = warnings_ t'.
Proof.
  intros Hid Hnd Hp t t'. unfold t, t'. rewrite !AddGates_cons.
  set (t1 := (AddGate g0 (FaultTree_new name)).2).
  destruct (AddGates_with_top gs t1 eq_refl Hid) as (Hl & Htop & Htid & _).
  destruct (AddGates_with_top gs' t1 eq_refl Hid) as (Hl' & Htop' & Htid' & _).
  split_and!; try congruence.
  - intros k. rewrite !AddGates_lookup by done.
    by rewrite (first_gate_Permutation k gs gs').
  - by rewrite !AddGates_name_.
  - by rewrite !AddGates_primary_events_.
  - by rewrite !AddGates_warnings_.
Qed.

(** ** When [GatherPrimaryEvents] returns *)

Lemma undefined_tree_true t :
  undefined_tree t = true →
  ∃ gate id e,
    gate_of t gate ∧ Gate.children gate !! id = Some e
    ∧ inter_events_ t !! id = None ∧ dynamic_pointer_cast_PrimaryEvent e = None.
Proof.
  unfold undefined_tree. intros [Hbad|Hbad]%orb_true_iff.
  - destruct (top_event_ t) as [top|] eqn:Htop; [|done]. simpl in Hbad.
    apply undefined_gate_inv in Hbad as (id & e & ?).
    exists top, id, e. split; [by left|done].
  - apply existsb_exists in Hbad as ([k g] & Hin & Hbad).
    apply list_elem_of_In, elem_of_map_to_list in Hin.
    apply undefined_gate_inv in Hbad as (id & e & ?).
    exists g, id, e. split; [right; by exists k|done].
Qed.

Lemma GatherPrimaryEvents_run t top order :
  top_event_ t = Some top →
  iteration (inter_events_ t) order →
  if undefined_tree t
  then (GatherPrimaryEvents order t).1 = Fail AssertionFailed
  else GatherPrimaryEvents order t =
         (Val tt,
          set_primary_events_
            (foldl (λ prim git, gather_gate (inter_events_ t) prim git.2)
                   (gather_gate (inter_events_ t) (primary_events_ t) top)
                   order)
            (set_lock_ true t)).
Proof.
  intros Htop Horder. unfold undefined_tree. rewrite Htop. simpl.
  by apply GatherPrimaryEvents_spec.
Qed.

(** X4.  In whatever order its loop goes through the intermediate gates,
    [GatherPrimaryEvents] returns just when the tree has a top gate
    and every child of the top gate and of the intermediate gates whose
    identifier is not a key of the intermediate mapping is a primary
    event.  When it does not return, it has not thrown one of the
    [scram::Error]s either. *)
Theorem GatherPrimaryEvents_returns_iff order t :
  iteration (inter_events_ t) order →
  ((GatherPrimaryEvents order t).1 = Val tt ↔
     is_Some (top_event_ t)
     ∧ ∀ gate id e,
         gate_of t gate → Gate.children gate !! id = Some e →
         inter_events_ t !! id = None →
         is_Some (dynamic_pointer_cast_PrimaryEvent e))
  ∧ ∀ e, (GatherPrimaryEvents order t).1 ≠ Fail (Thrown e).
Proof.
  intros Horder. destruct (top_event_ t) as [top|] eqn:Htop.
  - pose proof (GatherPrimaryEvents_run t top order Htop Horder) as Hrun.
    destruct (undefined_tree t) eqn:Hbad.
    + rewrite Hrun. split; [|done]. split; [done|]. intros [_ Hdefined].
      apply undefined_tree_true in Hbad as (gate & id & e & Hg & Hc & Hn & He).
      destruct (Hdefined gate id e Hg Hc Hn) as [pe Hpe]. congruence.
    + rewrite Hrun. simpl. split; [|done]. split; [|done]. intros _.
      split; [done|]. by apply undefined_tree_false.
  - rewrite GatherPrimaryEvents_None by done. split; [|done].
    split; [done|]. by intros [[? [=]] _].
Qed.

(** ** The entries gathered *)

Lemma map_insert_lookup_Some {V} k (v : V) m k' v' :
  map_insert k v m !! k' = Some v' ↔
    m !! k' = Some v' ∨ (m !! k = None ∧ k = k' ∧ v = v').
Proof.
  unfold map_insert. destruct (m !! k) as [w|] eqn:Hk.
  - split; [by left|]. by intros [?|[[=] _]].
  - rewrite lookup_insert_Some. split.
    + intros [[-> ->]|[_ ?]]; [right|left]; done.
    + intros [Hm|(_ & -> & ->)]; [|by left].
      right. split; [|done]. intros ->. congruence.
Qed.

Lemma gather_child_lookup_Some inter prim it id pe :
  gather_child inter prim it !! id = Some pe ↔
    prim !! id = Some pe
    ∨ (prim !! id = None ∧ it.1 = id ∧ inter !! id = None ∧ it.2 = Primary pe).
Proof.
  unfold gather_child. destruct (count inter it.1) eqn:Hc.
  { apply count_true in Hc. split; [by left|].
    intros [?|(_ & <- & Hn & _)]; [done|]. rewrite Hn in Hc. by destruct Hc. }
  apply count_false in Hc.
  destruct it as [k [g|p]]; simpl in *.
  { split; [by left|]. by intros [?|(_ & _ & _ & [=])]. }
  rewrite map_insert_lookup_Some. split.
  - intros [?|(Hk & <- & <-)]; [by left|]. by right.
  - intros [?|(Hk & <- & _ & [= <-])]; [by left|]. by right.
Qed.

Lemma gather_children_lookup_Some inter (l : list (string * Event)) prim id pe :
  foldl (gather_child inter) prim l !! id = Some pe →
  prim !! id = Some pe
  ∨ (prim !! id = None ∧ inter !! id = None ∧ (id, Primary pe) ∈ l).
Proof.
  revert prim. induction l as [|it l IH]; intros prim; simpl; [by left|].
  intros [Hit|(Hn & Hi & Hin)]%IH.
  - apply gather_child_lookup_Some in Hit as [?|(Hn & <- & Hi & Hp)]; [by left|].
    right. split_and!; [done..|]. destruct it; simpl in *. subst. by left.
  - right. split_and!; [|done|by right].
    destruct (prim !! id) as [pe'|] eqn:Hp; [|done].
    assert (gather_child inter prim it !! id = Some pe') as Hkeep
      by (apply gather_child_lookup_Some; by left).
    congruence.
Qed.

Lemma gather_children_keep inter (l : list (string * Event)) prim id pe :
  prim !! id = Some pe → foldl (gather_child inter) prim l !! id = Some pe.
Proof.
  revert prim. induction l as [|it l IH]; intros prim Hp; simpl; [done|].
  apply IH, gather_child_lookup_Some. by left.
Qed.

Lemma gather_gate_lookup_Some inter prim gate id pe :
  gather_gate inter prim gate !! id = Some pe →
  prim !! id = Some pe
  ∨ (prim !! id = None ∧ inter !! id = None
     ∧ Gate.children gate !! id = Some (Primary pe)).
Proof.
  intros [?|(? & ? & Hin)]%gather_children_lookup_Some; [by left|].
  right. split_and!; [done..|]. by apply elem_of_map_to_list in Hin.
Qed.

Lemma gather_gate_keep inter prim gate id pe :
  prim !! id = Some pe → gather_gate inter prim gate !! id = Some pe.
Proof. apply gather_children_keep. Qed.

Lemma gather_gates_lookup_Some inter (l : list (string * Gate.t)) prim id pe :
  foldl (λ prim git, gather_gate inter prim git.2) prim l !! id = Some pe →
  prim !! id = Some pe
  ∨ (inter !! id = None
     ∧ ∃ git, git ∈ l ∧ Gate.children git.2 !! id = Some (Primary pe)).
Proof.
  revert prim. induction l as [|git l IH]; intros prim; simpl; [by left|].
  intros [Hg|(Hn & git' & Hin & Hc)]%IH.
  - apply gather_gate_lookup_Some in Hg as [?|(_ & Hn & Hc)]; [by left|].
    right. split; [done|]. exists git. split; [by left|done].
  - right. split; [done|]. exists git'. split; [by right|done].
Qed.

Lemma gather_gates_keep inter (l : list (string * Gate.t)) prim id pe :
  prim !! id = Some pe →
  foldl (λ prim git, gather_gate inter prim git.2) prim l !! id = Some pe.
Proof.
  revert prim. induction l as [|git l IH]; intros prim Hp; simpl; [done|].
  by apply IH, gather_gate_keep.
Qed.

Lemma GatherPrimaryEvents_Val order t t' :
  iteration (inter_events_ t) order →
  GatherPrimaryEvents order t = (Val tt, t') →
  ∃ top,
    top_event_ t = Some top ∧ undefined_tree t = false
    ∧ t' = set_primary_events_
             (foldl (λ prim git, gather_gate (inter_events_ t) prim git.2)
                    (gather_gate (inter_events_ t) (primary_events_ t) top)
                    order)
             (set_lock_ true t).
Proof.
  intros Horder Hrun. destruct (top_event_ t) as [top|] eqn:Htop.
  - exists top. split; [done|].
    pose proof (GatherPrimaryEvents_run t top order Htop Horder) as Hspec.
    destruct (undefined_tree t).
    + rewrite Hrun in Hspec. done.
    + split; [done|]. congruence.
  - apply (GatherPrimaryEvents_None order) in Htop. by rewrite Hrun in Htop.
Qed.

(** X5.  When [GatherPrimaryEvents] returns, in whatever order its loop
    went through the intermediate gates, the entries that the
    primary-event mapping had are still there, unchanged, and every other
    entry maps an identifier that is not a key of the intermediate mapping
    to the primary event that some gate of the tree has as a child under
    that identifier. *)
Theorem GatherPrimaryEvents_entries order t t' :
  iteration (inter_events_ t) order →
  GatherPrimaryEvents order t = (Val tt, t') →
  (∀ id pe, primary_events_ t !! id = Some pe → primary_events_ t' !! id = Some pe)
  ∧ (∀ id pe,
       primary_events_ t' !! id = Some pe →
       primary_events_ t !! id = Some pe
       ∨ (inter_events_ t !! id = None
          ∧ ∃ gate, gate_of t gate ∧ Gate.children gate !! id = Some (Primary pe))).
Proof.
  intros Horder Hrun.
  destruct (GatherPrimaryEvents_Val order t t' Horder Hrun) as (top & Htop & _ & ->).
  simpl. split.
  - intros id pe Hp. by apply gather_gates_keep, gather_gate_keep.
  - intros id pe [Hg|(Hn & [k g] & Hin & Hc)]%gather_gates_lookup_Some.
    + apply gather_gate_lookup_Some in Hg as [?|(_ & Hn & Hc)]; [by left|].
      right. split; [done|]. exists top. split; [by left|done].
    + right. split; [done|]. exists g. split; [|done].
      right. exists k. by apply (iteration_elem_of _ _ _ _ Horder) in Hin.
Qed.

(** ** [GatherPrimaryEvents], twice *)

Lemma foldl_fixed {A B} (f : A → B → A) (a : A) (l : list B) :
  (∀ x, x ∈ l → f a x = a) → foldl f a l = a.
Proof.
  intros Hfix. induction l as [|x l IH]; simpl; [done|].
  rewrite Hfix by by left. apply IH. intros. apply Hfix. by right.
Qed.

Lemma gather_child_fixed inter prim it :
  (inter !! it.1 = None → is_Some (dynamic_pointer_cast_PrimaryEvent it.2) →
   is_Some (prim !! it.1)) →
  gather_child inter prim it = prim.
Proof.
  intros Hin. unfold gather_child.
  destruct (count inter it.1) eqn:Hc; [done|]. apply count_false in Hc.
  destruct (dynamic_pointer_cast_PrimaryEvent it.2) as [pe|]; [|done].
  destruct (Hin Hc) as [pe' Hpe']; [by eexists|].
  unfold map_insert. by rewrite Hpe'.
Qed.

Lemma gather_gate_fixed inter prim gate :
  (∀ id e, Gate.children gate !! id = Some e → inter !! id = None →
           is_Some (dynamic_pointer_cast_PrimaryEvent e) → is_Some (prim !! id)) →
  gather_gate inter prim gate = prim.
Proof.
  intros Hin. unfold gather_gate. apply foldl_fixed.
  intros [k e] Hk%elem_of_map_to_list. apply gather_child_fixed. simpl. eauto.
Qed.

(** X6.  A second [GatherPrimaryEvents] after one that returned returns
    as well and leaves the tree as the first call left it, in whatever
    order the loop of each call goes through the intermediate gates. *)
Theorem GatherPrimaryEvents_idempotent order order' t t' :
  iteration (inter_events_ t) order →
  iteration (inter_events_ t) order' →
  GatherPrimaryEvents order t = (Val tt, t') →
  GatherPrimaryEvents order' t' = (Val tt, t').
Proof.
  intros Horder Horder' Hfirst.
  destruct (GatherPrimaryEvents_Val order t t' Horder Hfirst)
    as (top & Htop & Hok & ->).
  set (inter := inter_events_ t) in *.
  set (prim := foldl (λ prim git, gather_gate inter prim git.2)
                 (gather_gate inter (primary_events_ t) top) order).
  set (t' := set_primary_events_ prim (set_lock_ true t)).
  pose proof (GatherPrimaryEvents_run t' top order' Htop Horder') as Hrun.
  assert (undefined_tree t' = undefined_tree t) as Hsame by done.
  rewrite Hsame, Hok in Hrun. rewrite Hrun. f_equal. simpl. fold inter.
  apply orb_false_iff in Hok as [Htopok Hinterok]. rewrite Htop in Htopok.
  simpl in Htopok. fold inter in Htopok, Hinterok.
  rewrite <-(existsb_Permutation _ _ _ Horder) in Hinterok.
  assert (∀ gate, gate_of t gate → gather_gate inter prim gate = prim) as Hfix.
  { intros gate Hgate. apply gather_gate_fixed. intros id e Hc Hn _.
    unfold prim. rewrite gather_gates_lookup, gather_gate_lookup by done.
    destruct Hgate as [Hg|[k Hk]].
    - assert (gate = top) as -> by congruence. left. right. split; [done|]. by eexists.
    - right. split; [done|]. exists (k, gate). split; [|by eexists].
      by apply (iteration_elem_of _ _ _ _ Horder). }
  rewrite (Hfix top) by by left.
  assert (foldl (λ prim git, gather_gate inter prim git.2) prim order' = prim) as ->.
  { apply foldl_fixed. intros [k g] Hk%(iteration_elem_of _ _ _ _ Horder').
    apply Hfix. right. by exists k. }
  by destruct t.
Qed.

(** ** Gates with the empty identifier *)

Lemma AddGates_anonymous name gs :
  Forall (λ g, Gate.id g = EmptyString) gs →
  ∃ top,
    AddGates gs (FaultTree_new name) =
      mkFaultTree name top EmptyString ∅ ∅ false EmptyString.
Proof.
  induction gs as [|g gs IH] using rev_ind; intros Hgs.
  { by exists None. }
  apply Forall_app in Hgs as [Hgs Hg]. apply Forall_inv in Hg.
  destruct (IH Hgs) as [top Htop]. exists (Some g).
  unfold AddGates in *. rewrite foldl_app. simpl. rewrite Htop.
  rewrite AddGate_unfold. simpl. by rewrite Hg.
Qed.

(** X18.  A gate with the empty identifier does not count as a top gate:
    after any number of calls with such gates, the next [AddGate] returns
    and makes its gate the top gate, and the tree is the one that this
    call alone gives on a new tree.  The earlier gates are in no
    mapping. *)
Theorem AddGate_after_anonymous name gs g :
  Forall (λ g, Gate.id g = EmptyString) gs →
  AddGate g (AddGates gs (FaultTree_new name)) = AddGate g (FaultTree_new name)
  ∧ AddGates (gs ++ [g]) (FaultTree_new name) =
      mkFaultTree name (Some g) (Gate.id g) ∅ ∅ false EmptyString.
Proof.
  intros [top Htop]%(AddGates_anonymous name).
  assert (AddGate g (AddGates gs (FaultTree_new name)) = AddGate g (FaultTree_new name))
    as Hsame by (rewrite Htop, !AddGate_unfold; done).
  split; [done|].
  unfold AddGates in *. rewrite foldl_app. simpl. by rewrite Hsame.
Qed.

(** * Properties of the document operations *)

Lemma lookup_node_app root q p :
  lookup_node root (q ++ p) = lookup_node root q ≫= λ n, lookup_node n p.
Proof.
  revert root. induction q as [|i q IH]; intros root; simpl; [done|].
  destruct root as [nm ats cs|]; [|done].
  destruct (cs !! i) as [c|]; simpl; [apply IH|done].
Qed.

Lemma lookup_replace root q n p :
  is_Some (lookup_node root q) →
  lookup_node (replace root q n) (q ++ p) = lookup_node n p.
Proof.
  unfold replace. revert root. induction q as [|i q IH]; intros root [e He]; simpl in *.
  - done.
  - destruct root as [nm ats cs|]; [|done].
    rewrite list_lookup_alter.
    destruct (cs !! i) as [c|]; simpl in *; [|done].
    rewrite decide_True by done. simpl. apply IH. eauto.
Qed.

Lemma lookup_replace_eq root q n :
  is_Some (lookup_node root q) → lookup_node (replace root q n) q = Some n.
Proof.
  intros Hq. rewrite <-(app_nil_r q) at 2. by rewrite lookup_replace.
Qed.

Lemma replace_replace root q n p m :
  is_Some (lookup_node root q) →
  replace (replace root q n) (q ++ p) m = replace root q (replace n p m).
Proof.
  unfold replace. revert root. induction q as [|i q IH]; intros root [e He]; simpl in *.
  - done.
  - destruct root as [nm ats cs|]; [|done]. f_equal.
    destruct (cs !! i) as [c|] eqn:Hc; simpl in *; [|done].
    rewrite list_alter_alter_eq. apply list_alter_ext; [|done].
    intros c' Hc'. simpl. apply IH. assert (c' = c) as -> by congruence. eauto.
Qed.

Lemma replace_replace_eq root q n m :
  is_Some (lookup_node root q) → replace (replace root q n) q m = replace root q m.
Proof.
  intros Hq. rewrite <-(app_nil_r q) at 2. by rewrite replace_replace.
Qed.

Lemma replace_id root q n : lookup_node root q = Some n → replace root q n = root.
Proof.
  unfold replace. revert root. induction q as [|i q IH]; intros root Hq; simpl in *.
  - congruence.
  - destruct root as [nm ats cs|]; [|done]. f_equal.
    destruct (cs !! i) as [c|] eqn:Hc; simpl in *; [|done].
    rewrite <-(list_alter_id (λ c, c) cs i) at 2 by done.
    apply list_alter_ext; [|done]. intros c' Hc'. apply IH. congruence.
Qed.

Lemma replace_last_child nm ats cs c c' :
  replace (Element nm ats (cs ++ [c])) [length cs] c' = Element nm ats (cs ++ [c']).
Proof.
  unfold replace; simpl. f_equal.
  rewrite alter_app_r_alt by done. by rewrite Nat.sub_diag.
Qed.

Lemma lookup_last_child nm ats cs c :
  lookup_node (Element nm ats (cs ++ [c])) [length cs] = Some c.
Proof. simpl. by rewrite list_lookup_middle. Qed.

(** *** Running the operations *)

Section run.
Import xmlpp.
Context (root : Node) (q : list nat) (nm : string)
        (ats : list (string * string)) (cs : list Node).
Hypothesis Hq : lookup_node root q = Some (Element nm ats cs).

Lemma run_add_child name :
  add_child (Some q) name (Some root) =
    (Val (Some (q ++ [length cs])),
     Some (replace root q (Element nm ats (cs ++ [Element name [] []])))).
Proof. unfold add_child, deref, store. run_monad. by rewrite Hq. Qed.

Lemma run_add_child_text content :
  add_child_text (Some q) content (Some root) =
    (Val tt, Some (replace root q (Element nm ats (cs ++ [TextNode content])))).
Proof. unfold add_child_text, deref, store. run_monad. by rewrite Hq. Qed.

Lemma run_set_attribute name value :
  set_attribute (Some q) name value (Some root) =
    (Val tt, Some (replace root q (Element nm (set_attr name value ats) cs))).
Proof. unfold set_attribute, deref, store. run_monad. by rewrite Hq. Qed.

Lemma run_find xpath :
  find (Some q) xpath (Some root) =
    (Val (Some <$> select (xpath_steps xpath) q (Element nm ats cs)), Some root).
Proof. unfold find, deref. run_monad. by rewrite Hq. Qed.
End run.

(** *** Running a sequence of operations

    The state is kept as [replace root q e]: a document and the element [e]
    that the operations at hand work on, at [q]. *)

Lemma bind_run {S A B} (m : M S A) (k : A → M S B) s a s' :
  m s = (Val a, s') → (m ≫= k) s = k a s'.
Proof. unfold mbind, M_bind. by intros ->. Qed.

Lemma assert_run {S} (c : bool) (s : S) : c = true → assert c s = (Val tt, s).
Proof. by intros ->. Qed.

Section focused.
Import xmlpp.
Context (root : Node) (q : list nat).
Hypothesis Hq : is_Some (lookup_node root q).

Lemma at_add_child nm ats cs name :
  add_child (Some q) name (Some (replace root q (Element nm ats cs))) =
    (Val (Some (q ++ [length cs])),
     Some (replace root q (Element nm ats (cs ++ [Element name [] []])))).
Proof.
  erewrite run_add_child by by apply lookup_replace_eq.
  by rewrite replace_replace_eq.
Qed.

Lemma at_add_child_text nm ats cs content :
  add_child_text (Some q) content (Some (replace root q (Element nm ats cs))) =
    (Val tt, Some (replace root q (Element nm ats (cs ++ [TextNode content])))).
Proof.
  erewrite run_add_child_text by by apply lookup_replace_eq.
  by rewrite replace_replace_eq.
Qed.

Lemma at_set_attribute nm ats cs name value :
  set_attribute (Some q) name value (Some (replace root q (Element nm ats cs))) =
    (Val tt, Some (replace root q (Element nm (set_attr name value ats) cs))).
Proof.
  erewrite run_set_attribute by by apply lookup_replace_eq.
  by rewrite replace_replace_eq.
Qed.

(** Turning to the last child of the element at [q], and back. *)
Lemma focus_last_child nm ats cs c :
  replace root q (Element nm ats (cs ++ [c])) =
    replace (replace root q (Element nm ats (cs ++ [c]))) (q ++ [length cs]) c
  ∧ is_Some (lookup_node (replace root q (Element nm ats (cs ++ [c])))
                         (q ++ [length cs])).
Proof.
  assert (lookup_node (replace root q (Element nm ats (cs ++ [c])))
                      (q ++ [length cs]) = Some c) as Hc.
  { rewrite lookup_replace by done. apply lookup_last_child. }
  split; [|by rewrite Hc]. symmetry. by apply replace_id.
Qed.

Lemma unfocus_last_child nm ats cs c c' :
  replace (replace root q (Element nm ats (cs ++ [c]))) (q ++ [length cs]) c' =
    replace root q (Element nm ats (cs ++ [c'])).
Proof. rewrite replace_replace by done. by rewrite replace_last_child. Qed.
End focused.

(** A loop each of whose rounds appends one node to the element at [q]. *)
Lemma for_each_appends {A} (l : list A) (body : A → M Document unit)
    (f : A → option Node) root q nm ats :
  is_Some (lookup_node root q) →
  (∀ x n cs, x ∈ l → f x = Some n →
     body x (Some (replace root q (Element nm ats cs))) =
       (Val tt, Some (replace root q (Element nm ats (cs ++ [n]))))) →
  ∀ ns cs, mapM f l = Some ns →
    for_each l body (Some (replace root q (Element nm ats cs))) =
      (Val tt, Some (replace root q (Element nm ats (cs ++ ns)))).
Proof.
  intros Hq. induction l as [|x l IH]; intros Hbody ns cs Hns; simpl in Hns.
  - injection Hns as <-. simpl. by rewrite app_nil_r.
  - destruct (f x) as [n|] eqn:Hx; simpl in Hns; [|done].
    destruct (mapM f l) as [ns'|] eqn:Hl; simpl in Hns; [|done].
    injection Hns as <-. rewrite for_each_cons.
    rewrite (Hbody x n cs) by (done || by left).
    rewrite (IH ltac:(intros; apply Hbody; (done || by right)) ns' (cs ++ [n])) by done.
    by rewrite <-app_assoc.
Qed.

Ltac step :=
  etrans;
  [ eapply bind_run;
    first [ apply at_set_attribute
          | apply at_add_child_text
          | apply at_add_child ];
    eauto
  | cbv beta ].

(** Go on with the operations on the child appended last. *)
Ltac focus R :=
  match goal with
  | |- _ (Some (replace ?root ?q (Element ?nm ?ats (?cs ++ [?c])))) = _ =>
      let Hf1 := fresh "Hfocus" in
      let Hf2 := fresh "H" R in
      let HR := fresh "Heq" R in
      destruct (focus_last_child root q ltac:(eauto) nm ats cs c) as [Hf1 Hf2];
      remember (replace root q (Element nm ats (cs ++ [c]))) as R eqn:HR;
      rewrite Hf1 at 1; clear Hf1
  end.

(** Back to the parent. *)
Ltac unfocus R :=
  match goal with
  | HR : R = replace _ _ _ |- _ =>
      rewrite HR; rewrite unfocus_last_child by eauto;
      match goal with H : is_Some (lookup_node R _) |- _ => clear H end;
      clear HR R
  end.

(** * Properties of [Reporter] *)

Lemma string_app_cons c (s1 s2 : string) : String c s1 +:+ s2 = String c (s1 +:+ s2).
Proof. reflexivity. Qed.

Lemma string_app_nil_r (s : string) : s +:+ EmptyString = s.
Proof. induction s as [|c s IH]; [done|]. by rewrite string_app_cons, IH. Qed.

Lemma string_app_assoc (s1 s2 s3 : string) : (s1 +:+ s2) +:+ s3 = s1 +:+ (s2 +:+ s3).
Proof. induction s1 as [|c s1 IH]; [done|]. by rewrite !string_app_cons, IH. Qed.

Lemma foldl_string_app {A} (f : A → string) (l : list A) (init : string) :
  foldl (λ out it, out +:+ f it) init l
  = init +:+ foldr (λ it rest, f it +:+ rest) EmptyString l.
Proof.
  revert init. induction l as [|x l IH]; intros init; simpl.
  - by rewrite string_app_nil_r.
  - rewrite IH. apply string_app_assoc.
Qed.

Lemma report_information ics ics' scs :
  replace (report ics scs) [0] (Element "information" [] ics') = report ics' scs.
Proof. reflexivity. Qed.

Lemma report_results ics scs scs' :
  replace (report ics scs) [1] (Element "results" [] scs') = report ics scs'.
Proof. reflexivity. Qed.

Lemma report_lookup_information ics scs : is_Some (lookup_node (report ics scs) [0]).
Proof. by eexists. Qed.

Lemma report_lookup_results ics scs : is_Some (lookup_node (report ics scs) [1]).
Proof. by eexists. Qed.

#[local] Hint Resolve report_lookup_information report_lookup_results : core.

Section reporter_facts.
Context `{Env}.
Import xmlpp.

Lemma get_root_node_Some root :
  get_root_node (Some root) = (Val (Some []), Some root).
Proof. reflexivity. Qed.

Lemma find_information ics scs :
  find (Some []) "./information" (Some (report ics scs)) =
    (Val [Some [0]], Some (report ics scs)).
Proof. reflexivity. Qed.

Lemma find_results ics scs :
  find (Some []) "./results" (Some (report ics scs)) =
    (Val [Some [1]], Some (report ics scs)).
Proof. reflexivity. Qed.

(** ** C9 *)

(** C9.  [ReportOrphans] on an empty set ends in the failed assertion
    with the document untouched, whatever the document.  On a non-empty
    set and a set-up document it returns having appended to the
    information section one warning, whose text puts together the display
    identifiers of all the orphans. *)
Theorem ReportOrphans_spec :
  (∀ doc, Reporter.ReportOrphans [] doc = (Fail AssertionFailed, doc))
  ∧ (∀ orphans ics scs,
       orphans ≠ [] →
       Reporter.ReportOrphans orphans (Some (report ics scs)) =
         (Val tt,
          Some (report
                  (ics ++ [Element "warning" [] [TextNode (orphans_warning orphans)]])
                  scs))).
Proof.
  split; [done|]. intros orphans ics scs Hne.
  unfold Reporter.ReportOrphans.
  etrans; [eapply bind_run, assert_run; by rewrite bool_decide_eq_false_2|]; cbv beta.
  etrans; [eapply bind_run, get_root_node_Some|]; cbv beta.
  etrans; [eapply bind_run, find_information|]; cbv beta.
  etrans; [by eapply bind_run, assert_run|]; cbv beta.
  rewrite <-(report_information ics ics scs). unfold front; simpl head; simpl default.
  step. focus info. 
  etrans; [apply at_add_child_text; eauto|]. unfocus info.
  rewrite report_information.
  unfold orphans_warning. by rewrite <-foldl_string_app.
Qed.
End reporter_facts.

Section setup_facts.
Context `{Env}.

(** ** C4 *)

(** C4.  On a document that has a root node [SetupReport] throws the
    [LogicError] and leaves the document as it is.  On an empty document
    it returns, and the information section it writes holds, in this
    order, the "calculated-quantity" entry of the minimal cut set analysis
    and one such entry for each of [ccf_analysis_], [probability_analysis_],
    [importance_analysis_] and [uncertainty_analysis_] that is set, and no
    other; it also holds exactly one, empty, performance entry. *)
Theorem SetupReport_spec risk_an settings now :
  (∀ root,
     Reporter.SetupReport risk_an settings now (Some root) =
       (Fail (Thrown (LogicError "The passed document is not empty for reporting")),
        Some root))
  ∧ ∃ information,
      Reporter.SetupReport risk_an settings now None =
        (Val tt, Some (report information []))
      ∧ node_attribute "name" <$> children_named "calculated-quantity" information =
          [Some "Minimal Cut Set Analysis"]
          ++ (if Settings.ccf_analysis_ settings then [Some "CCF Analysis"] else [])
          ++ (if Settings.probability_analysis_ settings
              then [Some "Probability Analysis"] else [])
          ++ (if Settings.importance_analysis_ settings
              then [Some "Importance Analysis"] else [])
          ++ (if Settings.uncertainty_analysis_ settings
              then [Some "Uncertainty Analysis"] else [])
      ∧ length (children_named "calculated-quantity" information) =
          1 + Nat.b2n (Settings.ccf_analysis_ settings)
            + Nat.b2n (Settings.probability_analysis_ settings)
            + Nat.b2n (Settings.importance_analysis_ settings)
            + Nat.b2n (Settings.uncertainty_analysis_ settings)
      ∧ children_named "performance" information = [Element "performance" [] []].
Proof.
  split; [done|].
  destruct settings as [lo ccf prob approx co ns imp unc tr]; simpl.
  destruct ccf, prob, imp, unc;
    (eexists; split;
     [ cbv -[lexical_cast lexical_cast_double size_t_sub version_core Z.of_nat];
       reflexivity
     | by repeat split ]).
Qed.
End setup_facts.

(** *** The first token of a member name *)

Example boost_split_blanks :
  boost_split " not  b " (is_any_of " ") = [EmptyString; "not"; "b"; EmptyString].
Proof. reflexivity. Qed.

Example boost_split_empty :
  boost_split EmptyString (is_any_of " ") = [EmptyString].
Proof. reflexivity. Qed.

Example replace_first_once :
  replace_first "a not not b" "not " EmptyString = "a not b".
Proof. reflexivity. Qed.

Lemma split_compress_head pred tok s :
  split_compress pred false tok s !! 0%nat = Some (tok +:+ first_token pred s).
Proof.
  revert tok. induction s as [|c s IH]; intros tok; simpl.
  - by rewrite string_app_nil_r.
  - destruct (pred c); simpl.
    + by rewrite string_app_nil_r.
    + rewrite IH. by rewrite string_app_assoc.
Qed.

Lemma boost_split_head s pred : boost_split s pred !! 0%nat = Some (first_token pred s).
Proof. unfold boost_split. by rewrite split_compress_head. Qed.

Lemma first_token_cons_inv pred s a t :
  first_token pred s = String a t →
  ∃ r, s = String a r ∧ first_token pred r = t.
Proof.
  destruct s as [|c r]; simpl; [done|].
  destruct (pred c); [done|]. intros [= -> <-]. eauto.
Qed.

Lemma first_token_nil_inv s :
  first_token (is_any_of " ") s = EmptyString → s = EmptyString ∨ ∃ r, s = " " +:+ r.
Proof.
  destruct s as [|c r]; simpl; [by left|].
  rewrite orb_false_r. case_bool_decide as Hc; [|done].
  subst c. right. by exists r.
Qed.

(** The first token is "not" just for the name "not" and for the names that
    begin with "not " (with the blank). *)
Lemma first_token_not s :
  first_token (is_any_of " ") s = "not" ↔ s = "not" ∨ String.prefix "not " s = true.
Proof.
  split.
  - intros Hs.
    apply first_token_cons_inv in Hs as (s1 & -> & Hs).
    apply first_token_cons_inv in Hs as (s2 & -> & Hs).
    apply first_token_cons_inv in Hs as (s3 & -> & Hs).
    apply first_token_nil_inv in Hs as [->|[r ->]]; [by left|].
    right. by destruct r.
  - intros [->|Hp]; [done|].
    destruct s as [|c1 [|c2 [|c3 [|c4 r]]]]; simpl in Hp; try done;
      repeat (case_match; try done); by subst.
Qed.

Lemma replace_first_unfold s pat rep :
  replace_first s pat rep =
    if String.prefix pat s then rep +:+ string_drop (String.length pat) s
    else match s with
         | EmptyString => EmptyString
         | String c s' => String c (replace_first s' pat rep)
         end.
Proof. by destruct s. Qed.

(** A name that begins with "not ": the first token and what is left
    when the prefix is taken off. *)
Lemma not_prefix_split rest :
  boost_split ("not " +:+ rest) (is_any_of " ") !! 0%nat = Some "not"
  ∧ replace_first ("not " +:+ rest) "not " EmptyString = rest.
Proof.
  assert (String.prefix "not " ("not " +:+ rest) = true) as Hp by by destruct rest.
  split.
  - rewrite boost_split_head. reflexivity.
  - rewrite replace_first_unfold, Hp. done.
Qed.

(** *** Selecting nodes *)

Lemma children_named_nil name cs :
  children_named name cs = [] ↔ Forall (λ c, is_element_named name c = false) cs.
Proof.
  unfold children_named. induction cs as [|c cs IH]; simpl.
  - split; [constructor|done].
  - destruct (is_element_named name c) eqn:Hc.
    + split; [done|]. intros [Hf _]%Forall_cons_1. congruence.
    + rewrite IH. split; [by constructor|]. by intros [_ ?]%Forall_cons_1.
Qed.

Lemma select_children_none name (g : nat → Node → list (list nat)) cs :
  children_named name cs = [] →
  mjoin (imap (λ i c, if is_element_named name c then g i c else []) cs) = [].
Proof.
  rewrite children_named_nil. revert g.
  induction cs as [|c cs IH]; intros g Hcs; [done|].
  apply Forall_cons_1 in Hcs as [Hc Hcs]. rewrite imap_cons; simpl.
  rewrite Hc; simpl. by apply (IH (g ∘ S)).
Qed.

(** The only child with a given name. *)
Lemma select_only_child name steps p nm ats pre c post :
  is_element_named name c = true →
  children_named name pre = [] → children_named name post = [] →
  select (name :: steps) p (Element nm ats (pre ++ c :: post)) =
    select steps (p ++ [length pre]) c.
Proof.
  intros Hc Hpre Hpost. simpl. rewrite imap_app, join_app.
  rewrite select_children_none by done. rewrite imap_cons; simpl.
  rewrite Hc, Nat.add_0_r. unfold compose.
  rewrite (select_children_none name
             (λ i c, select steps (p ++ [length pre + S i]) c)) by done.
  by rewrite app_nil_r.
Qed.

(** The last child, when it has the name asked for, is selected last. *)
Lemma select_last_child name p nm ats cs c :
  is_element_named name c = true →
  last (select [name] p (Element nm ats (cs ++ [c]))) = Some (p ++ [length cs]).
Proof.
  intros Hc. simpl. rewrite imap_app, join_app; simpl.
  rewrite Hc, Nat.add_0_r, app_nil_r. apply last_snoc.
Qed.

Section find_facts.
Import xmlpp.

Lemma find_performance pre pats pcs post scs :
  children_named "performance" pre = [] →
  children_named "performance" post = [] →
  let root := report (pre ++ Element "performance" pats pcs :: post) scs in
  find (Some []) "./information/performance" (Some root) =
    (Val [Some [0; length pre]], Some root).
Proof.
  intros Hpre Hpost root.
  erewrite (run_find root []) by reflexivity. do 2 f_equal.
  change (xpath_steps "./information/performance")
    with ["information"; "performance"].
  change (select ["information"; "performance"] [] _)
    with (select ["performance"] [0]
            (Element "information" []
               (pre ++ Element "performance" pats pcs :: post)) ++ []).
  rewrite app_nil_r. by rewrite select_only_child.
Qed.

Lemma find_calculation_time pre pats pcs cats ccs post scs :
  children_named "performance" pre = [] →
  children_named "performance" post = [] →
  let root :=
    report (pre ++ Element "performance" pats
                     (pcs ++ [Element "calculation-time" cats ccs]) :: post) scs in
  ∃ calc_times,
    find (Some []) "./information/performance/calculation-time" (Some root) =
      (Val calc_times, Some root)
    ∧ calc_times ≠ []
    ∧ back calc_times = Some [0; length pre; length pcs].
Proof.
  intros Hpre Hpost root. eexists.
  split; [by apply (run_find root [])|].
  change (xpath_steps "./information/performance/calculation-time")
    with ["information"; "performance"; "calculation-time"].
  change (select ["information"; "performance"; "calculation-time"] [] _)
    with (select ["performance"; "calculation-time"] [0]
            (Element "information" []
               (pre ++ Element "performance" pats
                         (pcs ++ [Element "calculation-time" cats ccs]) :: post))
          ++ []).
  rewrite app_nil_r. rewrite select_only_child by done.
  pose proof (select_last_child "calculation-time" ([0] ++ [length pre])
                "performance" pats pcs (Element "calculation-time" cats ccs)
                eq_refl) as Hlast.
  unfold back. rewrite fmap_last, Hlast. split; [|done].
  intros Hnil. apply fmap_nil_inv in Hnil. by rewrite Hnil in Hlast.
Qed.
End find_facts.

Lemma report_with_time_replace pre pats pcs cats ccs ccs' post scs :
  replace (report_with_time pre pats pcs cats ccs post scs)
          [0; length pre; length pcs] (Element "calculation-time" cats ccs')
  = report_with_time pre pats pcs cats ccs' post scs.
Proof.
  unfold report_with_time, report, replace; simpl. do 3 f_equal.
  rewrite alter_app_r_alt, Nat.sub_diag by done. simpl. do 3 f_equal.
  rewrite alter_app_r_alt, Nat.sub_diag by done. done.
Qed.

Lemma report_with_time_lookup pre pats pcs cats ccs post scs :
  lookup_node (report_with_time pre pats pcs cats ccs post scs)
              [0; length pre; length pcs] = Some (Element "calculation-time" cats ccs).
Proof.
  unfold report_with_time, report; simpl.
  rewrite list_lookup_middle by done. simpl.
  rewrite list_lookup_middle by done. done.
Qed.

Lemma subscript_run {S A} (v : list A) (i : Z) x (s : S) :
  (0 ≤ i)%Z → v !! Z.to_nat i = Some x → subscript v i s = (Val x, s).
Proof.
  intros Hi Hx. unfold subscript. rewrite bool_decide_eq_true_2 by done.
  by rewrite Hx.
Qed.

Lemma run_warning root q nm ats cs warning :
  is_Some (lookup_node root q) →
  (if bool_decide (warning ≠ EmptyString) then
     w ← xmlpp.add_child (Some q) "warning"; xmlpp.add_child_text w warning
   else mret tt) (Some (replace root q (Element nm ats cs))) =
    (Val tt, Some (replace root q (Element nm ats (cs ++ warning_nodes warning)))).
Proof.
  intros Hq. unfold warning_nodes. destruct (bool_decide (warning ≠ EmptyString)).
  - step. focus child. etrans; [apply at_add_child_text; eauto|]. by unfocus child.
  - by rewrite app_nil_r.
Qed.

Lemma num_bins_in_range (n : Z) :
  (0 ≤ n ≤ 2 ^ 31)%Z → to_int (size_t_sub n 1) = (n - 1)%Z.
Proof.
  intros Hn. unfold to_int, size_t_sub.
  destruct (decide (n = 0%Z)) as [->|Hn0]; [done|].
  rewrite (Z.mod_small (n - 1)) by lia.
  rewrite Z.mod_small by lia. lia.
Qed.

(** Whatever the size, [num_bins] is not beyond the last pair. *)
Lemma num_bins_le (n : Z) : (0 ≤ n)%Z → (to_int (size_t_sub n 1) ≤ n - 1)%Z.
Proof.
  intros Hn. unfold to_int, size_t_sub.
  destruct (decide (n = 0%Z)) as [->|Hn0]; [done|].
  pose proof (Z.mod_pos_bound (n - 1) (2 ^ 64) ltac:(done)) as Hy.
  pose proof (Z.mod_le (n - 1) (2 ^ 64) ltac:(lia) ltac:(done)) as Hle.
  set (y := ((n - 1) `mod` 2 ^ 64)%Z) in *.
  pose proof (Z.mod_pos_bound (y + 2 ^ 31) (2 ^ 32) ltac:(done)) as Hz.
  destruct (decide (y < 2 ^ 31)%Z) as [Hsmall|Hbig].
  - rewrite Z.mod_small by lia. lia.
  - lia.
Qed.

Section uncertainty_facts.
Context `{Env}.
Import xmlpp.

Lemma quantile_rounds sample (num_bins : Z) :
  (num_bins ≤ size sample - 1)%Z →
  mapM (quantile_round sample) (seqZ 0 num_bins) =
    Some (take (Z.to_nat num_bins) (quantile_entries sample)).
Proof.
  intros Hbins.
  assert (length (quantile_entries sample) = length sample - 1) as Hlen.
  { unfold quantile_entries. rewrite length_imap, length_zip.
    assert (length (tail sample) = pred (length sample)) as ->
      by by destruct sample.
    lia. }
  apply mapM_Some, Forall2_same_length_lookup. split.
  { rewrite length_seqZ, length_take, Hlen. unfold size in Hbins. lia. }
  intros i x n Hx Hn. apply lookup_seqZ in Hx as [-> Hi].
  apply lookup_take_Some in Hn as [Hn _]. unfold quantile_entries in Hn.
  rewrite list_lookup_imap in Hn.
  destruct (zip sample (tail sample) !! i) as [[lo up]|] eqn:Hz; [|done].
  injection Hn as <-.
  apply lookup_zip_with_Some in Hz as (lo' & up' & [= <- <-] & Hlo & Hup).
  rewrite lookup_tail in Hup. unfold quantile_round.
  replace (Z.to_nat (0 + Z.of_nat i)) with i by lia.
  replace (Z.to_nat (0 + Z.of_nat i + 1)) with (S i) by lia.
  by rewrite Hlo, Hup.
Qed.

Lemma quantile_entries_length sample :
  length (quantile_entries sample) = length sample - 1.
Proof.
  unfold quantile_entries. rewrite length_imap, length_zip.
  assert (length (tail sample) = pred (length sample)) as -> by by destruct sample.
  lia.
Qed.
End uncertainty_facts.

Ltac fold_report_with_time :=
  repeat match goal with
  | |- context [report (?pre ++ Element "performance" ?pats
                          (?pcs ++ [Element "calculation-time" ?cats ?ccs]) :: ?post)
                       ?scs] =>
      change (report (pre ++ Element "performance" pats
                        (pcs ++ [Element "calculation-time" cats ccs]) :: post) scs)
        with (report_with_time pre pats pcs cats ccs post scs)
  end.

(** Carry out the [find] of the calculation-time entries, the [assert] and
    the [back()], and turn to the entry found. *)
Ltac last_calculation_time Hpre Hpost :=
  match goal with
  | |- _ (Some (report_with_time ?pre ?pats ?pcs ?cats ?ccs ?post ?scs)) = _ =>
      let calc_times := fresh "calc_times" in
      let Hfind := fresh "Hfind" in
      let Hne := fresh "Hne" in
      let Hback := fresh "Hback" in
      let Hct := fresh "Hct" in
      destruct (find_calculation_time pre pats pcs cats ccs post scs Hpre Hpost)
        as (calc_times & Hfind & Hne & Hback);
      (etrans; [eapply bind_run; exact Hfind|]); cbv beta;
      (etrans; [eapply bind_run, assert_run;
                by rewrite (bool_decide_eq_false_2 _ Hne)|]); cbv beta;
      rewrite Hback; clear calc_times Hfind Hne Hback;
      assert (is_Some (lookup_node
                         (report_with_time pre pats pcs cats ccs post scs)
                         [0; length pre; length pcs])) as Hct
        by (rewrite report_with_time_lookup; eauto);
      fold_report_with_time;
      rewrite <-(report_with_time_replace pre pats pcs cats ccs ccs post scs)
  end.

Section uncertainty_run.
Context `{Env}.
Import xmlpp.

Lemma quantile_round_run sample root q nm ats cs i n :
  is_Some (lookup_node root q) →
  (0 ≤ i)%Z →
  quantile_round sample i = Some n →
  (quant ← add_child (Some q) "quantile";
   set_attribute quant "number" (lexical_cast (i + 1)) ;;
   lo ← subscript sample i;
   let lower := lo.1 in
   up ← subscript sample (i + 1);
   let upper := up.1 in
   va ← subscript sample (i + 1);
   let value := va.2 in
   set_attribute quant "mean" (lexical_cast_double value) ;;
   set_attribute quant "lower-bound" (lexical_cast_double lower) ;;
   set_attribute quant "upper-bound" (lexical_cast_double upper))
    (Some (replace root q (Element nm ats cs))) =
    (Val tt, Some (replace root q (Element nm ats (cs ++ [n])))).
Proof.
  intros Hq Hi Hn. unfold quantile_round in Hn.
  destruct (sample !! Z.to_nat i) as [lo|] eqn:Hlo; [|done].
  destruct (sample !! Z.to_nat (i + 1)) as [up|] eqn:Hup; [|done].
  injection Hn as <-.
  step. focus quant. step.
  etrans; [eapply bind_run, subscript_run; [done|exact Hlo]|]; cbv beta zeta.
  etrans; [eapply bind_run, subscript_run; [lia|exact Hup]|]; cbv beta zeta.
  etrans; [eapply bind_run, subscript_run; [lia|exact Hup]|]; cbv beta zeta.
  step. step. etrans; [apply at_set_attribute; eauto|].
  unfocus quant. unfold quantile_entry.
  by rewrite Z2Nat.id by done.
Qed.

(** [ReportUncertainty] on a set-up document whose performance log ends
    with a calculation-time entry. *)
Lemma ReportUncertainty_run ft_name ua pre pats pcs cats ccs post scs :
  children_named "performance" pre = [] →
  children_named "performance" post = [] →
  Reporter.ReportUncertainty ft_name ua
    (Some (report_with_time pre pats pcs cats ccs post scs)) =
    (Val tt,
     Some (report_with_time pre pats pcs cats
             (ccs ++ [Element "uncertainty" []
                        [TextNode (lexical_cast_double
                                     (UncertaintyAnalysis.p_time_ ua))]])
             post (scs ++ [measure_section ft_name ua]))).
Proof.
  intros Hpre Hpost. unfold Reporter.ReportUncertainty.
  etrans; [eapply bind_run, get_root_node_Some|]; cbv beta.
  etrans; [eapply bind_run, find_results|]; cbv beta.
  etrans; [by eapply bind_run, assert_run|]; cbv beta.
  unfold front; simpl head; simpl default.
  unfold report_with_time at 1. rewrite <-(report_results _ scs scs).
  step. focus measure. step.
  etrans; [eapply bind_run, run_warning; eauto|]; cbv beta.
  step. focus mean. step. unfocus mean.
  step. focus sd. step. unfocus sd.
  step. focus confidence. step. step. step. unfocus confidence.
  step. focus quantiles. step.
  etrans.
  { eapply bind_run.
    eapply (for_each_appends _ _ (quantile_round (UncertaintyAnalysis.distribution ua)));
      [eauto| |apply quantile_rounds, num_bins_le; unfold size; lia].
    intros i n cs Hi%elem_of_seqZ Hn. apply quantile_round_run; [eauto|lia|done]. }
  cbv beta. unfocus quantiles. unfocus measure.
  rewrite report_results. fold_report_with_time.
  last_calculation_time Hpre Hpost.
  step. focus unc. etrans; [apply at_add_child_text; eauto|]. unfocus unc.
  rewrite report_with_time_replace. do 3 f_equal.
  unfold measure_section. simpl. by rewrite <-!app_assoc.
Qed.
End uncertainty_run.

Lemma find_second_run {S K V} `{Countable K} (m : gmap K V) (k : K) v (s : S) :
  m !! k = Some v → find_second m k s = (Val v, s).
Proof. unfold find_second. by intros ->. Qed.

Section importance_run.
Context `{Env}.
Import xmlpp.

Lemma importance_round_run pa root q nm ats cs it n :
  is_Some (lookup_node root q) →
  importance_round pa it = Some n →
  (basic_event ← add_child (Some q) "basic-event";
   be ← find_second (ProbabilityAnalysis.basic_events_ pa) it.1;
   set_attribute basic_event "name" (BasicEvent_orig_id be) ;;
   dif ← subscript it.2 0;
   set_attribute basic_event "DIF" (lexical_cast_double dif) ;;
   mif ← subscript it.2 1;
   set_attribute basic_event "MIF" (lexical_cast_double mif) ;;
   cif ← subscript it.2 2;
   set_attribute basic_event "CIF" (lexical_cast_double cif) ;;
   rrw ← subscript it.2 3;
   set_attribute basic_event "RRW" (lexical_cast_double rrw) ;;
   raw ← subscript it.2 4;
   set_attribute basic_event "RAW" (lexical_cast_double raw))
    (Some (replace root q (Element nm ats cs))) =
    (Val tt, Some (replace root q (Element nm ats (cs ++ [n])))).
Proof.
  intros Hq Hn. unfold importance_round in Hn.
  destruct (ProbabilityAnalysis.basic_events_ pa !! it.1) as [be|] eqn:Hbe; [|done].
  destruct (it.2 !! 0%nat) as [dif|] eqn:H0; [|done].
  destruct (it.2 !! 1%nat) as [mif|] eqn:H1; [|done].
  destruct (it.2 !! 2%nat) as [cif|] eqn:H2; [|done].
  destruct (it.2 !! 3%nat) as [rrw|] eqn:H3; [|done].
  destruct (it.2 !! 4%nat) as [raw|] eqn:H4; [|done].
  injection Hn as <-.
  step. focus basic_event.
  etrans; [eapply bind_run, find_second_run, Hbe|]; cbv beta. step.
  etrans; [eapply bind_run, subscript_run; [done|exact H0]|]; cbv beta. step.
  etrans; [eapply bind_run, subscript_run; [done|exact H1]|]; cbv beta. step.
  etrans; [eapply bind_run, subscript_run; [done|exact H2]|]; cbv beta. step.
  etrans; [eapply bind_run, subscript_run; [done|exact H3]|]; cbv beta. step.
  etrans; [eapply bind_run, subscript_run; [done|exact H4]|]; cbv beta.
  etrans; [apply at_set_attribute; eauto|].
  by unfocus basic_event.
Qed.

(** [ReportImportance] on a set-up document whose performance log ends
    with a calculation-time entry, when every round of its loop gets
    through. *)
Lemma ReportImportance_run ft_name pa entries pre pats pcs cats ccs post scs :
  children_named "performance" pre = [] →
  children_named "performance" post = [] →
  mapM (importance_round pa) (ProbabilityAnalysis.importance pa) = Some entries →
  Reporter.ReportImportance ft_name pa
    (Some (report_with_time pre pats pcs cats ccs post scs)) =
    (Val tt,
     Some (report_with_time pre pats pcs cats
             (ccs ++ [Element "importance" []
                        [TextNode (lexical_cast_double
                                     (ProbabilityAnalysis.imp_time_ pa))]])
             post (scs ++ [importance_section ft_name pa entries]))).
Proof.
  intros Hpre Hpost Hentries. unfold Reporter.ReportImportance.
  etrans; [eapply bind_run, get_root_node_Some|]; cbv beta.
  etrans; [eapply bind_run, find_results|]; cbv beta.
  etrans; [by eapply bind_run, assert_run|]; cbv beta.
  unfold front; simpl head; simpl default.
  unfold report_with_time at 1. rewrite <-(report_results _ scs scs).
  step. focus importance. step. step.
  etrans; [eapply bind_run, run_warning; eauto|]; cbv beta.
  etrans.
  { eapply bind_run.
    eapply (for_each_appends _ _ (importance_round pa)); [eauto| |exact Hentries].
    intros it n cs _ Hn. apply importance_round_run; [eauto|done]. }
  cbv beta. unfocus importance.
  rewrite report_results. fold_report_with_time.
  last_calculation_time Hpre Hpost.
  step. focus imp. etrans; [apply at_add_child_text; eauto|]. unfocus imp.
  by rewrite report_with_time_replace.
Qed.
End importance_run.

Lemma report_performance_replace pre pats pcs pcs' post scs :
  replace (report (pre ++ Element "performance" pats pcs :: post) scs)
          [0; length pre] (Element "performance" pats pcs')
  = report (pre ++ Element "performance" pats pcs' :: post) scs.
Proof.
  unfold report, replace; simpl. do 3 f_equal.
  by rewrite alter_app_r_alt, Nat.sub_diag by done.
Qed.

Lemma report_performance_lookup pre pats pcs post scs :
  lookup_node (report (pre ++ Element "performance" pats pcs :: post) scs)
              [0; length pre] = Some (Element "performance" pats pcs).
Proof. unfold report; simpl. by rewrite list_lookup_middle by done. Qed.

Lemma mapM_total {A B} (f : A → B) (l : list A) :
  mapM (λ x, Some (f x)) l = Some (f <$> l).
Proof. induction l as [|x l IH]; simpl; [done|]. by rewrite IH. Qed.


(** The rounds of the loop over the members of a CCF event. *)
Ltac ccf_members :=
  eapply (for_each_appends _ _ (λ it, Some (Element "basic-event" [("name", it)] [])));
  [ eauto
  | let it := fresh "it" in
    let n := fresh "n" in
    let cs := fresh "cs" in
    let b := fresh "b" in
    intros it n cs _ [= <-];
    step; focus b; (etrans; [apply at_set_attribute; eauto|]); by unfocus b
  | apply mapM_total ].

Section fta_run.
Context `{Env}.
Import xmlpp.

Lemma run_total_probability (prob_analysis : option ProbabilityAnalysis.t)
    root q nm ats cs :
  is_Some (lookup_node root q) →
  match prob_analysis with
  | Some pa =>
      set_attribute (Some q) "probability"
        (lexical_cast_double (ProbabilityAnalysis.p_total pa))
  | None => mret tt
  end (Some (replace root q (Element nm ats cs))) =
    (Val tt,
     Some (replace root q
             (Element nm
                match prob_analysis with
                | Some pa =>
                    set_attr "probability"
                      (lexical_cast_double (ProbabilityAnalysis.p_total pa)) ats
                | None => ats
                end cs))).
Proof. intros Hq. destruct prob_analysis; [by apply at_set_attribute|done]. Qed.

Lemma run_product_probability (prob_analysis : option ProbabilityAnalysis.t)
    it_min p root q nm ats cs :
  is_Some (lookup_node root q) →
  match prob_analysis with
  | Some pa => Some <$> ProbabilityAnalysis.prob_of_min_sets pa !! it_min
  | None => Some None
  end = Some p →
  match prob_analysis with
  | Some pa =>
      p ← find_second (ProbabilityAnalysis.prob_of_min_sets pa) it_min;
      set_attribute (Some q) "probability" (lexical_cast_double p)
  | None => mret tt
  end (Some (replace root q (Element nm ats cs))) =
    (Val tt,
     Some (replace root q
             (Element nm
                match p with
                | Some p => set_attr "probability" (lexical_cast_double p) ats
                | None => ats
                end cs))).
Proof.
  intros Hq Hp. destruct prob_analysis as [pa|].
  - destruct (ProbabilityAnalysis.prob_of_min_sets pa !! it_min) as [p'|] eqn:Hp';
      [|done].
    injection Hp as <-.
    etrans; [eapply bind_run, find_second_run, Hp'|]; cbv beta.
    by apply at_set_attribute.
  - by injection Hp as <-.
Qed.

Lemma run_probability_time (prob_analysis : option ProbabilityAnalysis.t)
    root q nm ats cs :
  is_Some (lookup_node root q) →
  match prob_analysis with
  | Some pa =>
      pr ← add_child (Some q) "probability";
      add_child_text pr (lexical_cast_double (ProbabilityAnalysis.p_time_ pa))
  | None => mret tt
  end (Some (replace root q (Element nm ats cs))) =
    (Val tt,
     Some (replace root q
             (Element nm ats
                (cs ++ match prob_analysis with
                       | Some pa =>
                           [Element "probability" []
                              [TextNode (lexical_cast_double
                                           (ProbabilityAnalysis.p_time_ pa))]]
                       | None => []
                       end)))).
Proof.
  intros Hq. destruct prob_analysis as [pa|].
  - step. focus pr. etrans; [apply at_add_child_text; eauto|]. by unfocus pr.
  - by rewrite app_nil_r.
Qed.

(** One round of the member loop of [ReportFta], with [product] at [q]. *)
Lemma member_round_run fta root q nm ats cs it_set n :
  is_Some (lookup_node root q) →
  member_round fta it_set = Some n →
  (let product := Some q in
   let full_name := it_set in
   let names := boost_split full_name (is_any_of " ") in
   assert (bool_decide (1 ≤ size names)%Z) ;;
   names_0 ← subscript names 0;
   if bool_decide (names_0 = "not") then
     let comp_name := full_name in
     let comp_name := replace_first comp_name "not " EmptyString in
     basic_event ← find_second (FaultTreeAnalysis.basic_events_ fta) comp_name;
     let ccf_event := dynamic_pointer_cast_CcfEvent basic_event in
     match ccf_event with
     | None =>
         n ← add_child product "not";
         b ← add_child n "basic-event";
         set_attribute b "name" (BasicEvent_orig_id basic_event)
     | Some ccf_event =>
         n ← add_child product "not";
         ccf_element ← add_child n "ccf-event";
         set_attribute ccf_element "ccf-group" (ccf_group_name ccf_event) ;;
         set_attribute ccf_element "order"
           (lexical_cast (size (member_names ccf_event))) ;;
         set_attribute ccf_element "group-size"
           (lexical_cast (ccf_group_size ccf_event)) ;;
         for_each (member_names ccf_event) (λ it,
           b ← add_child ccf_element "basic-event";
           set_attribute b "name" it)
     end
   else
     basic_event ← find_second (FaultTreeAnalysis.basic_events_ fta) full_name;
     let ccf_event := dynamic_pointer_cast_CcfEvent basic_event in
     match ccf_event with
     | None =>
         b ← add_child product "basic-event";
         set_attribute b "name" (BasicEvent_orig_id basic_event)
     | Some ccf_event =>
         ccf_element ← add_child product "ccf-event";
         set_attribute ccf_element "ccf-group" (ccf_group_name ccf_event) ;;
         set_attribute ccf_element "order"
           (lexical_cast (size (member_names ccf_event))) ;;
         set_attribute ccf_element "group-size"
           (lexical_cast (ccf_group_size ccf_event)) ;;
         for_each (member_names ccf_event) (λ it,
           b ← add_child ccf_element "basic-event";
           set_attribute b "name" it)
     end)
    (Some (replace root q (Element nm ats cs))) =
    (Val tt, Some (replace root q (Element nm ats (cs ++ [n])))).
Proof.
  intros Hq Hn. unfold member_round in Hn. cbv zeta.
  destruct (boost_split it_set (is_any_of " ") !! 0%nat) as [names_0|] eqn:Hnames;
    [|done].
  simpl in Hn.
  etrans.
  { eapply bind_run, assert_run. apply bool_decide_eq_true_2.
    apply lookup_lt_Some in Hnames. unfold size. lia. }
  cbv beta.
  etrans; [eapply bind_run, subscript_run; [done|exact Hnames]|]; cbv beta.
  destruct (bool_decide (names_0 = "not")).
  - destruct (FaultTreeAnalysis.basic_events_ fta !! replace_first it_set "not " EmptyString)
      as [be|] eqn:Hbe; [|done].
    injection Hn as <-.
    etrans; [eapply bind_run, find_second_run, Hbe|]; cbv beta.
    unfold event_entry. destruct (dynamic_pointer_cast_CcfEvent be) as [ccf|].
    + step. focus nt. step. focus ccf_element. step. step. step.
      etrans; [ccf_members|]. unfocus ccf_element. by unfocus nt.
    + step. focus nt. step. focus b. etrans; [apply at_set_attribute; eauto|].
      unfocus b. by unfocus nt.
  - destruct (FaultTreeAnalysis.basic_events_ fta !! it_set) as [be|] eqn:Hbe;
      [|done].
    injection Hn as <-.
    etrans; [eapply bind_run, find_second_run, Hbe|]; cbv beta.
    unfold event_entry. destruct (dynamic_pointer_cast_CcfEvent be) as [ccf|].
    + step. focus ccf_element. step. step. step.
      etrans; [ccf_members|]. by unfocus ccf_element.
    + step. focus b. etrans; [apply at_set_attribute; eauto|]. by unfocus b.
Qed.
End fta_run.

Section fta_run_main.
Context `{Env}.
Import xmlpp.

(** [ReportFta] on a set-up document, when every round of its loops gets
    through. *)
Lemma ReportFta_run ft_name fta prob_analysis products pre pats pcs post scs :
  children_named "performance" pre = [] →
  children_named "performance" post = [] →
  mapM (product_round fta prob_analysis) (FaultTreeAnalysis.min_cut_sets_ fta)
    = Some products →
  Reporter.ReportFta ft_name fta prob_analysis
    (Some (report (pre ++ Element "performance" pats pcs :: post) scs)) =
    (Val tt,
     Some (report_with_time pre pats pcs
             [("name", ft_name)] (calculation_times fta prob_analysis) post
             (scs ++ [sum_of_products_section ft_name fta prob_analysis products]))).
Proof.
  intros Hpre Hpost Hproducts. unfold Reporter.ReportFta.
  etrans; [eapply bind_run, get_root_node_Some|]; cbv beta.
  etrans; [eapply bind_run, find_results|]; cbv beta.
  etrans; [by eapply bind_run, assert_run|]; cbv beta.
  unfold front; simpl head; simpl default.
  rewrite <-(report_results _ scs scs).
  step. focus sum_of_products. step. step. step.
  etrans; [eapply bind_run, run_total_probability; eauto|]; cbv beta zeta.
  etrans; [eapply bind_run, run_warning; eauto|]; cbv beta.
  etrans.
  { eapply bind_run.
    eapply (for_each_appends _ _ (product_round fta prob_analysis));
      [eauto| |exact Hproducts].
    intros it_min n cs _ Hn. unfold product_round in Hn.
    destruct (match prob_analysis with
              | Some pa => Some <$> ProbabilityAnalysis.prob_of_min_sets pa !! it_min
              | None => Some None
              end) as [p|] eqn:Hp; [|done].
    simpl in Hn.
    destruct (mapM (member_round fta) it_min) as [members|] eqn:Hmembers; [|done].
    injection Hn as <-.
    step. focus product. step.
    etrans; [eapply bind_run, run_product_probability; eauto|]; cbv beta.
    etrans.
    { eapply (for_each_appends _ _ (member_round fta)); [eauto| |exact Hmembers].
      intros it_set n cs' _ Hn. by apply member_round_run. }
    unfocus product. by destruct p. }
  cbv beta. unfocus sum_of_products. rewrite report_results.
  etrans; [eapply bind_run, find_performance; done|]; cbv beta.
  etrans; [by eapply bind_run, assert_run|]; cbv beta.
  unfold front; simpl head; simpl default.
  match goal with
  | |- _ (Some (report _ ?scs')) = _ =>
      rewrite <-(report_performance_replace pre pats pcs pcs post scs');
      assert (is_Some (lookup_node
                (report (pre ++ Element "performance" pats pcs :: post) scs')
                [0; length pre])) as Hperf
        by (rewrite report_performance_lookup; eauto)
  end.
  step. focus calc_time. step. step. focus mcs. step. unfocus mcs.
  etrans; [apply run_probability_time; eauto|].
  unfocus calc_time. rewrite report_performance_replace.
  unfold report_with_time, sum_of_products_section, calculation_times.
  by destruct prob_analysis.
Qed.
End fta_run_main.

Section reporter_claims.
Context `{Env}.

(** ** C5 *)

(** C5.  On a set-up document whose performance log ends with a
    calculation-time entry, [ReportUncertainty] returns having appended the
    measure section.  For a sample of length N whose number of bins fits
    the [int] that holds it, the one "quantiles" child of that section has
    an entry for each [i] from 1 to N - 1, in this order; entry [i] carries
    the number [i], as lower bound the boundary of pair [i - 1] of the
    sample, as upper bound the boundary of pair [i] and as value the value
    of pair [i]. *)
Theorem ReportUncertainty_quantiles ft_name ua pre pats pcs cats ccs post scs :
  let sample := UncertaintyAnalysis.distribution ua in
  children_named "performance" pre = [] →
  children_named "performance" post = [] →
  Reporter.ReportUncertainty ft_name ua
    (Some (report_with_time pre pats pcs cats ccs post scs)) =
    (Val tt,
     Some (report_with_time pre pats pcs cats
             (ccs ++ [Element "uncertainty" []
                        [TextNode (lexical_cast_double
                                     (UncertaintyAnalysis.p_time_ ua))]])
             post (scs ++ [measure_section ft_name ua])))
  ∧ ((size sample ≤ 2 ^ 31)%Z →
     children_named "quantiles" (node_children (measure_section ft_name ua)) =
       [Element "quantiles" [("number", lexical_cast (size sample - 1))]
          (quantile_entries sample)]
     ∧ length (quantile_entries sample) = length sample - 1
     ∧ ∀ i lo up,
         1 ≤ i → sample !! (i - 1) = Some lo → sample !! i = Some up →
         quantile_entries sample !! (i - 1) =
           Some (Element "quantile"
                   [("number", lexical_cast (Z.of_nat i));
                    ("mean", lexical_cast_double up.2);
                    ("lower-bound", lexical_cast_double lo.1);
                    ("upper-bound", lexical_cast_double up.1)] [])).
Proof.
  intros sample Hpre Hpost.
  split; [by apply ReportUncertainty_run|]. intros Hsize. split; [|split].
  - unfold measure_section, warning_nodes, quantile_count; simpl. fold sample.
    rewrite num_bins_in_range by (unfold size in *; lia).
    rewrite take_ge by (rewrite quantile_entries_length; unfold size; lia).
    by case_bool_decide.
  - apply quantile_entries_length.
  - intros i lo up Hi Hlo Hup. unfold quantile_entries.
    rewrite list_lookup_imap. rewrite lookup_zip_with, lookup_tail.
    replace (S (i - 1)) with i by lia. rewrite Hlo, Hup; simpl.
    unfold quantile_entry; simpl.
    by replace (Z.of_nat (i - 1) + 1)%Z with (Z.of_nat i) by lia.
Qed.

(** ** C6 *)

(** C6.  [ReportImportance] and [ReportUncertainty] put their time entry
    into the last calculation-time entry of the performance log, whatever
    the attributes of that entry and whatever the tree name they are
    called with.  So after [ReportFta] for a tree A and then for a tree B,
    the importance time and the uncertainty time both end up in the entry
    of B, after its cut set (and probability) times; the entry of A stays
    as [ReportFta] wrote it. *)
Theorem time_goes_to_last_calculation_time pre pats pcs post scs :
  children_named "performance" pre = [] →
  children_named "performance" post = [] →
  (∀ ft_name pa entries cats ccs,
     mapM (importance_round pa) (ProbabilityAnalysis.importance pa) = Some entries →
     Reporter.ReportImportance ft_name pa
       (Some (report_with_time pre pats pcs cats ccs post scs)) =
       (Val tt,
        Some (report_with_time pre pats pcs cats
                (ccs ++ [Element "importance" []
                           [TextNode (lexical_cast_double
                                        (ProbabilityAnalysis.imp_time_ pa))]])
                post (scs ++ [importance_section ft_name pa entries]))))
  ∧ (∀ ft_name ua cats ccs,
       Reporter.ReportUncertainty ft_name ua
         (Some (report_with_time pre pats pcs cats ccs post scs)) =
         (Val tt,
          Some (report_with_time pre pats pcs cats
                  (ccs ++ [Element "uncertainty" []
                             [TextNode (lexical_cast_double
                                          (UncertaintyAnalysis.p_time_ ua))]])
                  post (scs ++ [measure_section ft_name ua]))))
  ∧ (∀ name_a fta_a prob_a products_a name_b fta_b prob_b products_b
       name_i pa entries name_u ua,
       mapM (product_round fta_a prob_a) (FaultTreeAnalysis.min_cut_sets_ fta_a)
         = Some products_a →
       mapM (product_round fta_b prob_b) (FaultTreeAnalysis.min_cut_sets_ fta_b)
         = Some products_b →
       mapM (importance_round pa) (ProbabilityAnalysis.importance pa)
         = Some entries →
       (Reporter.ReportFta name_a fta_a prob_a ;;
        Reporter.ReportFta name_b fta_b prob_b ;;
        Reporter.ReportImportance name_i pa ;;
        Reporter.ReportUncertainty name_u ua)
         (Some (report (pre ++ Element "performance" pats pcs :: post) scs)) =
         (Val tt,
          Some (report
                  (pre ++
                   Element "performance" pats
                     (pcs ++
                      [Element "calculation-time" [("name", name_a)]
                         (calculation_times fta_a prob_a);
                       Element "calculation-time" [("name", name_b)]
                         (calculation_times fta_b prob_b ++
                          [Element "importance" []
                             [TextNode (lexical_cast_double
                                          (ProbabilityAnalysis.imp_time_ pa))];
                           Element "uncertainty" []
                             [TextNode (lexical_cast_double
                                          (UncertaintyAnalysis.p_time_ ua))]])])
                   :: post)
                  (scs ++
                   [sum_of_products_section name_a fta_a prob_a products_a;
                    sum_of_products_section name_b fta_b prob_b products_b;
                    importance_section name_i pa entries;
                    measure_section name_u ua])))).
Proof.
  intros Hpre Hpost. split; [|split].
  - intros. by apply ReportImportance_run.
  - intros. by apply ReportUncertainty_run.
  - intros name_a fta_a prob_a products_a name_b fta_b prob_b products_b
      name_i pa entries name_u ua Ha Hb Hi.
    etrans; [eapply bind_run, ReportFta_run; done|]; cbv beta.
    unfold report_with_time at 1.
    etrans; [eapply bind_run, (ReportFta_run name_b); done|]; cbv beta.
    etrans; [eapply bind_run, ReportImportance_run; done|]; cbv beta.
    etrans; [apply ReportUncertainty_run; done|].
    unfold report_with_time. by rewrite <-!app_assoc.
Qed.
End reporter_claims.

Section fta_claims.
Context `{Env}.

(** ** C1 *)

(** C1.  In the products that [ReportFta] writes, a member name that
    begins with "not " gives a "not" node around the entry of the basic
    event found under the name without that prefix; any other name, the
    bare "not" apart, gives the entry of the basic event found under the
    name itself.  The entry of a CCF event is a "ccf-event" with the group
    name, as order the number of the members it stands for, the group
    size, and a "basic-event" child for each of these members; the entry
    of another basic event is a "basic-event" with its display identifier.
    [ReportFta] writes one product for each minimal cut set and in it one
    such entry for each member.  For the cut set of "A" and "not B", with
    B a CCF event for B1 and B2 of a group of 3, the product has the
    child "A" and a "not" child with the "ccf-event" of order 2 and group
    size 3 that has the children "B1" and "B2". *)
Theorem ReportFta_members fta :
  (∀ rest,
     member_round fta ("not " +:+ rest) =
       be ← FaultTreeAnalysis.basic_events_ fta !! rest;
       Some (Element "not" [] [event_entry be]))
  ∧ (∀ it_set,
       it_set ≠ "not" → String.prefix "not " it_set = false →
       member_round fta it_set
       = event_entry <$> FaultTreeAnalysis.basic_events_ fta !! it_set)
  ∧ (∀ id orig_id ccf,
       event_entry (CcfEvent id orig_id ccf) =
         Element "ccf-event"
           [("ccf-group", ccf_group_name ccf);
            ("order", lexical_cast (Z.of_nat (length (member_names ccf))));
            ("group-size", lexical_cast (ccf_group_size ccf))]
           ((λ it, Element "basic-event" [("name", it)] []) <$> member_names ccf))
  ∧ (∀ id orig_id,
       event_entry (PlainBasicEvent id orig_id) =
         Element "basic-event" [("name", orig_id)] [])
  ∧ (∀ ft_name prob_analysis products pre pats pcs post scs,
       children_named "performance" pre = [] →
       children_named "performance" post = [] →
       mapM (product_round fta prob_analysis) (FaultTreeAnalysis.min_cut_sets_ fta)
         = Some products →
       Reporter.ReportFta ft_name fta prob_analysis
         (Some (report (pre ++ Element "performance" pats pcs :: post) scs)) =
         (Val tt,
          Some (report_with_time pre pats pcs
                  [("name", ft_name)] (calculation_times fta prob_analysis) post
                  (scs ++ [sum_of_products_section ft_name fta prob_analysis
                             products])))
       ∧ children_named "product"
           (node_children
              (sum_of_products_section ft_name fta prob_analysis products))
         = products
       ∧ Forall2
           (λ it_min product,
              ∃ p members,
                product =
                  Element "product"
                    (("order", lexical_cast (size it_min))
                     :: probability_attribute p) members
                ∧ Forall2 (λ it_set entry, member_round fta it_set = Some entry)
                          it_min members)
           (FaultTreeAnalysis.min_cut_sets_ fta) products)
  ∧ (∀ id_a id_b orig_b group,
       FaultTreeAnalysis.basic_events_ fta !! "A" = Some (PlainBasicEvent id_a "A") →
       FaultTreeAnalysis.basic_events_ fta !! "B"
         = Some (CcfEvent id_b orig_b (mkCcfData group ["B1"; "B2"] 3)) →
       product_round fta None ["A"; "not B"] =
         Some (Element "product" [("order", lexical_cast 2)]
                 [Element "basic-event" [("name", "A")] [];
                  Element "not" []
                    [Element "ccf-event"
                       [("ccf-group", group);
                        ("order", lexical_cast 2);
                        ("group-size", lexical_cast 3)]
                       [Element "basic-event" [("name", "B1")] [];
                        Element "basic-event" [("name", "B2")] []]]])).
Proof.
  assert (∀ rest,
            member_round fta ("not " +:+ rest) =
              be ← FaultTreeAnalysis.basic_events_ fta !! rest;
              Some (Element "not" [] [event_entry be])) as Hnot.
  { intros rest. destruct (not_prefix_split rest) as [Hhead Hrest].
    unfold member_round. by rewrite Hhead, Hrest. }
  assert (∀ it_set,
            it_set ≠ "not" → String.prefix "not " it_set = false →
            member_round fta it_set
            = event_entry <$> FaultTreeAnalysis.basic_events_ fta !! it_set)
    as Hplain.
  { intros it_set Hne Hprefix. unfold member_round.
    rewrite boost_split_head; simpl.
    rewrite bool_decide_eq_false_2; [done|].
    intros [?|?]%first_token_not; congruence. }
  split; [done|]. split; [done|]. split; [done|]. split; [done|]. split.
  - intros ft_name prob_analysis products pre pats pcs post scs Hpre Hpost Hproducts.
    split; [by apply ReportFta_run|].
    apply mapM_Some in Hproducts. split.
    + unfold sum_of_products_section; simpl. unfold children_named.
      rewrite List.filter_app.
      assert (List.filter (is_element_named "product")
                (warning_nodes (fta_warning fta prob_analysis)) = []) as ->
        by (unfold warning_nodes; by case_bool_decide).
      simpl. induction Hproducts as [|it_min product its products Hround _ IH];
        simpl; [done|].
      rewrite IH. unfold product_round in Hround.
      destruct (match prob_analysis with Some _ => _ | None => _ end); [|done].
      simpl in Hround. destruct (mapM _ it_min); [|done]. by injection Hround as <-.
    + eapply Forall2_impl; [exact Hproducts|].
      intros it_min product Hround. unfold product_round in Hround.
      destruct (match prob_analysis with Some _ => _ | None => _ end) as [p|];
        [|done].
      simpl in Hround.
      destruct (mapM (member_round fta) it_min) as [members|] eqn:Hmembers; [|done].
      injection Hround as <-. exists p, members. split; [done|].
      by apply mapM_Some.
  - intros id_a id_b orig_b group Ha Hb.
    assert (member_round fta "A" = Some (event_entry (PlainBasicEvent id_a "A")))
      as HA by (rewrite (Hplain "A") by done; by rewrite Ha).
    assert (member_round fta "not B" =
              Some (Element "not" []
                      [event_entry
                         (CcfEvent id_b orig_b (mkCcfData group ["B1"; "B2"] 3))]))
      as HB by (etrans; [exact (Hnot "B")|]; by rewrite Hb).
    unfold product_round.
    assert (mapM (member_round fta) ["A"; "not B"] =
              Some [event_entry (PlainBasicEvent id_a "A");
                    Element "not" []
                      [event_entry
                         (CcfEvent id_b orig_b (mkCcfData group ["B1"; "B2"] 3))]])
      as -> by (apply mapM_Some; by repeat constructor).
    done.
Qed.
End fta_claims.

(** * More on [Reporter] *)

(** ** [SetupReport], run *)

Section setup_run.
Context `{Env}.

Lemma SetupReport_run risk_an settings now :
  Reporter.SetupReport risk_an settings now None =
    (Val tt, Some (report (setup_information risk_an settings now) [])).
Proof.
  destruct settings as [lo ccf prob approx co ns imp unc tr].
  destruct ccf, prob, imp, unc;
    cbv -[lexical_cast lexical_cast_double size_t_sub version_core Z.of_nat];
    reflexivity.
Qed.

Lemma setup_pre_performance now : children_named "performance" (setup_pre now) = [].
Proof. reflexivity. Qed.

Lemma setup_post_performance risk_an settings :
  children_named "performance" (setup_post risk_an settings) = [].
Proof.
  destruct settings as [lo ccf prob approx co ns imp unc tr].
  by destruct ccf, prob, imp, unc.
Qed.
End setup_run.

(** ** The set-up document, in detail *)

Section setup_claims.
Context `{Env}.

(** X7.  The "calculation-method" entries that [SetupReport] writes are,
    in this order: "MOCUS" with the limit on the order of cut sets;
    "Numerical Probability" with the cut-off and the number of sums, just
    when [probability_analysis_] is set; "Monte Carlo" with the number of
    trials, just when [uncertainty_analysis_] is set.  The CCF and the
    importance analysis get no such entry. *)
Theorem SetupReport_methods risk_an settings now :
  ∃ information,
    Reporter.SetupReport risk_an settings now None =
      (Val tt, Some (report information []))
    ∧ children_named "calculation-method" information = calculation_methods settings.
Proof.
  exists (setup_information risk_an settings now).
  split; [apply SetupReport_run|].
  destruct settings as [lo ccf prob approx co ns imp unc tr].
  by destruct ccf, prob, imp, unc.
Qed.

(** X8.  The last entry of the information section is "model-features"
    with the numbers of gates, basic events, house events, CCF groups and
    fault trees.  The number of house events is the difference of two
    [size_t]: with no more basic events than primary events it is their
    difference, with more it wraps around to that difference plus 2^64. *)
Theorem SetupReport_model_features risk_an settings now :
  let p := Z.of_nat (RiskAnalysis.primary_events_ risk_an) in
  let b := Z.of_nat (RiskAnalysis.basic_events_ risk_an) in
  (p < 2 ^ 64)%Z → (b < 2 ^ 64)%Z →
  ∃ information,
    Reporter.SetupReport risk_an settings now None =
      (Val tt, Some (report information []))
    ∧ last information =
        Some (Element "model-features" []
                [text_entry "gates"
                   (lexical_cast (Z.of_nat (RiskAnalysis.gates_ risk_an)));
                 text_entry "basic-events" (lexical_cast b);
                 text_entry "house-events"
                   (lexical_cast (if decide (b ≤ p)%Z then p - b else p - b + 2 ^ 64)%Z);
                 text_entry "ccf-groups"
                   (lexical_cast (Z.of_nat (RiskAnalysis.ccf_groups_ risk_an)));
                 text_entry "fault-trees"
                   (lexical_cast (Z.of_nat (RiskAnalysis.fault_trees_ risk_an)))]).
Proof.
  intros p b Hp Hb.
  exists (setup_information risk_an settings now).
  split; [apply SetupReport_run|].
  unfold setup_information, setup_post.
  rewrite (assoc_L (++) _ _ [model_features risk_an]), !app_comm_cons, !app_assoc.
  rewrite last_snoc. unfold model_features. fold p b. do 6 f_equal.
  assert (0 ≤ p)%Z as Hp0 by (unfold p; lia).
  assert (0 ≤ b)%Z as Hb0 by (unfold b; lia).
  clearbody p b. unfold size_t_sub. case_decide.
  - by rewrite Z.mod_small by lia.
  - rewrite <-(Z.mod_add _ 1) by done. rewrite Z.mod_small by lia. done.
Qed.
End setup_claims.

(** ** Documents that are not set up *)

Lemma select_children_length name (g : nat → list nat) cs :
  length (mjoin (imap (λ i c, if is_element_named name c then [g i] else []) cs))
  = length (children_named name cs).
Proof.
  unfold children_named. revert g. induction cs as [|c cs IH]; intros g; [done|].
  rewrite imap_cons; simpl. rewrite length_app. unfold compose.
  rewrite (IH (λ i, g (S i))). by destruct (is_element_named name c).
Qed.

Lemma select_child_length name p n :
  length (select [name] p n) = length (children_named name (node_children n)).
Proof.
  destruct n as [nm ats cs|]; [|done]. simpl.
  apply (select_children_length name (λ i, p ++ [i])).
Qed.

Lemma assert_stops {S A} (c : bool) (k : unit → M S A) (s : S) :
  c = false → (assert c ≫= k) s = (Fail AssertionFailed, s).
Proof. by intros ->. Qed.

Section not_set_up.
Context `{Env}.
Import xmlpp.

Lemma find_child name root :
  find (Some []) ("./" +:+ name) (Some root) =
    (Val (Some <$> select (xpath_steps ("./" +:+ name)) [] root), Some root).
Proof. reflexivity. Qed.

(** X9.  On a document whose root does not have exactly one
    "information" child, [ReportOrphans] (with orphans to report) ends in
    its failed assertion; on one whose root does not have exactly one
    "results" child, so do [ReportFta], [ReportImportance] and
    [ReportUncertainty].  The document is left untouched. *)
Theorem writers_need_set_up root :
  (∀ orphans,
     orphans ≠ [] →
     length (children_named "information" (node_children root)) ≠ 1 →
     Reporter.ReportOrphans orphans (Some root) = (Fail AssertionFailed, Some root))
  ∧ (length (children_named "results" (node_children root)) ≠ 1 →
     (∀ ft_name fta prob_analysis,
        Reporter.ReportFta ft_name fta prob_analysis (Some root)
        = (Fail AssertionFailed, Some root))
     ∧ (∀ ft_name pa,
          Reporter.ReportImportance ft_name pa (Some root)
          = (Fail AssertionFailed, Some root))
     ∧ (∀ ft_name ua,
          Reporter.ReportUncertainty ft_name ua (Some root)
          = (Fail AssertionFailed, Some root))).
Proof.
  assert (∀ name,
            length (children_named name (node_children root)) ≠ 1 →
            bool_decide (size (Some <$> select [name] [] root) = 1%Z) = false)
    as Hsize.
  { intros name Hlen. apply bool_decide_eq_false_2.
    unfold size. rewrite length_fmap, select_child_length. lia. }
  split.
  - intros orphans Hne Hinf. unfold Reporter.ReportOrphans.
    etrans; [eapply bind_run, assert_run; by rewrite bool_decide_eq_false_2|];
      cbv beta.
    etrans; [eapply bind_run, get_root_node_Some|]; cbv beta.
    etrans; [eapply bind_run, (find_child "information")|]; cbv beta.
    by apply assert_stops, Hsize.
  - intros Hres. split_and!; intros.
    + unfold Reporter.ReportFta.
      etrans; [eapply bind_run, get_root_node_Some|]; cbv beta.
      etrans; [eapply bind_run, (find_child "results")|]; cbv beta.
      by apply assert_stops, Hsize.
    + unfold Reporter.ReportImportance.
      etrans; [eapply bind_run, get_root_node_Some|]; cbv beta.
      etrans; [eapply bind_run, (find_child "results")|]; cbv beta.
      by apply assert_stops, Hsize.
    + unfold Reporter.ReportUncertainty.
      etrans; [eapply bind_run, get_root_node_Some|]; cbv beta.
      etrans; [eapply bind_run, (find_child "results")|]; cbv beta.
      by apply assert_stops, Hsize.
Qed.

(** X10.  On a document without a root node none of the four writers
    checks the null pointer that [get_root_node] returns: each ends in
    undefined behaviour at its first [root->find], and no root node is
    created. *)
Theorem writers_need_root :
  (∀ orphans,
     orphans ≠ [] →
     Reporter.ReportOrphans orphans None = (Fail UndefinedBehaviour, None))
  ∧ (∀ ft_name fta prob_analysis,
       Reporter.ReportFta ft_name fta prob_analysis None
       = (Fail UndefinedBehaviour, None))
  ∧ (∀ ft_name pa,
       Reporter.ReportImportance ft_name pa None = (Fail UndefinedBehaviour, None))
  ∧ (∀ ft_name ua,
       Reporter.ReportUncertainty ft_name ua None = (Fail UndefinedBehaviour, None)).
Proof.
  split_and!; try done. intros orphans Hne. unfold Reporter.ReportOrphans.
  etrans; [eapply bind_run, assert_run; by rewrite bool_decide_eq_false_2|]; done.
Qed.
End not_set_up.

(** ** The results section and the time entry of a writer *)

Section writer_sections.
Context `{Env}.
Import xmlpp.

(** [ReportUncertainty] up to its look-up of the calculation-time entries:
    the measure section is in the document. *)
Lemma ReportUncertainty_section ft_name ua ics scs :
  Reporter.ReportUncertainty ft_name ua (Some (report ics scs)) =
    (calc_times ← find (Some []) "./information/performance/calculation-time";
     assert (negb (bool_decide (calc_times = []))) ;;
     let calc_time := back calc_times in
     unc ← add_child calc_time "uncertainty";
     add_child_text unc (lexical_cast_double (UncertaintyAnalysis.p_time_ ua)))
      (Some (report ics (scs ++ [measure_section ft_name ua]))).
Proof.
  unfold Reporter.ReportUncertainty.
  etrans; [eapply bind_run, get_root_node_Some|]; cbv beta.
  etrans; [eapply bind_run, find_results|]; cbv beta.
  etrans; [by eapply bind_run, assert_run|]; cbv beta.
  unfold front; simpl head; simpl default.
  rewrite <-(report_results _ scs scs).
  step. focus measure. step.
  etrans; [eapply bind_run, run_warning; eauto|]; cbv beta.
  step. focus mean. step. unfocus mean.
  step. focus sd. step. unfocus sd.
  step. focus confidence. step. step. step. unfocus confidence.
  step. focus quantiles. step.
  etrans.
  { eapply bind_run.
    eapply (for_each_appends _ _ (quantile_round (UncertaintyAnalysis.distribution ua)));
      [eauto| |apply quantile_rounds, num_bins_le; unfold size; lia].
    intros i n cs Hi%elem_of_seqZ Hn. apply quantile_round_run; [eauto|lia|done]. }
  cbv beta. unfocus quantiles. unfocus measure.
  rewrite report_results.
  unfold measure_section. simpl. by rewrite <-!app_assoc.
Qed.

Lemma ReportImportance_section ft_name pa entries ics scs :
  mapM (importance_round pa) (ProbabilityAnalysis.importance pa) = Some entries →
  Reporter.ReportImportance ft_name pa (Some (report ics scs)) =
    (calc_times ← find (Some []) "./information/performance/calculation-time";
     assert (negb (bool_decide (calc_times = []))) ;;
     let calc_time := back calc_times in
     imp ← add_child calc_time "importance";
     add_child_text imp (lexical_cast_double (ProbabilityAnalysis.imp_time_ pa)))
      (Some (report ics (scs ++ [importance_section ft_name pa entries]))).
Proof.
  intros Hentries. unfold Reporter.ReportImportance.
  etrans; [eapply bind_run, get_root_node_Some|]; cbv beta.
  etrans; [eapply bind_run, find_results|]; cbv beta.
  etrans; [by eapply bind_run, assert_run|]; cbv beta.
  unfold front; simpl head; simpl default.
  rewrite <-(report_results _ scs scs).
  step. focus importance. step. step.
  etrans; [eapply bind_run, run_warning; eauto|]; cbv beta.
  etrans.
  { eapply bind_run.
    eapply (for_each_appends _ _ (importance_round pa)); [eauto| |exact Hentries].
    intros it n cs _ Hn. apply importance_round_run; [eauto|done]. }
  cbv beta. unfocus importance.
  by rewrite report_results.
Qed.

Lemma find_no_calculation_time pre pats pcs post scs :
  children_named "performance" pre = [] →
  children_named "performance" post = [] →
  children_named "calculation-time" pcs = [] →
  let root := report (pre ++ Element "performance" pats pcs :: post) scs in
  find (Some []) "./information/performance/calculation-time" (Some root) =
    (Val [], Some root).
Proof.
  intros Hpre Hpost Hpcs root.
  erewrite (run_find root []) by reflexivity. do 2 f_equal.
  change (xpath_steps "./information/performance/calculation-time")
    with ["information"; "performance"; "calculation-time"].
  change (select ["information"; "performance"; "calculation-time"] [] _)
    with (select ["performance"; "calculation-time"] [0]
            (Element "information" []
               (pre ++ Element "performance" pats pcs :: post)) ++ []).
  rewrite app_nil_r. rewrite select_only_child by done.
  simpl. by rewrite select_children_none.
Qed.

Lemma no_calculation_time_stops {A} (k : NodePtr → M Document A)
    pre pats pcs post scs :
  children_named "performance" pre = [] →
  children_named "performance" post = [] →
  children_named "calculation-time" pcs = [] →
  ((calc_times ← find (Some []) "./information/performance/calculation-time";
    assert (negb (bool_decide (calc_times = []))) ;;
    k (back calc_times))
     (Some (report (pre ++ Element "performance" pats pcs :: post) scs))).1
  = Fail AssertionFailed.
Proof.
  intros Hpre Hpost Hpcs.
  erewrite bind_run by by apply find_no_calculation_time.
  done.
Qed.
End writer_sections.

Section composition.
Context `{Env}.
Import xmlpp.

(** X11.  On a set-up document whose performance log has no
    calculation-time entry, [ReportUncertainty] and (when the rounds of
    its loop get through) [ReportImportance] end in the failed assertion
    [!calc_times.empty()].  This is so right after [SetupReport]: one
    [ReportFta] has to come first. *)
Theorem time_entry_needs_ReportFta ft_name :
  (∀ pre pats pcs post scs,
     children_named "performance" pre = [] →
     children_named "performance" post = [] →
     children_named "calculation-time" pcs = [] →
     let doc := Some (report (pre ++ Element "performance" pats pcs :: post) scs) in
     (∀ ua, (Reporter.ReportUncertainty ft_name ua doc).1 = Fail AssertionFailed)
     ∧ (∀ pa,
          is_Some (mapM (importance_round pa) (ProbabilityAnalysis.importance pa)) →
          (Reporter.ReportImportance ft_name pa doc).1 = Fail AssertionFailed))
  ∧ (∀ risk_an settings now,
       (∀ ua,
          ((Reporter.SetupReport risk_an settings now ;;
            Reporter.ReportUncertainty ft_name ua) None).1 = Fail AssertionFailed)
       ∧ (∀ pa,
            is_Some (mapM (importance_round pa) (ProbabilityAnalysis.importance pa)) →
            ((Reporter.SetupReport risk_an settings now ;;
              Reporter.ReportImportance ft_name pa) None).1 = Fail AssertionFailed)).
Proof.
  assert (∀ pre pats pcs post scs,
            children_named "performance" pre = [] →
            children_named "performance" post = [] →
            children_named "calculation-time" pcs = [] →
            let doc :=
              Some (report (pre ++ Element "performance" pats pcs :: post) scs) in
            (∀ ua, (Reporter.ReportUncertainty ft_name ua doc).1 = Fail AssertionFailed)
            ∧ (∀ pa,
                 is_Some (mapM (importance_round pa)
                            (ProbabilityAnalysis.importance pa)) →
                 (Reporter.ReportImportance ft_name pa doc).1 = Fail AssertionFailed))
    as Hgen.
  { intros pre pats pcs post scs Hpre Hpost Hpcs doc. split.
    - intros ua. unfold doc. rewrite ReportUncertainty_section.
      by apply (no_calculation_time_stops
                  (λ calc_time,
                     unc ← add_child calc_time "uncertainty";
                     add_child_text unc
                       (lexical_cast_double (UncertaintyAnalysis.p_time_ ua)))).
    - intros pa [entries Hentries]. unfold doc.
      rewrite (ReportImportance_section _ _ entries) by done.
      by apply (no_calculation_time_stops
                  (λ calc_time,
                     imp ← add_child calc_time "importance";
                     add_child_text imp
                       (lexical_cast_double (ProbabilityAnalysis.imp_time_ pa)))). }
  split; [exact Hgen|]. intros risk_an settings now.
  destruct (Hgen (setup_pre now) [] [] (setup_post risk_an settings) []
              (setup_pre_performance now) (setup_post_performance risk_an settings)
              eq_refl) as [Hua Hpa].
  split.
  - intros ua. erewrite bind_run by apply SetupReport_run. apply Hua.
  - intros pa Hentries. erewrite bind_run by apply SetupReport_run. by apply Hpa.
Qed.

Lemma ReportOrphans_run orphans ics scs :
  orphans ≠ [] →
  Reporter.ReportOrphans orphans (Some (report ics scs)) =
    (Val tt,
     Some (report (ics ++ [text_entry "warning" (orphans_warning orphans)]) scs)).
Proof.
  intros Hne. unfold Reporter.ReportOrphans.
  etrans; [eapply bind_run, assert_run; by rewrite bool_decide_eq_false_2|]; cbv beta.
  etrans; [eapply bind_run, get_root_node_Some|]; cbv beta.
  etrans; [eapply bind_run, find_information|]; cbv beta.
  etrans; [by eapply bind_run, assert_run|]; cbv beta.
  rewrite <-(report_information ics ics scs). unfold front; simpl head; simpl default.
  step. focus info.
  etrans; [apply at_add_child_text; eauto|]. unfocus info.
  rewrite report_information.
  unfold orphans_warning, text_entry. by rewrite <-foldl_string_app.
Qed.

(** X12.  The document that [SetupReport] makes of an empty document is
    one that the writers accept.  [SetupReport], [ReportOrphans],
    [ReportFta], [ReportImportance] and [ReportUncertainty], called in
    this order, all return: the warning is the last entry of the
    information section, the performance log has the one
    calculation-time entry with the cut set, importance and uncertainty
    times, and the results are the three sections in the order of the
    calls. *)
Theorem report_pipeline risk_an settings now orphans ft_name fta prob_analysis
    products pa entries ua :
  orphans ≠ [] →
  mapM (product_round fta prob_analysis) (FaultTreeAnalysis.min_cut_sets_ fta)
    = Some products →
  mapM (importance_round pa) (ProbabilityAnalysis.importance pa) = Some entries →
  (Reporter.SetupReport risk_an settings now ;;
   Reporter.ReportOrphans orphans ;;
   Reporter.ReportFta ft_name fta prob_analysis ;;
   Reporter.ReportImportance ft_name pa ;;
   Reporter.ReportUncertainty ft_name ua) None =
    (Val tt,
     Some (report
             (setup_pre now ++
              Element "performance" []
                [Element "calculation-time" [("name", ft_name)]
                   (calculation_times fta prob_analysis ++
                    [text_entry "importance"
                       (lexical_cast_double (ProbabilityAnalysis.imp_time_ pa));
                     text_entry "uncertainty"
                       (lexical_cast_double (UncertaintyAnalysis.p_time_ ua))])]
              :: setup_post risk_an settings
                 ++ [text_entry "warning" (orphans_warning orphans)])
             [sum_of_products_section ft_name fta prob_analysis products;
              importance_section ft_name pa entries;
              measure_section ft_name ua])).
Proof.
  intros Horphans Hproducts Hentries.
  assert (children_named "performance"
            (setup_post risk_an settings
             ++ [text_entry "warning" (orphans_warning orphans)]) = []) as Hpost.
  { unfold children_named. rewrite List.filter_app.
    fold (children_named "performance" (setup_post risk_an settings)).
    by rewrite setup_post_performance. }
  etrans; [eapply bind_run, SetupReport_run|]; cbv beta.
  etrans; [eapply bind_run, ReportOrphans_run; done|]; cbv beta.
  unfold setup_information. rewrite <-app_assoc, <-app_comm_cons.
  etrans; [eapply bind_run, ReportFta_run; [apply setup_pre_performance|done..]|];
    cbv beta.
  etrans; [eapply bind_run, ReportImportance_run;
           [apply setup_pre_performance|done..]|]; cbv beta.
  etrans; [apply ReportUncertainty_run; [apply setup_pre_performance|done]|].
  unfold report_with_time, text_entry. simpl. by rewrite <-!app_assoc.
Qed.
End composition.

(** ** Reads that fail *)

Lemma bind_stops {S A B} (m : M S A) (k : A → M S B) s e :
  (m s).1 = Fail e → ((m ≫= k) s).1 = Fail e.
Proof.
  unfold mbind, M_bind. destruct (m s) as [[a|e'] s']; simpl; [done|]. by intros [= ->].
Qed.

Lemma bind_run_fst {S A B} (m : M S A) (k : A → M S B) s a s' :
  m s = (Val a, s') → ((m ≫= k) s).1 = (k a s').1.
Proof. intros Hm. by rewrite (bind_run _ _ _ _ _ Hm). Qed.

Lemma find_second_stops {S K V B} `{Countable K} (m : gmap K V) (k : K)
    (c : V → M S B) (s : S) :
  m !! k = None → ((find_second m k ≫= c) s).1 = Fail UndefinedBehaviour.
Proof. intros Hk. apply bind_stops. unfold find_second. by rewrite Hk. Qed.

Lemma subscript_stops {S A B} (v : list A) (i : nat) (c : A → M S B) (s : S) :
  v !! i = None → ((subscript v (Z.of_nat i) ≫= c) s).1 = Fail UndefinedBehaviour.
Proof.
  intros Hi. apply bind_stops. unfold subscript.
  rewrite bool_decide_eq_true_2 by lia. by rewrite Nat2Z.id, Hi.
Qed.

(** A loop whose rounds append one node each to the element at [q], until
    a round fails. *)
Lemma for_each_stops {A} (l : list A) (body : A → M Document unit)
    (f : A → option Node) root q nm ats e :
  is_Some (lookup_node root q) →
  (∀ x n cs, x ∈ l → f x = Some n →
     body x (Some (replace root q (Element nm ats cs))) =
       (Val tt, Some (replace root q (Element nm ats (cs ++ [n]))))) →
  (∀ x cs, x ∈ l → f x = None →
     (body x (Some (replace root q (Element nm ats cs)))).1 = Fail e) →
  ∀ cs, mapM f l = None →
    (for_each l body (Some (replace root q (Element nm ats cs)))).1 = Fail e.
Proof.
  intros Hq. induction l as [|x l IH]; intros Hok Hbad cs Hl; [done|].
  simpl in Hl. rewrite for_each_cons.
  destruct (f x) as [n|] eqn:Hx; simpl in Hl.
  - rewrite (Hok x n cs) by (done || by left).
    apply IH; [intros; apply Hok; (done || by right)
              |intros; apply Hbad; (done || by right)|].
    by destruct (mapM f l).
  - specialize (Hbad x cs ltac:(by left) Hx).
    by destruct (body x _) as [[[]|?] ?]; simpl in *; simplify_eq.
Qed.

Ltac step_fst :=
  etrans;
  [ eapply bind_run_fst;
    first [ apply at_set_attribute
          | apply at_add_child_text
          | apply at_add_child ];
    eauto
  | cbv beta ].

Ltac focus_fst R :=
  match goal with
  | |- (_ (Some (replace ?root ?q (Element ?nm ?ats (?cs ++ [?c]))))).1 = _ =>
      let Hf1 := fresh "Hfocus" in
      let Hf2 := fresh "H" R in
      let HR := fresh "Heq" R in
      destruct (focus_last_child root q ltac:(eauto) nm ats cs c) as [Hf1 Hf2];
      remember (replace root q (Element nm ats (cs ++ [c]))) as R eqn:HR;
      rewrite Hf1 at 1; clear Hf1
  end.

Section importance_stops.
Context `{Env}.
Import xmlpp.

Lemma importance_round_None pa it :
  importance_round pa it = None ↔
    ProbabilityAnalysis.basic_events_ pa !! it.1 = None ∨ length it.2 < 5.
Proof.
  unfold importance_round.
  destruct (ProbabilityAnalysis.basic_events_ pa !! it.1) as [be|]; simpl;
    [|split; [by left|done]].
  destruct it.2 as [|a0 [|a1 [|a2 [|a3 [|a4 rest]]]]]; simpl;
    try (split; [intros _; right; lia|done]).
  split; [done|]. intros [?|?]; [done|lia].
Qed.

Lemma importance_round_stops pa root q nm ats cs it :
  is_Some (lookup_node root q) →
  importance_round pa it = None →
  ((basic_event ← add_child (Some q) "basic-event";
    be ← find_second (ProbabilityAnalysis.basic_events_ pa) it.1;
    set_attribute basic_event "name" (BasicEvent_orig_id be) ;;
    dif ← subscript it.2 0;
    set_attribute basic_event "DIF" (lexical_cast_double dif) ;;
    mif ← subscript it.2 1;
    set_attribute basic_event "MIF" (lexical_cast_double mif) ;;
    cif ← subscript it.2 2;
    set_attribute basic_event "CIF" (lexical_cast_double cif) ;;
    rrw ← subscript it.2 3;
    set_attribute basic_event "RRW" (lexical_cast_double rrw) ;;
    raw ← subscript it.2 4;
    set_attribute basic_event "RAW" (lexical_cast_double raw))
     (Some (replace root q (Element nm ats cs)))).1 = Fail UndefinedBehaviour.
Proof.
  intros Hq Hn. unfold importance_round in Hn.
  step_fst. focus_fst basic_event.
  destruct (ProbabilityAnalysis.basic_events_ pa !! it.1) as [be|] eqn:Hbe;
    [|by apply find_second_stops].
  etrans; [eapply bind_run_fst, find_second_run, Hbe|]; cbv beta. step_fst.
  destruct (it.2 !! 0%nat) as [dif|] eqn:H0; [|by apply (subscript_stops _ 0)].
  etrans; [eapply bind_run_fst, subscript_run; [done|exact H0]|]; cbv beta. step_fst.
  destruct (it.2 !! 1%nat) as [mif|] eqn:H1; [|by apply (subscript_stops _ 1)].
  etrans; [eapply bind_run_fst, subscript_run; [done|exact H1]|]; cbv beta. step_fst.
  destruct (it.2 !! 2%nat) as [cif|] eqn:H2; [|by apply (subscript_stops _ 2)].
  etrans; [eapply bind_run_fst, subscript_run; [done|exact H2]|]; cbv beta. step_fst.
  destruct (it.2 !! 3%nat) as [rrw|] eqn:H3; [|by apply (subscript_stops _ 3)].
  etrans; [eapply bind_run_fst, subscript_run; [done|exact H3]|]; cbv beta. step_fst.
  destruct (it.2 !! 4%nat) as [raw|] eqn:H4; [|by apply (subscript_stops _ 4)].
  done.
Qed.

Lemma ReportImportance_stops ft_name pa ics scs :
  mapM (importance_round pa) (ProbabilityAnalysis.importance pa) = None →
  (Reporter.ReportImportance ft_name pa (Some (report ics scs))).1
  = Fail UndefinedBehaviour.
Proof.
  intros Hnone. unfold Reporter.ReportImportance.
  etrans; [eapply bind_run_fst, get_root_node_Some|]; cbv beta.
  etrans; [eapply bind_run_fst, find_results|]; cbv beta.
  etrans; [by eapply bind_run_fst, assert_run|]; cbv beta.
  unfold front; simpl head; simpl default.
  rewrite <-(report_results _ scs scs).
  step_fst. focus_fst importance. step_fst. step_fst.
  etrans; [eapply bind_run_fst, run_warning; eauto|]; cbv beta.
  apply bind_stops.
  eapply (for_each_stops _ _ (importance_round pa)); [eauto| | |exact Hnone].
  - intros it n cs _ Hn. apply importance_round_run; [eauto|done].
  - intros it cs _ Hn. apply importance_round_stops; [eauto|done].
Qed.

(** X13.  On a set-up document whose performance log ends with a
    calculation-time entry, [ReportImportance] returns just when every
    entry of [importance()] has a basic event under its key in
    [basic_events_] and at least the five factors that the loop reads.
    An entry without that basic event or with fewer factors makes the
    call end in undefined behaviour ([find(...)->second] at [end()], or
    [operator[]] out of range). *)
Theorem ReportImportance_returns_iff ft_name pa pre pats pcs cats ccs post scs :
  children_named "performance" pre = [] →
  children_named "performance" post = [] →
  let doc := Some (report_with_time pre pats pcs cats ccs post scs) in
  ((Reporter.ReportImportance ft_name pa doc).1 = Val tt ↔
     ∀ it, it ∈ ProbabilityAnalysis.importance pa →
           is_Some (ProbabilityAnalysis.basic_events_ pa !! it.1) ∧ 5 ≤ length it.2)
  ∧ (∀ it,
       it ∈ ProbabilityAnalysis.importance pa →
       ProbabilityAnalysis.basic_events_ pa !! it.1 = None ∨ length it.2 < 5 →
       (Reporter.ReportImportance ft_name pa doc).1 = Fail UndefinedBehaviour).
Proof.
  intros Hpre Hpost doc. subst doc.
  assert (∀ it,
            it ∈ ProbabilityAnalysis.importance pa →
            ProbabilityAnalysis.basic_events_ pa !! it.1 = None ∨ length it.2 < 5 →
            (Reporter.ReportImportance ft_name pa
               (Some (report_with_time pre pats pcs cats ccs post scs))).1
            = Fail UndefinedBehaviour) as Hstops.
  { intros it Hit Hbad. apply ReportImportance_stops, mapM_None, Exists_exists.
    exists it. split; [done|]. by apply importance_round_None. }
  split; [split|done].
  - intros Hval it Hit.
    destruct (ProbabilityAnalysis.basic_events_ pa !! it.1) as [be|] eqn:Hbe;
      [|rewrite (Hstops it) in Hval by auto; done].
    split; [by eexists|].
    destruct (decide (length it.2 < 5)) as [Hshort|?]; [|lia].
    rewrite (Hstops it) in Hval by auto. done.
  - intros Hall.
    destruct (mapM (importance_round pa) (ProbabilityAnalysis.importance pa))
      as [entries|] eqn:Hentries.
    + by rewrite (ReportImportance_run _ _ entries).
    + apply mapM_None, Exists_exists in Hentries as (it & Hit & Hbad).
      apply importance_round_None in Hbad.
      destruct (Hall it Hit) as [[be Hbe] Hlen].
      destruct Hbad as [?|?]; [congruence|lia].
Qed.
End importance_stops.

Section fta_stops.
Context `{Env}.
Import xmlpp.

Lemma member_round_not fta rest :
  member_round fta ("not " +:+ rest) =
    be ← FaultTreeAnalysis.basic_events_ fta !! rest;
    Some (Element "not" [] [event_entry be]).
Proof.
  destruct (not_prefix_split rest) as [Hhead Hrest].
  unfold member_round. by rewrite Hhead, Hrest.
Qed.

Lemma member_round_plain fta it_set :
  it_set ≠ "not" → String.prefix "not " it_set = false →
  member_round fta it_set
  = event_entry <$> FaultTreeAnalysis.basic_events_ fta !! it_set.
Proof.
  intros Hne Hprefix. unfold member_round.
  rewrite boost_split_head; simpl.
  rewrite bool_decide_eq_false_2; [done|].
  intros [?|?]%first_token_not; congruence.
Qed.

Lemma member_round_stops fta root q nm ats cs it_set :
  is_Some (lookup_node root q) →
  member_round fta it_set = None →
  ((let product := Some q in
    let full_name := it_set in
    let names := boost_split full_name (is_any_of " ") in
    assert (bool_decide (1 ≤ size names)%Z) ;;
    names_0 ← subscript names 0;
    if bool_decide (names_0 = "not") then
      let comp_name := full_name in
      let comp_name := replace_first comp_name "not " EmptyString in
      basic_event ← find_second (FaultTreeAnalysis.basic_events_ fta) comp_name;
      let ccf_event := dynamic_pointer_cast_CcfEvent basic_event in
      match ccf_event with
      | None =>
          n ← add_child product "not";
          b ← add_child n "basic-event";
          set_attribute b "name" (BasicEvent_orig_id basic_event)
      | Some ccf_event =>
          n ← add_child product "not";
          ccf_element ← add_child n "ccf-event";
          set_attribute ccf_element "ccf-group" (ccf_group_name ccf_event) ;;
          set_attribute ccf_element "order"
            (lexical_cast (size (member_names ccf_event))) ;;
          set_attribute ccf_element "group-size"
            (lexical_cast (ccf_group_size ccf_event)) ;;
          for_each (member_names ccf_event) (λ it,
            b ← add_child ccf_element "basic-event";
            set_attribute b "name" it)
      end
    else
      basic_event ← find_second (FaultTreeAnalysis.basic_events_ fta) full_name;
      let ccf_event := dynamic_pointer_cast_CcfEvent basic_event in
      match ccf_event with
      | None =>
          b ← add_child product "basic-event";
          set_attribute b "name" (BasicEvent_orig_id basic_event)
      | Some ccf_event =>
          ccf_element ← add_child product "ccf-event";
          set_attribute ccf_element "ccf-group" (ccf_group_name ccf_event) ;;
          set_attribute ccf_element "order"
            (lexical_cast (size (member_names ccf_event))) ;;
          set_attribute ccf_element "group-size"
            (lexical_cast (ccf_group_size ccf_event)) ;;
          for_each (member_names ccf_event) (λ it,
            b ← add_child ccf_element "basic-event";
            set_attribute b "name" it)
      end)
     (Some (replace root q (Element nm ats cs)))).1 = Fail UndefinedBehaviour.
Proof.
  intros Hq Hn. unfold member_round in Hn. cbv zeta.
  destruct (boost_split it_set (is_any_of " ") !! 0%nat) as [names_0|] eqn:Hnames;
    [|by rewrite boost_split_head in Hnames].
  simpl in Hn.
  etrans.
  { eapply bind_run_fst, assert_run. apply bool_decide_eq_true_2.
    apply lookup_lt_Some in Hnames. unfold size. lia. }
  cbv beta.
  etrans; [eapply bind_run_fst, subscript_run; [done|exact Hnames]|]; cbv beta.
  destruct (bool_decide (names_0 = "not")).
  - destruct (FaultTreeAnalysis.basic_events_ fta !! replace_first it_set "not " EmptyString)
      as [be|] eqn:Hbe; [done|].
    by apply find_second_stops.
  - destruct (FaultTreeAnalysis.basic_events_ fta !! it_set) as [be|] eqn:Hbe;
      [done|].
    by apply find_second_stops.
Qed.

Lemma ReportFta_stops ft_name fta prob_analysis ics scs :
  mapM (product_round fta prob_analysis) (FaultTreeAnalysis.min_cut_sets_ fta) = None →
  (Reporter.ReportFta ft_name fta prob_analysis (Some (report ics scs))).1
  = Fail UndefinedBehaviour.
Proof.
  intros Hnone. unfold Reporter.ReportFta.
  etrans; [eapply bind_run_fst, get_root_node_Some|]; cbv beta.
  etrans; [eapply bind_run_fst, find_results|]; cbv beta.
  etrans; [by eapply bind_run_fst, assert_run|]; cbv beta.
  unfold front; simpl head; simpl default.
  rewrite <-(report_results _ scs scs).
  step_fst. focus_fst sum_of_products. step_fst. step_fst. step_fst.
  etrans; [eapply bind_run_fst, run_total_probability; eauto|]; cbv beta zeta.
  etrans; [eapply bind_run_fst, run_warning; eauto|]; cbv beta.
  apply bind_stops.
  eapply (for_each_stops _ _ (product_round fta prob_analysis));
    [eauto| | |exact Hnone].
  - intros it_min n cs _ Hn. unfold product_round in Hn.
    destruct (match prob_analysis with
              | Some pa => Some <$> ProbabilityAnalysis.prob_of_min_sets pa !! it_min
              | None => Some None
              end) as [p|] eqn:Hp; [|done].
    simpl in Hn.
    destruct (mapM (member_round fta) it_min) as [members|] eqn:Hmembers; [|done].
    injection Hn as <-.
    step. focus product. step.
    etrans; [eapply bind_run, run_product_probability; eauto|]; cbv beta.
    etrans.
    { eapply (for_each_appends _ _ (member_round fta)); [eauto| |exact Hmembers].
      intros it_set n cs' _ Hn. by apply member_round_run. }
    unfocus product. by destruct p.
  - intros it_min cs _ Hn. unfold product_round in Hn.
    step_fst. focus_fst product. step_fst.
    destruct (match prob_analysis with
              | Some pa => Some <$> ProbabilityAnalysis.prob_of_min_sets pa !! it_min
              | None => Some None
              end) as [p|] eqn:Hp.
    + simpl in Hn.
      destruct (mapM (member_round fta) it_min) as [members|] eqn:Hmembers; [done|].
      etrans; [eapply bind_run_fst, run_product_probability; eauto|]; cbv beta.
      eapply (for_each_stops _ _ (member_round fta)); [eauto| | |exact Hmembers].
      * intros it_set n cs' _ Hn'. by apply member_round_run.
      * intros it_set cs' _ Hn'. by apply member_round_stops.
    + destruct prob_analysis as [pa|]; [|done].
      destruct (ProbabilityAnalysis.prob_of_min_sets pa !! it_min) eqn:Hpm; [done|].
      apply bind_stops. by apply find_second_stops.
Qed.

(** X14.  On a set-up document [ReportFta] returns just when every round
    of its loops gets through.  It ends in undefined behaviour
    ([find(...)->second] at [end()]) when a member of a minimal cut set
    has no basic event under its name, when a member "not " followed by
    a name has none under that name, and, with a probability analysis,
    when a minimal cut set has no entry in [prob_of_min_sets()]. *)
Theorem ReportFta_returns_iff ft_name fta prob_analysis pre pats pcs post scs :
  children_named "performance" pre = [] →
  children_named "performance" post = [] →
  let doc := Some (report (pre ++ Element "performance" pats pcs :: post) scs) in
  ((Reporter.ReportFta ft_name fta prob_analysis doc).1 = Val tt ↔
     is_Some (mapM (product_round fta prob_analysis)
                (FaultTreeAnalysis.min_cut_sets_ fta)))
  ∧ (∀ it_min it_set,
       it_min ∈ FaultTreeAnalysis.min_cut_sets_ fta → it_set ∈ it_min →
       it_set ≠ "not" → String.prefix "not " it_set = false →
       FaultTreeAnalysis.basic_events_ fta !! it_set = None →
       (Reporter.ReportFta ft_name fta prob_analysis doc).1 = Fail UndefinedBehaviour)
  ∧ (∀ it_min rest,
       it_min ∈ FaultTreeAnalysis.min_cut_sets_ fta → "not " +:+ rest ∈ it_min →
       FaultTreeAnalysis.basic_events_ fta !! rest = None →
       (Reporter.ReportFta ft_name fta prob_analysis doc).1 = Fail UndefinedBehaviour)
  ∧ (∀ pa it_min,
       prob_analysis = Some pa →
       it_min ∈ FaultTreeAnalysis.min_cut_sets_ fta →
       ProbabilityAnalysis.prob_of_min_sets pa !! it_min = None →
       (Reporter.ReportFta ft_name fta prob_analysis doc).1 = Fail UndefinedBehaviour).
Proof.
  intros Hpre Hpost doc. subst doc.
  assert (∀ it_min it_set,
            it_min ∈ FaultTreeAnalysis.min_cut_sets_ fta → it_set ∈ it_min →
            member_round fta it_set = None →
            mapM (product_round fta prob_analysis)
              (FaultTreeAnalysis.min_cut_sets_ fta) = None) as Hmember.
  { intros it_min it_set Hmin Hset Hn. apply mapM_None, Exists_exists.
    exists it_min. split; [done|]. unfold product_round.
    destruct (match prob_analysis with Some _ => _ | None => _ end); [|done].
    simpl.
    assert (mapM (member_round fta) it_min = None) as ->; [|done].
    apply mapM_None, Exists_exists. by exists it_set. }
  split_and!.
  - split.
    + intros Hval.
      destruct (mapM _ (FaultTreeAnalysis.min_cut_sets_ fta)) eqn:Hproducts;
        [by eexists|].
      by rewrite ReportFta_stops in Hval.
    + intros [products Hproducts]. by rewrite (ReportFta_run _ _ _ products).
  - intros it_min it_set Hmin Hset Hne Hprefix Hbe.
    apply ReportFta_stops, (Hmember it_min it_set); [done..|].
    by rewrite member_round_plain, Hbe.
  - intros it_min rest Hmin Hset Hbe.
    apply ReportFta_stops, (Hmember it_min ("not " +:+ rest)); [done..|].
    by rewrite member_round_not, Hbe.
  - intros pa it_min -> Hmin Hp.
    apply ReportFta_stops, mapM_None, Exists_exists.
    exists it_min. split; [done|]. unfold product_round. by rewrite Hp.
Qed.
End fta_stops.

Section fta_counts.
Context `{Env}.

Lemma product_round_shape fta prob_analysis it_min product :
  product_round fta prob_analysis it_min = Some product →
  is_element_named "product" product = true
  ∧ node_attribute "order" product
    = Some (lexical_cast (Z.of_nat (length (node_children product))))
  ∧ (is_Some (node_attribute "probability" product) ↔ is_Some prob_analysis).
Proof.
  unfold product_round. intros Hround.
  destruct (match prob_analysis with Some _ => _ | None => _ end) as [p|] eqn:Hp;
    [|done].
  simpl in Hround.
  destruct (mapM (member_round fta) it_min) as [members|] eqn:Hmembers; [|done].
  injection Hround as <-. apply length_mapM in Hmembers. simpl.
  split; [done|]. split; [unfold size; by rewrite Hmembers|].
  destruct prob_analysis as [pa|]; simpl in *.
  - destruct (ProbabilityAnalysis.prob_of_min_sets pa !! it_min); [|done].
    injection Hp as <-. simpl. split; by eexists.
  - injection Hp as <-. simpl. split; by intros [? [=]].
Qed.

(** X15.  In the section that [ReportFta] appends to the results, the
    "products" attribute is the number of "product" children, which is
    the number of minimal cut sets; the "order" attribute of each product
    is the number of its children; and the section and each product have
    a "probability" attribute just when a probability analysis was
    given. *)
Theorem ReportFta_counts ft_name fta prob_analysis products pre pats pcs post scs :
  children_named "performance" pre = [] →
  children_named "performance" post = [] →
  mapM (product_round fta prob_analysis) (FaultTreeAnalysis.min_cut_sets_ fta)
    = Some products →
  ∃ section,
    Reporter.ReportFta ft_name fta prob_analysis
      (Some (report (pre ++ Element "performance" pats pcs :: post) scs)) =
      (Val tt,
       Some (report_with_time pre pats pcs
               [("name", ft_name)] (calculation_times fta prob_analysis) post
               (scs ++ [section])))
    ∧ node_attribute "products" section
      = Some (lexical_cast
                (Z.of_nat (length (children_named "product" (node_children section)))))
    ∧ length (children_named "product" (node_children section))
      = length (FaultTreeAnalysis.min_cut_sets_ fta)
    ∧ Forall (λ product,
                node_attribute "order" product
                = Some (lexical_cast (Z.of_nat (length (node_children product))))
                ∧ (is_Some (node_attribute "probability" product)
                   ↔ is_Some prob_analysis))
             (children_named "product" (node_children section))
    ∧ (is_Some (node_attribute "probability" section) ↔ is_Some prob_analysis).
Proof.
  intros Hpre Hpost Hproducts.
  exists (sum_of_products_section ft_name fta prob_analysis products).
  split; [by apply ReportFta_run|].
  assert (Forall (λ product,
                    is_element_named "product" product = true
                    ∧ node_attribute "order" product
                      = Some (lexical_cast (Z.of_nat (length (node_children product))))
                    ∧ (is_Some (node_attribute "probability" product)
                       ↔ is_Some prob_analysis)) products) as Hshape.
  { apply mapM_Some in Hproducts.
    induction Hproducts as [|it_min product its products' Hround _ IH];
      constructor; [|done].
    by eapply product_round_shape. }
  assert (children_named "product"
            (node_children (sum_of_products_section ft_name fta prob_analysis products))
          = products) as ->.
  { unfold sum_of_products_section; simpl. unfold children_named.
    rewrite List.filter_app.
    assert (List.filter (is_element_named "product")
              (warning_nodes (fta_warning fta prob_analysis)) = []) as ->
      by (unfold warning_nodes; by case_bool_decide).
    simpl. clear Hproducts.
    induction Hshape as [|product products' (Hname & _) _ IH]; simpl; [done|].
    by rewrite Hname, IH. }
  apply length_mapM in Hproducts as Hlen.
  split_and!.
  - simpl. unfold size. by rewrite Hlen.
  - done.
  - eapply Forall_impl; [exact Hshape|]. by intros product (_ & ? & ?).
  - destruct prob_analysis as [pa|]; simpl.
    + split; intros _; by eexists.
    + split; by intros [? [=]].
Qed.
End fta_counts.

(** ** What [ReportImportance] and [ReportFta] write *)

Section importance_entries.
Context `{Env}.

(** X16.  On a set-up document whose performance log ends with a
    calculation-time entry, and with every entry of [importance()]
    readable, [ReportImportance] appends to the results an "importance"
    section with the tree name and the number of entries, and in it, in
    the order of [importance()], one "basic-event" for each entry: named
    by the [orig_id()] of the basic event found under the entry's key, not
    by the key, with the first five factors as DIF, MIF, CIF, RRW and RAW;
    further factors are not reported. *)
Theorem ReportImportance_entries ft_name pa pre pats pcs cats ccs post scs :
  children_named "performance" pre = [] →
  children_named "performance" post = [] →
  (∀ it, it ∈ ProbabilityAnalysis.importance pa →
         is_Some (ProbabilityAnalysis.basic_events_ pa !! it.1) ∧ 5 ≤ length it.2) →
  ∃ entries,
    Reporter.ReportImportance ft_name pa
      (Some (report_with_time pre pats pcs cats ccs post scs)) =
      (Val tt,
       Some (report_with_time pre pats pcs cats
               (ccs ++ [text_entry "importance"
                          (lexical_cast_double (ProbabilityAnalysis.imp_time_ pa))])
               post
               (scs ++
                [Element "importance"
                   [("name", ft_name);
                    ("basic-events",
                     lexical_cast (Z.of_nat (length (ProbabilityAnalysis.importance pa))))]
                   (warning_nodes (ProbabilityAnalysis.warnings pa) ++ entries)])))
    ∧ length entries = length (ProbabilityAnalysis.importance pa)
    ∧ ∀ i key be dif mif cif rrw raw more,
        ProbabilityAnalysis.importance pa !! i
          = Some (key, dif :: mif :: cif :: rrw :: raw :: more) →
        ProbabilityAnalysis.basic_events_ pa !! key = Some be →
        entries !! i =
          Some (Element "basic-event"
                  [("name", BasicEvent_orig_id be);
                   ("DIF", lexical_cast_double dif);
                   ("MIF", lexical_cast_double mif);
                   ("CIF", lexical_cast_double cif);
                   ("RRW", lexical_cast_double rrw);
                   ("RAW", lexical_cast_double raw)] []).
Proof.
  intros Hpre Hpost Hall.
  destruct (mapM (importance_round pa) (ProbabilityAnalysis.importance pa))
    as [entries|] eqn:Hentries.
  2:{ apply mapM_None, Exists_exists in Hentries as (it & Hit & Hbad).
      apply importance_round_None in Hbad.
      destruct (Hall it Hit) as [[be Hbe] Hlen].
      destruct Hbad as [?|?]; [congruence|lia]. }
  exists entries. split; [by apply ReportImportance_run|].
  split; [symmetry; by eapply length_mapM|].
  intros i key be dif mif cif rrw raw more Hi Hbe.
  apply mapM_Some in Hentries.
  destruct (Forall2_lookup_l _ _ _ _ _ Hentries Hi) as (entry & Hentry & Hround).
  rewrite Hentry. unfold importance_round in Hround; simpl in Hround.
  rewrite Hbe in Hround. simpl in Hround. by injection Hround as <-.
Qed.
End importance_entries.

Section fta_warning_facts.
Context `{Env}.

(** X17.  The section that [ReportFta] appends has a "warning" child just
    when the warning text is not empty; the text is the warnings of the
    cut set analysis followed, when a probability analysis is given, by
    the warnings of that analysis. *)
Theorem ReportFta_warning ft_name fta prob_analysis products pre pats pcs post scs :
  children_named "performance" pre = [] →
  children_named "performance" post = [] →
  mapM (product_round fta prob_analysis) (FaultTreeAnalysis.min_cut_sets_ fta)
    = Some products →
  let warning :=
    FaultTreeAnalysis.warnings fta
    +:+ from_option ProbabilityAnalysis.warnings EmptyString prob_analysis in
  ∃ section,
    Reporter.ReportFta ft_name fta prob_analysis
      (Some (report (pre ++ Element "performance" pats pcs :: post) scs)) =
      (Val tt,
       Some (report_with_time pre pats pcs
               [("name", ft_name)] (calculation_times fta prob_analysis) post
               (scs ++ [section])))
    ∧ children_named "warning" (node_children section) =
        if decide (warning = EmptyString) then []
        else [text_entry "warning" warning].
Proof.
  intros Hpre Hpost Hproducts warning.
  exists (sum_of_products_section ft_name fta prob_analysis products).
  split; [by apply ReportFta_run|].
  assert (fta_warning fta prob_analysis = warning) as Hw.
  { unfold fta_warning, warning. destruct prob_analysis; simpl; [done|].
    by rewrite string_app_nil_r. }
  unfold sum_of_products_section; simpl. rewrite Hw.
  unfold children_named. rewrite List.filter_app.
  assert (List.filter (is_element_named "warning") products = []) as ->.
  { apply mapM_Some in Hproducts.
    induction Hproducts as [|it_min product its products' Hround _ IH]; [done|].
    simpl. rewrite IH.
    apply product_round_shape in Hround as (Hname & _).
    destruct product as [nm ats cs|]; [|done]. simpl in *.
    apply bool_decide_eq_true in Hname. by subst nm. }
  rewrite app_nil_r. unfold warning_nodes.
  case_bool_decide; case_decide; done.
Qed.
End fta_warning_facts.

(** ** [ReportUncertainty] without bins *)

Section uncertainty_edges.
Context `{Env}.

(** X19.  [ReportUncertainty] with an empty distribution writes no
    quantile entry and the number -1, the [size_t] value [size() - 1]
    read as an [int]; with a distribution of one pair it writes no entry
    and the number 0.  In both cases it returns. *)
Theorem ReportUncertainty_no_bins ft_name ua pre pats pcs cats ccs post scs :
  children_named "performance" pre = [] →
  children_named "performance" post = [] →
  length (UncertaintyAnalysis.distribution ua) ≤ 1 →
  ∃ section,
    Reporter.ReportUncertainty ft_name ua
      (Some (report_with_time pre pats pcs cats ccs post scs)) =
      (Val tt,
       Some (report_with_time pre pats pcs cats
               (ccs ++ [text_entry "uncertainty"
                          (lexical_cast_double (UncertaintyAnalysis.p_time_ ua))])
               post (scs ++ [section])))
    ∧ children_named "quantiles" (node_children section) =
        [Element "quantiles"
           [("number",
             if decide (UncertaintyAnalysis.distribution ua = []) then "-1" else "0")]
           []].
Proof.
  intros Hpre Hpost Hlen. exists (measure_section ft_name ua).
  split; [by apply ReportUncertainty_run|].
  unfold measure_section, warning_nodes.
  destruct (UncertaintyAnalysis.distribution ua) as [|pair [|? ?]];
    [| |simpl in Hlen; lia]; by case_bool_decide.
Qed.
End uncertainty_edges.

(** * The examples, run *)

(** ** The tree examples *)

Lemma GatherPrimaryEvents_exact_witness :
  let t := AddGates [ex_top; ex_g1] (FaultTree_new "ft") in
  ∃ t',
    GatherPrimaryEvents [("g1", ex_g1)] t = (Val tt, t')
    ∧ (∀ id, is_Some (primary_events_ t' !! id) ↔
               inter_events_ t !! id = None
               ∧ ∃ gate, gate_of t gate ∧ is_Some (Gate.children gate !! id))
    ∧ inter_events_ t' = inter_events_ t
    ∧ top_event_ t' = top_event_ t
    ∧ top_event_id_ t' = top_event_id_ t
    ∧ lock_ t' = true.
Proof.
  apply (GatherPrimaryEvents_exact "ft" [ex_top; ex_g1] [("g1", ex_g1)]).
  - discriminate.
  - unfold iteration. vm_compute. reflexivity.
  - apply undefined_tree_false. vm_compute. reflexivity.
Defined.

(** The claim of C2 as it is written fails on a top gate that has a primary
    event under the gate's own identifier: the event is gathered although
    its identifier is the top gate's. *)
Lemma GatherPrimaryEvents_top_id_counterexample :
  let t := AddGates [ex_self] (FaultTree_new "ft") in
  let t' := (GatherPrimaryEvents [] t).2 in
  iteration (inter_events_ t) []
  ∧ GatherPrimaryEvents [] t = (Val tt, t')
  ∧ ¬ (∀ id, is_Some (primary_events_ t' !! id) ↔
               id ≠ top_event_id_ t
               ∧ inter_events_ t !! id = None
               ∧ ∃ gate, gate_of t gate ∧ is_Some (Gate.children gate !! id)).
Proof.
  intros t t'. split; [unfold iteration; vm_compute; reflexivity|].
  split; [vm_compute; reflexivity|].
  intros Hclaim. destruct (Hclaim "top") as [Hin _].
  destruct Hin as [Hne _]; [|by apply Hne].
  vm_compute. eauto.
Qed.

Lemma AddGate_sequence_witness :
  let t := AddGates [ex_top; ex_g1] (FaultTree_new "ft") in
  top_event_ t = Some ex_top
  ∧ AddGate ex_g2 t =
      (Val tt, set_inter_events_ (<["g2" := ex_g2]> (inter_events_ t)) t)
  ∧ AddGate ex_g1 t =
      (Fail (Thrown (ValueError "Trying to doubly define a gate")), t)
  ∧ AddGate ex_top t =
      (Fail (Thrown (ValueError "Trying to doubly define a gate")), t).
Proof.
  intros t.
  destruct (AddGate_sequence "ft" ex_top [ex_g1]) as [_ Hseq].
  destruct (Hseq ltac:(discriminate)) as (Htop & _ & _ & Hg).
  split; [exact Htop|]. split; [|split].
  - apply (Hg ex_g2); [discriminate|vm_compute; reflexivity].
  - apply (Hg ex_g1). right. vm_compute. eauto.
  - apply (Hg ex_top). by left.
Defined.

(** C3 (the code at the failing input).  [AddGate] reads the empty
    top-gate identifier as "no top gate yet".  After a first call with a
    gate whose identifier is the empty string that gate is the top gate
    and its identifier the top-gate identifier; yet a second call with
    this identifier returns, where the check of [AddGate] for a gate
    defined twice is to throw the [ValueError]; and a call with a new
    identifier returns having replaced the top gate, with nothing put
    into the intermediate mapping. *)
Theorem AddGate_empty_id_not_rejected :
  let t1 := (AddGate ex_anon (FaultTree_new "ft")).2 in
  top_event_ t1 = Some ex_anon
  ∧ Gate.id ex_anon = top_event_id_ t1
  ∧ AddGate ex_anon t1 = (Val tt, t1)
  ∧ Gate.id ex_g1 ≠ top_event_id_ t1
  ∧ inter_events_ t1 !! Gate.id ex_g1 = None
  ∧ (AddGate ex_g1 t1).1 = Val tt
  ∧ inter_events_ (AddGate ex_g1 t1).2 = ∅
  ∧ top_event_ (AddGate ex_g1 t1).2 = Some ex_g1.
Proof. by repeat split. Qed.

(** C7 (the code at the failing input).  The top gate has one child, "x",
    a gate that no [AddGate] call has registered.  [GatherPrimaryEvents]
    takes "x" for a leaf, the cast to a primary event gives the null
    pointer, and the call ends in the failed [assert(primary_event != 0)],
    the tree locked.  It throws none of the [scram::Error]s: no error
    object of any kind reaches the caller.  The comment at the assertion
    says that it must become an exception. *)
Theorem GatherPrimaryEvents_open_gate_asserts :
  let t := AddGates [ex_open] (FaultTree_new "ft") in
  iteration (inter_events_ t) []
  ∧ top_event_ t = Some ex_open
  ∧ Gate.children ex_open !! "x" = Some (GateRef "x")
  ∧ inter_events_ t !! "x" = None
  ∧ dynamic_pointer_cast_PrimaryEvent (GateRef "x") = None
  ∧ GatherPrimaryEvents [] t
    = (Fail AssertionFailed, set_lock_ true t)
  ∧ ∀ e, (GatherPrimaryEvents [] t).1 ≠ Fail (Thrown e).
Proof.
  intros t. split_and!; try (vm_compute; reflexivity).
  intros e He. vm_compute in He. discriminate He.
Qed.

Lemma GatherPrimaryEvents_undefined_leaf_witness :
  (GatherPrimaryEvents [] (AddGates [ex_open] (FaultTree_new "ft"))).1
  = Fail AssertionFailed.
Proof.
  apply (GatherPrimaryEvents_undefined_leaf _ ex_open [] ex_open "x" (GateRef "x")).
  - reflexivity.
  - unfold iteration. vm_compute. reflexivity.
  - left. reflexivity.
  - vm_compute; reflexivity.
  - vm_compute; reflexivity.
  - reflexivity.
Defined.

Lemma AddGate_failure_keeps_tree_witness :
  let t := AddGates [ex_top; ex_g1] (FaultTree_new "ft") in
  (AddGate ex_g1 t).2 = t.
Proof.
  intros t.
  apply (AddGate_failure_keeps_tree ex_g1 t
           (Thrown (ValueError "Trying to doubly define a gate"))).
  vm_compute; reflexivity.
Defined.

(** ** The report examples *)

Lemma example_document_shape :
  example_document
  = Some (report (example_pre ++ Element "performance" [] [] :: example_post) []).
Proof. reflexivity. Qed.

Lemma ReportOrphans_spec_witness :
  example_orphans ≠ []
  ∧ Reporter.ReportOrphans example_orphans example_document =
      (Val tt,
       Some (report
               ((example_pre ++ Element "performance" [] [] :: example_post)
                ++ [Element "warning" []
                      [TextNode "WARNING! Found unused primary events: H C "]])
               [])).
Proof.
  assert (example_orphans ≠ []) as Hne by discriminate.
  split; [exact Hne|].
  exact (proj2 ReportOrphans_spec example_orphans
           (example_pre ++ Element "performance" [] [] :: example_post) [] Hne).
Defined.

Lemma ReportFta_members_witness :
  Reporter.ReportFta "ft" example_fta None example_document =
    (Val tt,
     Some (report_with_time example_pre [] [] [("name", "ft")]
             (calculation_times example_fta None) example_post
             [sum_of_products_section "ft" example_fta None [example_product]]))
  ∧ product_round example_fta None ["A"; "not B"] = Some example_product.
Proof.
  destruct (ReportFta_members example_fta) as (_ & _ & _ & _ & Hrun & Hexample).
  split.
  - refine (proj1 (Hrun "ft" None [example_product] example_pre [] [] example_post []
                     _ _ _)); vm_compute; reflexivity.
  - refine (Hexample "A" "B" "[B1 B2]" "G" _ _); vm_compute; reflexivity.
Defined.

Lemma ReportUncertainty_quantiles_witness :
  let sample := UncertaintyAnalysis.distribution example_ua in
  let cts := calculation_times example_fta None in
  let sop := sum_of_products_section "ft" example_fta None [example_product] in
  (size sample ≤ 2 ^ 31)%Z
  ∧ Reporter.ReportUncertainty "ft" example_ua
      (Some (report_with_time example_pre [] [] [("name", "ft")] cts example_post
               [sop])) =
      (Val tt,
       Some (report_with_time example_pre [] [] [("name", "ft")]
               (cts ++ [Element "uncertainty" [] [TextNode "9"]]) example_post
               [sop; measure_section "ft" example_ua]))
  ∧ length (quantile_entries sample) = 4
  ∧ quantile_entries sample !! 3 =
      Some (Element "quantile"
              [("number", "4"); ("mean", "40");
               ("lower-bound", "3"); ("upper-bound", "4")] []).
Proof.
  intros sample cts sop.
  assert (size sample ≤ 2 ^ 31)%Z as Hsize by (vm_compute; discriminate).
  destruct (ReportUncertainty_quantiles "ft" example_ua example_pre [] []
              [("name", "ft")] cts example_post [sop] eq_refl eq_refl)
    as (Hrun & Hquantiles).
  destruct (Hquantiles Hsize) as (_ & Hlen & Hentry).
  split; [exact Hsize|]. split; [exact Hrun|]. split; [exact Hlen|].
  exact (Hentry 4 (3, 30)%Z (4, 40)%Z ltac:(lia) eq_refl eq_refl).
Defined.

Lemma time_goes_to_last_calculation_time_witness :
  (Reporter.ReportFta "A" example_fta None ;;
   Reporter.ReportFta "B" example_fta_b None ;;
   Reporter.ReportImportance "A" example_pa ;;
   Reporter.ReportUncertainty "A" example_ua) example_document =
    (Val tt,
     Some (report
             (example_pre ++
              Element "performance" []
                [Element "calculation-time" [("name", "A")]
                   [Element "minimal-cut-set" [] [TextNode "5"]];
                 Element "calculation-time" [("name", "B")]
                   [Element "minimal-cut-set" [] [TextNode "6"];
                    Element "importance" [] [TextNode "4"];
                    Element "uncertainty" [] [TextNode "9"]]]
              :: example_post)
             [sum_of_products_section "A" example_fta None [example_product];
              sum_of_products_section "B" example_fta_b None
                [Element "product" [("order", "1")]
                   [Element "basic-event" [("name", "A")] []]];
              importance_section "A" example_pa
                [Element "basic-event"
                   [("name", "A"); ("DIF", "1"); ("MIF", "2"); ("CIF", "3");
                    ("RRW", "4"); ("RAW", "5")] []];
              measure_section "A" example_ua])).
Proof.
  destruct (time_goes_to_last_calculation_time (H := example_env)
              example_pre [] [] example_post []
              eq_refl eq_refl) as (_ & _ & Hseq).
  refine (Hseq "A" example_fta None [example_product]
               "B" example_fta_b None _ "A" example_pa _ "A" example_ua _ _ _);
    vm_compute; reflexivity.
Defined.

(** ** More tree examples *)

Lemma AddGates_first_wins_witness :
  Gate.id ex_top ≠ EmptyString
  ∧ inter_events_ (AddGates [ex_top; ex_g1; ex_g1_again] (FaultTree_new "ft")) !! "g1"
    = Some ex_g1.
Proof.
  assert (Gate.id ex_top ≠ EmptyString) as Hid by discriminate.
  split; [exact Hid|].
  exact (AddGates_first_wins "ft" ex_top [ex_g1; ex_g1_again] "g1" Hid).
Defined.

Lemma AddGates_order_irrelevant_witness :
  let t := AddGates [ex_top; ex_g1; ex_g2] (FaultTree_new "ft") in
  let t' := AddGates [ex_top; ex_g2; ex_g1] (FaultTree_new "ft") in
  top_event_ t = top_event_ t'
  ∧ top_event_id_ t = top_event_id_ t'
  ∧ (∀ k, inter_events_ t !! k = inter_events_ t' !! k)
  ∧ name_ t = name_ t'
  ∧ primary_events_ t = primary_events_ t'
  ∧ lock_ t = lock_ t'
  ∧ warnings_ t = warnings_ t'.
Proof.
  apply (AddGates_order_irrelevant "ft" ex_top [ex_g1; ex_g2] [ex_g2; ex_g1]).
  - discriminate.
  - apply (bool_decide_unpack _). vm_compute. exact I.
  - apply perm_swap.
Defined.

Lemma GatherPrimaryEvents_returns_iff_witness :
  let t := AddGates [ex_top; ex_g1] (FaultTree_new "ft") in
  iteration (inter_events_ t) [("g1", ex_g1)]
  ∧ (GatherPrimaryEvents [("g1", ex_g1)] t).1 = Val tt.
Proof.
  intros t.
  assert (iteration (inter_events_ t) [("g1", ex_g1)]) as Horder
    by (unfold iteration; vm_compute; reflexivity).
  split; [exact Horder|].
  apply (proj1 (GatherPrimaryEvents_returns_iff [("g1", ex_g1)] t Horder)).
  split; [by eexists|]. apply undefined_tree_false. vm_compute. reflexivity.
Defined.

Lemma GatherPrimaryEvents_entries_witness :
  let t := AddGates [ex_top; ex_g1] (FaultTree_new "ft") in
  let t' := (GatherPrimaryEvents [("g1", ex_g1)] t).2 in
  GatherPrimaryEvents [("g1", ex_g1)] t = (Val tt, t')
  ∧ ∀ id pe,
      primary_events_ t' !! id = Some pe →
      primary_events_ t !! id = Some pe
      ∨ (inter_events_ t !! id = None
         ∧ ∃ gate, gate_of t gate ∧ Gate.children gate !! id = Some (Primary pe)).
Proof.
  intros t t'.
  assert (iteration (inter_events_ t) [("g1", ex_g1)]) as Horder
    by (unfold iteration; vm_compute; reflexivity).
  assert (GatherPrimaryEvents [("g1", ex_g1)] t = (Val tt, t')) as Hrun
    by (vm_compute; reflexivity).
  split; [exact Hrun|].
  exact (proj2 (GatherPrimaryEvents_entries [("g1", ex_g1)] t t' Horder Hrun)).
Defined.

Lemma GatherPrimaryEvents_idempotent_witness :
  let t := AddGates [ex_top; ex_g1; ex_g2] (FaultTree_new "ft") in
  let order := [("g1", ex_g1); ("g2", ex_g2)] in
  let order' := [("g2", ex_g2); ("g1", ex_g1)] in
  let t' := (GatherPrimaryEvents order t).2 in
  GatherPrimaryEvents order t = (Val tt, t')
  ∧ GatherPrimaryEvents order' t' = (Val tt, t').
Proof.
  intros t order order' t'.
  assert (iteration (inter_events_ t) order) as Horder
    by (unfold iteration; vm_compute; first [reflexivity|apply perm_swap]).
  assert (iteration (inter_events_ t) order') as Horder'
    by (unfold iteration; vm_compute; first [reflexivity|apply perm_swap]).
  assert (GatherPrimaryEvents order t = (Val tt, t')) as Hrun
    by (vm_compute; reflexivity).
  split; [exact Hrun|].
  exact (GatherPrimaryEvents_idempotent order order' t t' Horder Horder' Hrun).
Defined.

Lemma AddGate_after_anonymous_witness :
  AddGates [ex_anon; ex_anon; ex_g1] (FaultTree_new "ft")
  = mkFaultTree "ft" (Some ex_g1) "g1" ∅ ∅ false EmptyString.
Proof.
  apply (proj2 (AddGate_after_anonymous "ft" [ex_anon; ex_anon] ex_g1
                  ltac:(repeat constructor))).
Defined.

(** ** More report examples *)

Lemma SetupReport_model_features_witness :
  ∃ information,
    Reporter.SetupReport example_risk_an_wrap example_settings
      "2014-Oct-01 12:00:00" None =
      (Val tt, Some (report information []))
    ∧ last information =
        Some (Element "model-features" []
                [text_entry "gates" "1";
                 text_entry "basic-events" "2";
                 text_entry "house-events" "18446744073709551615";
                 text_entry "ccf-groups" "0";
                 text_entry "fault-trees" "1"]).
Proof.
  refine (SetupReport_model_features (H := example_env) example_risk_an_wrap
            example_settings "2014-Oct-01 12:00:00" _ _);
    vm_compute; reflexivity.
Defined.

Lemma report_pipeline_witness :
  (Reporter.SetupReport example_risk_an example_settings "2014-Oct-01 12:00:00" ;;
   Reporter.ReportOrphans example_orphans ;;
   Reporter.ReportFta "ft" example_fta None ;;
   Reporter.ReportImportance "ft" example_pa ;;
   Reporter.ReportUncertainty "ft" example_ua) None =
    (Val tt,
     Some (report
             (@setup_pre example_env "2014-Oct-01 12:00:00" ++
              Element "performance" []
                [Element "calculation-time" [("name", "ft")]
                   [text_entry "minimal-cut-set" "5";
                    text_entry "importance" "4";
                    text_entry "uncertainty" "9"]]
              :: @setup_post example_env example_risk_an example_settings
                 ++ [text_entry "warning" "WARNING! Found unused primary events: H C "])
             [sum_of_products_section "ft" example_fta None [example_product];
              importance_section "ft" example_pa
                [Element "basic-event"
                   [("name", "A"); ("DIF", "1"); ("MIF", "2"); ("CIF", "3");
                    ("RRW", "4"); ("RAW", "5")] []];
              measure_section "ft" example_ua])).
Proof.
  refine (report_pipeline (H := example_env) example_risk_an example_settings
            "2014-Oct-01 12:00:00" example_orphans "ft" example_fta None
            [example_product] example_pa _ example_ua _ _ _);
    [discriminate|vm_compute; reflexivity..].
Defined.

Lemma ReportImportance_returns_iff_witness :
  (Reporter.ReportImportance "ft" example_pa_short
     (Some (report_with_time example_pre [] [] [("name", "ft")]
              (calculation_times example_fta None) example_post []))).1
  = Fail UndefinedBehaviour.
Proof.
  destruct (ReportImportance_returns_iff (H := example_env) "ft" example_pa_short
              example_pre [] [] [("name", "ft")]
              (calculation_times example_fta None) example_post []
              eq_refl eq_refl) as [_ Hstops].
  apply (Hstops ("A", [1; 2; 3; 4]%Z)).
  - by left.
  - right. simpl. lia.
Defined.

Lemma ReportFta_returns_iff_witness :
  (Reporter.ReportFta "ft" example_fta_missing None example_document).1
  = Fail UndefinedBehaviour.
Proof.
  destruct (ReportFta_returns_iff (H := example_env) "ft" example_fta_missing None
              example_pre [] [] example_post []
              eq_refl eq_refl) as (_ & Hplain & _).
  apply (Hplain ["A"; "C"] "C").
  - by left.
  - right. by left.
  - discriminate.
  - reflexivity.
  - vm_compute. reflexivity.
Defined.

Lemma ReportFta_counts_witness :
  ∃ section,
    Reporter.ReportFta "ft" example_fta None example_document =
      (Val tt,
       Some (report_with_time example_pre [] [] [("name", "ft")]
               (calculation_times example_fta None) example_post [section]))
    ∧ node_attribute "products" section
      = Some (lexical_cast
                (Z.of_nat (length (children_named "product" (node_children section)))))
    ∧ length (children_named "product" (node_children section)) = 1.
Proof.
  destruct (ReportFta_counts (H := example_env) "ft" example_fta None
              [example_product] example_pre [] [] example_post [])
    as (section & Hrun & Hproducts & Hlen & _);
    [vm_compute; reflexivity..|].
  exists section. split; [exact Hrun|]. split; [exact Hproducts|exact Hlen].
Defined.

Lemma ReportImportance_entries_witness :
  ∃ entries,
    Reporter.ReportImportance "ft" example_pa
      (Some (report_with_time example_pre [] [] [("name", "ft")]
               (calculation_times example_fta None) example_post [])) =
      (Val tt,
       Some (report_with_time example_pre [] [] [("name", "ft")]
               (calculation_times example_fta None
                ++ [text_entry "importance" "4"])
               example_post
               [Element "importance" [("name", "ft"); ("basic-events", "1")] entries]))
    ∧ entries !! 0 =
        Some (Element "basic-event"
                [("name", "A"); ("DIF", "1"); ("MIF", "2"); ("CIF", "3");
                 ("RRW", "4"); ("RAW", "5")] []).
Proof.
  destruct (ReportImportance_entries (H := example_env) "ft" example_pa
              example_pre [] [] [("name", "ft")]
              (calculation_times example_fta None) example_post []
              eq_refl eq_refl) as (entries & Hrun & _ & Hentry).
  { intros it [->|[]%elem_of_nil]%elem_of_cons. split; [by eexists|simpl; lia]. }
  exists entries. split; [exact Hrun|].
  exact (Hentry 0 "A" (PlainBasicEvent "A" "A") 1%Z 2%Z 3%Z 4%Z 5%Z []
           eq_refl ltac:(vm_compute; reflexivity)).
Defined.

Lemma ReportFta_warning_witness :
  ∃ section,
    Reporter.ReportFta "ft" example_fta_warning None example_document =
      (Val tt,
       Some (report_with_time example_pre [] [] [("name", "ft")]
               (calculation_times example_fta_warning None) example_post [section]))
    ∧ children_named "warning" (node_children section) =
        [text_entry "warning" "No top event probability. "].
Proof.
  refine (ReportFta_warning (H := example_env) "ft" example_fta_warning None
            [Element "product" [("order", "1")]
               [Element "basic-event" [("name", "A")] []]]
            example_pre [] [] example_post [] _ _ _);
    vm_compute; reflexivity.
Defined.

Lemma ReportUncertainty_no_bins_witness :
  ∃ section,
    Reporter.ReportUncertainty "ft" example_ua_empty
      (Some (report_with_time example_pre [] [] [("name", "ft")]
               (calculation_times example_fta None) example_post [])) =
      (Val tt,
       Some (report_with_time example_pre [] [] [("name", "ft")]
               (calculation_times example_fta None
                ++ [text_entry "uncertainty" "9"])
               example_post [section]))
    ∧ children_named "quantiles" (node_children section) =
        [Element "quantiles" [("number", "-1")] []].
Proof.
  refine (ReportUncertainty_no_bins (H := example_env) "ft" example_ua_empty
            example_pre [] [] [("name", "ft")]
            (calculation_times example_fta None) example_post [] _ _ _);
    [reflexivity|reflexivity|simpl; lia].
Defined.
